(** * ContractableBOSS: ensemble construction, selection and aggregation

    A shallow embedding of [sktime/classification/dictionary_based/_cboss.py].

    Conventions of the embedding.
    - Python [int]s are [Z]; sizes taken from array shapes are [nat].
    - Python floats are binary64.  Where the source truncates a float
      product or quotient with [int(...)] (lines 194, 195, 212 and 370) the
      model rounds as binary64 does ([py_float]: to nearest, ties to even,
      53 significant bits) before truncating.  The exponent is not bounded:
      the rounding is that of binary64 for magnitudes from [2^-1022] up to
      [2^1024], and a number of type [Q] stands for a finite float.
    - Accuracies, weights, probabilities and times are idealised as exact
      rationals [Q]; where the source compares them the model compares
      rationals, and [==] is equality of rationals.  A numpy float that
      results from a division is an [npfloat], which adds the IEEE values
      [NaN] and the infinities.
    - Exceptions are values of [exn]; a computation that may raise returns
      a [result].
    - Class labels are integers.
    - [IndividualBOSS], the random generator, the wall clock and the public
      [predict_proba] of the base classifier are collaborators outside this
      file: they are Section variables.  [joblib.Parallel] is modelled by
      what it does with its [n_jobs]: it rejects 0 with [ValueError] and
      otherwise returns the results in order. *)

From Stdlib Require Import ZArith QArith Qround Qpower Lia Lqa List Bool.
From stdpp Require Import base option list sorting gmap.
Import ListNotations.

Local Open Scope Z_scope.

(** ** Exceptions and results *)

Inductive exn : Set :=
| ValueError
| IndexError
| KeyError
| ZeroDivisionError.

Inductive result (A : Type) : Type :=
| Ok (a : A)
| Raise (e : exn).
Arguments Ok {A} a.
Arguments Raise {A} e.

Definition bind {A B : Type} (r : result A) (k : A -> result B) : result B :=
  match r with
  | Ok a => k a
  | Raise e => Raise e
  end.

Notation "'let*' x ':=' r 'in' k" := (bind r (fun x => k))
  (at level 10, x pattern, r at level 100, k at level 200).

Definition of_option {A : Type} (e : exn) (o : option A) : result A :=
  match o with
  | Some a => Ok a
  | None => Raise e
  end.

(** ** Numbers *)

(** [int(x)] on a float: truncation toward zero. *)
Definition py_int (x : Q) : Z := Z.quot (Qnum x) (Z.pos (Qden x)).

Definition Qlt_bool (a b : Q) : bool := negb (Qle_bool b a).

(** *** Rounding to binary64 *)

Definition pow2 (e : Z) : Q := (2 ^ e)%Q.

(** For a positive [x], the exponent [k] with [2^k <= x < 2^(k+1)]. *)
Definition Qlog2_floor (x : Q) : Z :=
  let k := Z.log2 (Qnum x) - Z.log2 (Z.pos (Qden x)) in
  if Qle_bool (pow2 k) x then k else k - 1.

(** The nearest integer, a tie going to the even one. *)
Definition round_half_even (t : Q) : Z :=
  let f := Qfloor t in
  match (t - inject_Z f ?= 1 # 2)%Q with
  | Lt => f
  | Gt => f + 1
  | Eq => if Z.even f then f else f + 1
  end.

(** A positive number rounded to 53 significant bits. *)
Definition round53_pos (x : Q) : Q :=
  let e := Qlog2_floor x - 52 in
  (inject_Z (round_half_even (x / pow2 e)) * pow2 e)%Q.

(** The float nearest to a real number: the value that a float operation
    returns for the exact result [x], and the value of [float(n)] for an
    integer [n]. *)
Definition py_float (x : Q) : Q :=
  match Qnum x with
  | 0 => 0%Q
  | Z.pos _ => round53_pos x
  | Z.neg _ => (- round53_pos (- x))%Q
  end.

(** The unit roundoff [2^-53]. *)
Definition u53 : Q := 1 # 9007199254740992.

(** A numpy float after a division. *)
Inductive npfloat : Set :=
| Fin (q : Q)
| PosInf
| NegInf
| NaN.

(** Elementwise numpy division of two finite floats: a zero divisor gives
    [nan] for [0/0] and a signed infinity otherwise (with a warning, not an
    exception). *)
Definition np_div (x d : Q) : npfloat :=
  if Qeq_bool d 0 then
    if Qeq_bool x 0 then NaN
    else if Qlt_bool 0 x then PosInf else NegInf
  else Fin (x / d).

(** [np.sum] of a list of floats; the empty sum is [0.0]. *)
Definition np_sum (l : list Q) : Q := fold_left Qplus l 0%Q.

(** ** Python lists *)

(** Position addressed by a Python index: negative indices count from the
    end; [None] when the index is out of range. *)
Definition py_index {A : Type} (l : list A) (i : Z) : option nat :=
  let n := Z.of_nat (length l) in
  if (0 <=? i) && (i <? n) then Some (Z.to_nat i)
  else if (- n <=? i) && (i <? 0) then Some (Z.to_nat (n + i))
  else None.

(** [l[i] = x]. *)
Definition py_setitem {A : Type} (l : list A) (i : Z) (x : A) : result (list A) :=
  match py_index l i with
  | Some k => Ok (<[k := x]> l)
  | None => Raise IndexError
  end.

(** [l.pop(i)]: the element removed and the remaining list. *)
Definition py_pop {A : Type} (l : list A) (i : Z) : result (A * list A) :=
  match py_index l i with
  | Some k =>
      match l !! k with
      | Some x => Ok (x, delete k l)
      | None => Raise IndexError
      end
  | None => Raise IndexError
  end.

(** [range(start, stop, step)] for a positive step. *)
Definition py_range (start stop step : Z) : list Z :=
  if stop <=? start then []
  else map (fun k => start + Z.of_nat k * step)
           (seq 0 (Z.to_nat ((stop - start + step - 1) / step))).

(** [a[idx]] for an index array [idx]: numpy fancy indexing. *)
Definition np_take {A : Type} (a : list A) (idx : list nat) : result (list A) :=
  of_option IndexError (mapM (fun i => a !! i) idx).

(** ** Labels *)

Definition label : Set := Z.

Definition label_eqb (a b : label) : bool := Z.eqb a b.

(** [class_distribution(y)[0][0]]: the sorted distinct labels. *)
Definition class_values (y : list label) : list label :=
  merge_sort Z.le (remove_dups y).

(** The loop [for index, classVal in enumerate(classes_):
    class_dictionary[classVal] = index]. *)
Fixpoint fill_class_dictionary (d : gmap Z nat) (index : nat)
    (classes : list label) : gmap Z nat :=
  match classes with
  | [] => d
  | classVal :: rest =>
      fill_class_dictionary (<[classVal := index]> d) (S index) rest
  end.

(** ** The base learner

    A fitted [IndividualBOSS] as the ensemble sees it: its parameters, the
    attributes [subsample] and [accuracy] that [_fit] attaches to it, and
    its two prediction methods. *)

Section BaseLearner.

Variable series : Type.

Record IndividualBOSS : Type := {
  window_size : Z;
  word_length : Z;
  norm : bool;
  subsample : list nat;
  accuracy : Q;
  (** [_train_predict(i)]: the leave-one-out prediction for the [i]-th
      instance of the learner's own training subsample. *)
  _train_predict : nat -> label;
  (** [predict] on one series; [predict(X)] maps it over [X]. *)
  predict1 : series -> label
}.

Definition with_accuracy (b : IndividualBOSS) (acc : Q) : IndividualBOSS :=
  {| window_size := window_size b; word_length := word_length b;
     norm := norm b; subsample := subsample b; accuracy := acc;
     _train_predict := _train_predict b; predict1 := predict1 b |}.

(** ** [_individual_train_acc] *)

(** How a pass over [range(train_size)] ends: by the [return -1] inside
    the loop, or by falling out of the loop with the final [correct]. *)
Inductive loop_exit : Set :=
| Returned (v : Q)
| Completed (correct : Z).

(** Each loop also yields the indices at which [_train_predict] was
    evaluated, in order. *)
Definition evaluated : Set := list nat.

(** The sequential branch ([n_jobs <= 1]). *)
Fixpoint train_acc_loop_seq (boss : IndividualBOSS) (y : list label)
    (train_size required_correct : Z) (idxs : list nat) (correct : Z)
    : evaluated * result loop_exit :=
  match idxs with
  | [] => ([], Ok (Completed correct))
  | i :: rest =>
      if correct + train_size - Z.of_nat i <? required_correct
      then ([], Ok (Returned (-1)))
      else
        let c := _train_predict boss i in
        match y !! i with
        | None => ([i], Raise IndexError)
        | Some yi =>
            let '(ev, r) :=
              train_acc_loop_seq boss y train_size required_correct rest
                (if label_eqb c yi then correct + 1 else correct) in
            (i :: ev, r)
        end
  end.

(** The second loop of the parallel branch ([n_jobs > 1]), over the list
    [c] of predictions computed beforehand. *)
Fixpoint train_acc_loop_par (c : list label) (y : list label)
    (train_size required_correct : Z) (idxs : list nat) (correct : Z)
    : result loop_exit :=
  match idxs with
  | [] => Ok (Completed correct)
  | i :: rest =>
      if correct + train_size - Z.of_nat i <? required_correct
      then Ok (Returned (-1))
      else
        match c !! i with
        | None => Raise IndexError
        | Some ci =>
            match y !! i with
            | None => Raise IndexError
            | Some yi =>
                train_acc_loop_par c y train_size required_correct rest
                  (if label_eqb ci yi then correct + 1 else correct)
            end
        end
  end.

(** The last line, [return correct / train_size]. *)
Definition finish_train_acc (train_size : nat) (r : result loop_exit)
    : result Q :=
  let* e := r in
  match e with
  | Returned v => Ok v
  | Completed correct =>
      if Nat.eqb train_size 0 then Raise ZeroDivisionError
      else Ok (inject_Z correct / inject_Z (Z.of_nat train_size))%Q
  end.

(** [int(lowest_acc * train_size)], line 370: the product of the float
    [lowest_acc] with [float(train_size)], rounded, then truncated. *)
Definition required_correct_of (lowest_acc : Q) (train_size : nat) : Z :=
  py_int (py_float (py_float lowest_acc
                    * py_float (inject_Z (Z.of_nat train_size)))).

Definition _individual_train_acc_traced (n_jobs : Z) (boss : IndividualBOSS)
    (y : list label) (train_size : nat) (lowest_acc : Q)
    : evaluated * result Q :=
  let correct := 0 in
  let required_correct := required_correct_of lowest_acc train_size in
  if 1 <? n_jobs then
    let c := map (_train_predict boss) (seq 0 train_size) in
    (seq 0 train_size,
     finish_train_acc train_size
       (train_acc_loop_par c y (Z.of_nat train_size) required_correct
          (seq 0 train_size) correct))
  else
    let '(ev, r) :=
      train_acc_loop_seq boss y (Z.of_nat train_size) required_correct
        (seq 0 train_size) correct in
    (ev, finish_train_acc train_size r).

Definition _individual_train_acc (n_jobs : Z) (boss : IndividualBOSS)
    (y : list label) (train_size : nat) (lowest_acc : Q) : result Q :=
  snd (_individual_train_acc_traced n_jobs boss y train_size lowest_acc).

(** ** The classifier object *)

Definition parameters : Set := Z * Z * bool.

Record ContractableBOSS : Type := {
  n_parameter_samples : Z;
  max_ensemble_size : Z;
  max_win_len_prop : Q;
  time_limit_in_minutes : Q;
  n_jobs : Z;
  random_state : Z;
  classifiers : list IndividualBOSS;
  weights : list Q;
  weight_sum : Q;
  n_classes : nat;
  classes_ : list label;
  class_dictionary : gmap Z nat;
  n_estimators : nat;
  series_length : nat;
  n_instances : nat;
  word_lengths : list Z;
  norm_options : list bool;
  min_window : Z;
  alphabet_size : Z
}.

(** [__init__]. *)
Definition init (n_parameter_samples max_ensemble_size : Z)
    (max_win_len_prop : Q) (min_window : Z) (time_limit_in_minutes : Q)
    (n_jobs random_state : Z) : ContractableBOSS :=
  {| n_parameter_samples := n_parameter_samples;
     max_ensemble_size := max_ensemble_size;
     max_win_len_prop := max_win_len_prop;
     time_limit_in_minutes := time_limit_in_minutes;
     n_jobs := n_jobs;
     random_state := random_state;
     classifiers := [];
     weights := [];
     weight_sum := 0;
     n_classes := 0;
     classes_ := [];
     class_dictionary := ∅;
     n_estimators := 0;
     series_length := 0;
     n_instances := 0;
     word_lengths := [16; 14; 12; 10; 8];
     norm_options := [true; false];
     min_window := min_window;
     alphabet_size := 4 |}.

(** A training or test array of shape [(n_instances, 1, series_length)]. *)
Record ndarray3 : Type := {
  instances : list series;
  shape2 : nat
}.

(** ** [_unique_parameters] *)

Definition _unique_parameters (self : ContractableBOSS)
    (max_window win_inc : Z) : list parameters :=
  flat_map (fun normalise =>
    flat_map (fun win_size =>
      map (fun word_len => (win_size, word_len, normalise))
          (word_lengths self))
      (py_range (min_window self) (max_window + 1) win_inc))
    (norm_options self).

(** ** [_worst_ensemble_acc] *)

Fixpoint worst_scan (cs : list IndividualBOSS) (c : Z) (min_acc : Q)
    (min_acc_idx : Z) : Q * Z :=
  match cs with
  | [] => (min_acc, min_acc_idx)
  | classifier :: rest =>
      if Qlt_bool (accuracy classifier) min_acc
      then worst_scan rest (c + 1) (accuracy classifier) c
      else worst_scan rest (c + 1) min_acc min_acc_idx
  end.

Definition _worst_ensemble_acc (cs : list IndividualBOSS) : Q * Z :=
  worst_scan cs 0 1%Q (-1).

(** ** The search loop of [_fit] *)

(** The weight floor [0.000000001]. *)
Definition weight_floor : Q := 1 # 1000000000.

(** Lines 248-251: the weight of a scored candidate. *)
Definition weight_of (acc : Q) : Q :=
  if Qlt_bool 0 acc then (acc ^ 4)%Q else weight_floor.

(** The variables the loop reads and writes: the locals of [_fit] and the
    two lists it grows on [self]. *)
Record search_state (RandomState : Type) : Type := {
  possible_parameters : list parameters;
  num_classifiers : Z;
  train_time : Q;
  lowest_acc : Q;
  lowest_acc_idx : Z;
  rng : RandomState;
  st_classifiers : list IndividualBOSS;
  st_weights : list Q
}.
Arguments possible_parameters {RandomState} s.
Arguments num_classifiers {RandomState} s.
Arguments train_time {RandomState} s.
Arguments lowest_acc {RandomState} s.
Arguments lowest_acc_idx {RandomState} s.
Arguments rng {RandomState} s.
Arguments st_classifiers {RandomState} s.
Arguments st_weights {RandomState} s.

(** Lines 253-262: what the ensemble keeps of a scored candidate, given
    the bookkeeping [(lowest_acc, lowest_acc_idx)].  The result is the new
    [(classifiers, weights, lowest_acc, lowest_acc_idx)]. *)
Definition retain (max_size num : Z) (boss : IndividualBOSS) (weight : Q)
    (cs : list IndividualBOSS) (ws : list Q) (low : Q) (low_idx : Z)
    : result (list IndividualBOSS * list Q * Q * Z) :=
  if num <? max_size then
    let '(low', low_idx') :=
      if Qlt_bool (accuracy boss) low then (accuracy boss, num)
      else (low, low_idx) in
    Ok (cs ++ [boss], ws ++ [weight], low', low_idx')
  else if Qlt_bool low (accuracy boss) then
    let* ws' := py_setitem ws low_idx weight in
    let* cs' := py_setitem cs low_idx boss in
    let '(low', low_idx') := _worst_ensemble_acc cs' in
    Ok (cs', ws', low', low_idx')
  else Ok (cs, ws, low, low_idx).

Section Search.

(** The collaborators. [fit_boss win word norm alphabet seed Xs ys] is
    [IndividualBOSS(...).fit(Xs, ys)]: it yields the two prediction
    methods of the fitted learner. *)
Variable fit_boss :
  Z -> Z -> bool -> Z -> Z -> list series -> list label ->
  (nat -> label) * (series -> label).

(** [numpy.random.RandomState] as a state-passing generator:
    [check_random_state seed], [rng.randint(low, high)],
    [rng.choice(n, size=k, replace=False)] and [rng.choice(a)] on an
    array. *)
Variable RandomState : Type.
Variable check_random_state : Z -> RandomState.
Variable randint : RandomState -> Z -> Z -> Z * RandomState.
Variable choice : RandomState -> nat -> nat -> list nat * RandomState.
Variable choice_of : RandomState -> list nat -> result nat * RandomState.

(** [clock k] is [time.time() - start_time] as read at the end of the
    iteration that brings [num_classifiers] to [k]. *)
Variable clock : Z -> Q.

Definition continue (self : ContractableBOSS) (time_limit : Q)
    (st : search_state RandomState) : bool :=
  (Qlt_bool (train_time st) time_limit
   || (num_classifiers st <? n_parameter_samples self))
  && (0 <? length (possible_parameters st))%nat.

(** One pass through the body of the [while]. The first component lists
    the parameters on which a base learner was fitted in this pass. *)
Definition search_step (self : ContractableBOSS) (X : ndarray3)
    (y : list label) (subsample_size : nat) (st : search_state RandomState)
    : list parameters * result (search_state RandomState) :=
  let '(k, rng1) :=
    randint (rng st) 0 (Z.of_nat (length (possible_parameters st))) in
  match py_pop (possible_parameters st) k with
  | Raise e => ([], Raise e)
  | Ok (params, remaining) =>
      let '(sub, rng2) :=
        choice rng1 (length (instances X)) subsample_size in
      match np_take (instances X) sub with
      | Raise e => ([], Raise e)
      | Ok X_subsample =>
      match np_take y sub with
      | Raise e => ([], Raise e)
      | Ok y_subsample =>
          let '(win_size, word_len, normalise) := params in
          let '(tp, pr) :=
            fit_boss win_size word_len normalise (alphabet_size self)
              (random_state self) X_subsample y_subsample in
          let boss :=
            {| window_size := win_size; word_length := word_len;
               norm := normalise; subsample := sub; accuracy := 0;
               _train_predict := tp; predict1 := pr |} in
          ([params],
           let* acc :=
             _individual_train_acc (n_jobs self) boss y_subsample
               subsample_size
               (if num_classifiers st <? max_ensemble_size self then 0%Q
                else lowest_acc st) in
           let boss := with_accuracy boss acc in
           let weight := weight_of (accuracy boss) in
           let* (cs, ws, low, low_idx) :=
             retain (max_ensemble_size self) (num_classifiers st) boss
               weight (st_classifiers st) (st_weights st) (lowest_acc st)
               (lowest_acc_idx st) in
           let num := num_classifiers st + 1 in
           Ok {| possible_parameters := remaining;
                 num_classifiers := num;
                 train_time := clock num;
                 lowest_acc := low;
                 lowest_acc_idx := low_idx;
                 rng := rng2;
                 st_classifiers := cs;
                 st_weights := ws |})
      end
      end
  end.

(** The [while] loop. Every pass removes one element of
    [possible_parameters], so [fuel] passes suffice when [fuel] is at
    least its length: the loop then ends only by the failure of its
    condition (lemma [search_loop_ok]). *)
Fixpoint search_loop (fuel : nat) (self : ContractableBOSS)
    (time_limit : Q) (X : ndarray3) (y : list label) (subsample_size : nat)
    (st : search_state RandomState)
    : list parameters * result (search_state RandomState) :=
  if continue self time_limit st then
    match fuel with
    | O => ([], Ok st)
    | S fuel' =>
        match search_step self X y subsample_size st with
        | (tr, Raise e) => (tr, Raise e)
        | (tr, Ok st') =>
            let '(tr', r) :=
              search_loop fuel' self time_limit X y subsample_size st' in
            (tr ++ tr', r)
        end
    end
  else ([], Ok st).

(** ** [_fit] *)

(** [int(self.n_instances * 0.7)], line 212: [0.7] is the float nearest
    to 7/10, and the float product is rounded before it is truncated. *)
Definition subsample_size_of (n_instances : nat) : nat :=
  Z.to_nat (py_int (py_float (py_float (inject_Z (Z.of_nat n_instances))
                              * py_float (7 # 10)))).

(** [int(self.series_length * self.max_win_len_prop)], line 194. *)
Definition max_window_of (series_length : nat) (max_win_len_prop : Q) : Z :=
  py_int (py_float (py_float (inject_Z (Z.of_nat series_length))
                    * py_float max_win_len_prop)).

(** [self.series_length / 4], line 193. *)
Definition max_window_searches_of (series_length : nat) : Q :=
  py_float (inject_Z (Z.of_nat series_length) / 4).

(** The window increment: [int((max_window - min_window) /
    max_window_searches)], raised to 1 when below it. *)
Definition win_inc_of (series_length : nat) (max_window min_window : Z) : Z :=
  let max_window_searches := max_window_searches_of series_length in
  let win_inc :=
    py_int (py_float (py_float (inject_Z (max_window - min_window))
                      / max_window_searches)) in
  if win_inc <? 1 then 1 else win_inc.

(** The parameter grid that [_fit] builds for a training array. *)
Definition parameter_grid (self : ContractableBOSS) (X : ndarray3)
    : list parameters :=
  let max_window := max_window_of (shape2 X) (max_win_len_prop self) in
  _unique_parameters self max_window
    (win_inc_of (shape2 X) max_window (min_window self)).

(** [_fit] returns the parameters on which base learners were fitted, in
    order, and either the fitted object or the exception raised. *)
Definition _fit (self : ContractableBOSS) (X : ndarray3) (y : list label)
    : list parameters * result ContractableBOSS :=
  let time_limit := (time_limit_in_minutes self * 60)%Q in
  let n_inst := length (instances X) in
  let s_len := shape2 X in
  let n_cls := length (remove_dups y) in
  let classes := class_values y in
  let dict := fill_class_dictionary (class_dictionary self) 0 classes in
  let max_window_searches := max_window_searches_of s_len in
  let max_window := max_window_of s_len (max_win_len_prop self) in
  if Qeq_bool max_window_searches 0 then ([], Raise ZeroDivisionError)
  else
    let win_inc := win_inc_of s_len max_window (min_window self) in
    if max_window + 1 <? min_window self then ([], Raise ValueError)
    else
      let possible := _unique_parameters self max_window win_inc in
      let subsample_size := subsample_size_of n_inst in
      let st0 :=
        {| possible_parameters := possible;
           num_classifiers := 0;
           train_time := 0;
           lowest_acc := 1;
           lowest_acc_idx := 0;
           rng := check_random_state (random_state self);
           st_classifiers := [];
           st_weights := [] |} in
      let n_samples :=
        if Qlt_bool 0 time_limit then 0 else n_parameter_samples self in
      let self1 :=
        {| n_parameter_samples := n_samples;
           max_ensemble_size := max_ensemble_size self;
           max_win_len_prop := max_win_len_prop self;
           time_limit_in_minutes := time_limit_in_minutes self;
           n_jobs := n_jobs self;
           random_state := random_state self;
           classifiers := [];
           weights := [];
           weight_sum := weight_sum self;
           n_classes := n_cls;
           classes_ := classes;
           class_dictionary := dict;
           n_estimators := n_estimators self;
           series_length := s_len;
           n_instances := n_inst;
           word_lengths := word_lengths self;
           norm_options := norm_options self;
           min_window := min_window self;
           alphabet_size := alphabet_size self |} in
      match search_loop (length possible) self1 time_limit X y
              subsample_size st0 with
      | (tr, Raise e) => (tr, Raise e)
      | (tr, Ok st) =>
          (tr,
           Ok {| n_parameter_samples := n_samples;
                 max_ensemble_size := max_ensemble_size self;
                 max_win_len_prop := max_win_len_prop self;
                 time_limit_in_minutes := time_limit_in_minutes self;
                 n_jobs := n_jobs self;
                 random_state := random_state self;
                 classifiers := st_classifiers st;
                 weights := st_weights st;
                 weight_sum := np_sum (st_weights st);
                 n_classes := n_cls;
                 classes_ := classes;
                 class_dictionary := dict;
                 n_estimators := length (st_classifiers st);
                 series_length := s_len;
                 n_instances := n_inst;
                 word_lengths := word_lengths self;
                 norm_options := norm_options self;
                 min_window := min_window self;
                 alphabet_size := alphabet_size self |})
      end.

(** ** [_predict_proba] *)

(** [sums[i, k] += w] on a two-dimensional array. *)
Definition add_at2 (sums : list (list Q)) (i k : nat) (w : Q)
    : result (list (list Q)) :=
  match sums !! i with
  | None => Raise IndexError
  | Some row =>
      match row !! k with
      | None => Raise IndexError
      | Some x => Ok (<[i := <[k := (x + w)%Q]> row]> sums)
      end
  end.

(** The inner loop [for i in range(0, X.shape[0])] for classifier [n]. *)
Fixpoint proba_inner (self : ContractableBOSS) (preds : list label)
    (n : nat) (idxs : list nat) (sums : list (list Q))
    : result (list (list Q)) :=
  match idxs with
  | [] => Ok sums
  | i :: rest =>
      let* p := of_option IndexError (preds !! i) in
      let* k := of_option KeyError (class_dictionary self !! p) in
      let* w := of_option IndexError (weights self !! n) in
      let* sums' := add_at2 sums i k w in
      proba_inner self preds n rest sums'
  end.

(** The outer loop [for n, clf in enumerate(self.classifiers)]. *)
Fixpoint proba_outer (self : ContractableBOSS) (X : list series)
    (n : nat) (clfs : list IndividualBOSS) (sums : list (list Q))
    : result (list (list Q)) :=
  match clfs with
  | [] => Ok sums
  | clf :: rest =>
      let preds := map (predict1 clf) X in
      let* sums' := proba_inner self preds n (seq 0 (length X)) sums in
      proba_outer self X (S n) rest sums'
  end.

Definition _predict_proba (self : ContractableBOSS) (X : ndarray3)
    : result (list (list npfloat)) :=
  let sums :=
    repeat (repeat 0%Q (n_classes self)) (length (instances X)) in
  let* sums' := proba_outer self (instances X) 0 (classifiers self) sums in
  Ok (map (map (fun x => np_div x (weight_sum self))) sums').

(** ** [_predict] *)

(** [np.maximum] on two floats: [nan] propagates. *)
Definition np_maximum (a b : npfloat) : npfloat :=
  match a, b with
  | NaN, _ | _, NaN => NaN
  | PosInf, _ | _, PosInf => PosInf
  | NegInf, x | x, NegInf => x
  | Fin p, Fin q => if Qle_bool p q then Fin q else Fin p
  end.

(** [prob.max()]: a zero-size array has no maximum. *)
Definition np_max (prob : list npfloat) : result npfloat :=
  match prob with
  | [] => Raise ValueError
  | x :: rest => Ok (fold_left np_maximum rest x)
  end.

(** IEEE equality: [nan] equals nothing. *)
Definition np_eqb (a b : npfloat) : bool :=
  match a, b with
  | Fin p, Fin q => Qeq_bool p q
  | PosInf, PosInf | NegInf, NegInf => true
  | _, _ => false
  end.

(** [np.flatnonzero(mask)]. *)
Fixpoint flatnonzero_from (k : nat) (mask : list bool) : list nat :=
  match mask with
  | [] => []
  | b :: rest =>
      if b then k :: flatnonzero_from (S k) rest
      else flatnonzero_from (S k) rest
  end.

Definition flatnonzero (mask : list bool) : list nat :=
  flatnonzero_from 0 mask.

(** The list comprehension of [_predict], threading the generator. *)
Fixpoint predict_rows (self : ContractableBOSS) (r : RandomState)
    (probs : list (list npfloat)) : result (list label) :=
  match probs with
  | [] => Ok []
  | prob :: rest =>
      let* m := np_max prob in
      let '(pick, r') :=
        choice_of r (flatnonzero (map (fun p => np_eqb p m) prob)) in
      let* k := pick in
      let* c := of_option IndexError (classes_ self !! k) in
      let* cs := predict_rows self r' rest in
      Ok (c :: cs)
  end.

(** The public [predict_proba] of the base classifier, which line 288
    calls: it checks its argument and then calls [_predict_proba].  It is
    defined outside this file. *)
Variable predict_proba :
  ContractableBOSS -> ndarray3 -> result (list (list npfloat)).

Definition _predict (self : ContractableBOSS) (X : ndarray3)
    : result (list label) :=
  let r := check_random_state (random_state self) in
  let* probs := predict_proba self X in
  predict_rows self r probs.

(** ** [_get_train_probs] *)

(** [np.where(a == i)[0]], first entry: the first position of [i]. *)
Fixpoint first_position_from (k : nat) (i : nat) (a : list nat)
    : option nat :=
  match a with
  | [] => None
  | x :: rest =>
      if Nat.eqb x i then Some k else first_position_from (S k) i rest
  end.

Definition first_position (i : nat) (a : list nat) : option nat :=
  first_position_from 0 i a.

(** The list [clf_idx] of pairs [n, position of i in the subsample of
    classifier n]. *)
Fixpoint clf_idx_from (n : nat) (i : nat) (clfs : list IndividualBOSS)
    : list (nat * nat) :=
  match clfs with
  | [] => []
  | clf :: rest =>
      match first_position i (subsample clf) with
      | Some pos => (n, pos) :: clf_idx_from (S n) i rest
      | None => clf_idx_from (S n) i rest
      end
  end.

Definition clf_idx_of (self : ContractableBOSS) (i : nat)
    : list (nat * nat) :=
  clf_idx_from 0 i (classifiers self).

(** [sums[k] += w] on a vector, for a Python index [k]. *)
Definition add_at1 (sums : list Q) (k : Z) (w : Q) : result (list Q) :=
  match py_index sums k with
  | None => Raise IndexError
  | Some j =>
      match sums !! j with
      | None => Raise IndexError
      | Some x => Ok (<[j := (x + w)%Q]> sums)
      end
  end.

(** [self.class_dictionary.get(pred, -1)]. *)
Definition class_index_or_last (self : ContractableBOSS) (pred : label)
    : Z :=
  match class_dictionary self !! pred with
  | Some k => Z.of_nat k
  | None => -1
  end.

(** The loop [for n, pred in enumerate(preds)] over [clf_idx] and the
    predictions, carrying [(sums, divisor)]. *)
Fixpoint train_probs_acc (self : ContractableBOSS)
    (entries : list ((nat * nat) * label)) (sums : list Q) (divisor : Q)
    : result (list Q * Q) :=
  match entries with
  | [] => Ok (sums, divisor)
  | ((n, _), pred) :: rest =>
      let* w := of_option IndexError (weights self !! n) in
      let* sums' := add_at1 sums (class_index_or_last self pred) w in
      let* w' := of_option IndexError (weights self !! n) in
      train_probs_acc self rest sums' (divisor + w')%Q
  end.

(** One pass of the loop [for i in range(num_inst)]: the row
    [results[i]].  [Parallel(n_jobs=self.n_jobs)] at line 349 raises
    [ValueError] when [n_jobs] is 0. *)
Definition train_probs_row (self : ContractableBOSS) (i : nat)
    : result (list npfloat) :=
  let clf_idx := clf_idx_of self i in
  let* preds :=
    if n_jobs self =? 0 then Raise ValueError
    else
      of_option IndexError
        (mapM (fun cls : nat * nat =>
                 clf ← classifiers self !! cls.1;
                 Some (_train_predict clf cls.2))
              clf_idx) in
  let* (sums, divisor) :=
    train_probs_acc self (zip clf_idx preds)
      (repeat 0%Q (n_classes self)) 0%Q in
  if Qeq_bool divisor 0 then
    if Nat.eqb (n_classes self) 0 then Raise ZeroDivisionError
    else
      Ok (repeat (Fin (1 * (1 / inject_Z (Z.of_nat (n_classes self)))))
            (n_classes self))
  else Ok (map (fun x => np_div x divisor) sums).

Fixpoint train_probs_rows (self : ContractableBOSS) (idxs : list nat)
    : result (list (list npfloat)) :=
  match idxs with
  | [] => Ok []
  | i :: rest =>
      let* row := train_probs_row self i in
      let* rows := train_probs_rows self rest in
      Ok (row :: rows)
  end.

Definition _get_train_probs (self : ContractableBOSS) (X : ndarray3)
    : result (list (list npfloat)) :=
  train_probs_rows self (seq 0 (length (instances X))).

End Search.

End BaseLearner.

Arguments window_size {series} i.
Arguments word_length {series} i.
Arguments norm {series} i.
Arguments subsample {series} i.
Arguments accuracy {series} i.
Arguments _train_predict {series} i _.
Arguments predict1 {series} i _.
Arguments with_accuracy {series} b acc.
Arguments train_acc_loop_seq {series} boss y train_size required_correct idxs correct.
Arguments _individual_train_acc_traced {series} n_jobs boss y train_size lowest_acc.
Arguments _individual_train_acc {series} n_jobs boss y train_size lowest_acc.
Arguments n_parameter_samples {series} c.
Arguments max_ensemble_size {series} c.
Arguments max_win_len_prop {series} c.
Arguments time_limit_in_minutes {series} c.
Arguments n_jobs {series} c.
Arguments random_state {series} c.
Arguments classifiers {series} c.
Arguments weights {series} c.
Arguments weight_sum {series} c.
Arguments n_classes {series} c.
Arguments classes_ {series} c.
Arguments class_dictionary {series} c.
Arguments n_estimators {series} c.
Arguments series_length {series} c.
Arguments n_instances {series} c.
Arguments word_lengths {series} c.
Arguments norm_options {series} c.
Arguments min_window {series} c.
Arguments alphabet_size {series} c.
Arguments instances {series} n.
Arguments shape2 {series} n.
Arguments _unique_parameters {series} self max_window win_inc.
Arguments worst_scan {series} cs c min_acc min_acc_idx.
Arguments _worst_ensemble_acc {series} cs.
Arguments retain {series} max_size num boss weight cs ws low low_idx.
Arguments possible_parameters {series RandomState} s.
Arguments num_classifiers {series RandomState} s.
Arguments train_time {series RandomState} s.
Arguments lowest_acc {series RandomState} s.
Arguments lowest_acc_idx {series RandomState} s.
Arguments rng {series RandomState} s.
Arguments st_classifiers {series RandomState} s.
Arguments st_weights {series RandomState} s.
Arguments continue {series RandomState} self time_limit st.
Arguments search_step {series} fit_boss {RandomState} randint choice clock self X y subsample_size st.
Arguments search_loop {series} fit_boss {RandomState} randint choice clock fuel self time_limit X y subsample_size st.
Arguments parameter_grid {series} self X.
Arguments _fit {series} fit_boss {RandomState} check_random_state randint choice clock self X y.
Arguments proba_inner {series} self preds n idxs sums.
Arguments proba_outer {series} self X n clfs sums.
Arguments _predict_proba {series} self X.
Arguments predict_rows {series RandomState} choice_of self r probs.
Arguments _predict {series RandomState} check_random_state choice_of predict_proba self X.
Arguments clf_idx_from {series} n i clfs.
Arguments clf_idx_of {series} self i.
Arguments class_index_or_last {series} self pred.
Arguments train_probs_acc {series} self entries sums divisor.
Arguments train_probs_row {series} self i.
Arguments train_probs_rows {series} self idxs.
Arguments _get_train_probs {series} self X.

(** ** Reference notions for the accuracy estimator *)

(** Whether the leave-one-out prediction of instance [j] matches its
    label. *)
Definition hit {series} (boss : IndividualBOSS series) (y : list label)
    (j : nat) : bool :=
  match y !! j with
  | Some yj => label_eqb (_train_predict boss j) yj
  | None => false
  end.

(** The number of matches among instances [0 .. i-1]. *)
Fixpoint correct_upto {series} (boss : IndividualBOSS series)
    (y : list label) (i : nat) : Z :=
  match i with
  | O => 0
  | S k => correct_upto boss y k + (if hit boss y k then 1 else 0)
  end.

(** The abandonment inequality before instance [i], with the threshold
    [floor(lowestAcc * S)]. *)
Definition abandons_at {series} (boss : IndividualBOSS series)
    (y : list label) (S : nat) (lowest_acc : Q) (i : nat) : Prop :=
  correct_upto boss y i + (Z.of_nat S - Z.of_nat i)
  < Qfloor (lowest_acc * inject_Z (Z.of_nat S)).

(** The same inequality with the threshold that line 370 computes. *)
Definition abandons_before {series} (boss : IndividualBOSS series)
    (y : list label) (S : nat) (lowest_acc : Q) (i : nat) : Prop :=
  correct_upto boss y i + (Z.of_nat S - Z.of_nat i)
  < required_correct_of lowest_acc S.

(** ** Example data

    A small world on which the model runs: series are numbers and every
    label of a subsample is 1. *)

(** A learner whose leave-one-out prediction is right on the first
    [right] instances of its subsample of five. *)

Definition toy_boss (right : nat) : IndividualBOSS nat :=
  {| window_size := 10; word_length := 16; norm := true;
     subsample := [0; 1; 2; 3; 4]%nat; accuracy := 0;
     _train_predict := fun i => if (i <? right)%nat then 1 else 0;
     predict1 := fun _ => 1 |}.

Definition toy_y : list label := [1; 1; 1; 1; 1].

(** A learner over a subsample of 22 instances whose leave-one-out
    prediction is wrong on the first [wrong] instances and right on the
    others. *)
Definition late_boss (wrong : nat) : IndividualBOSS nat :=
  {| window_size := 10; word_length := 16; norm := true;
     subsample := seq 0 22; accuracy := 0;
     _train_predict := fun i => if (i <? wrong)%nat then 0 else 1;
     predict1 := fun _ => 1 |}.

Definition late_y : list label := repeat 1 22%nat.

(** A learner whose leave-one-out prediction is wrong on the first
    instance only, for label vectors of ones of any length. *)
Definition first_wrong_boss : IndividualBOSS nat :=
  {| window_size := 10; word_length := 16; norm := true;
     subsample := []; accuracy := 0;
     _train_predict := fun i => if (i =? 0)%nat then 0 else 1;
     predict1 := fun _ => 1 |}.

(** ** Reference notions for the ensemble *)

(** [low] is the least accuracy in [cs] and [k] is the first position
    that attains it. *)
Definition first_min_at {series} (cs : list (IndividualBOSS series))
    (low : Q) (k : nat) : Prop :=
  (exists b, cs !! k = Some b /\ (accuracy b == low)%Q)
  /\ (forall j b, cs !! j = Some b -> (low <= accuracy b)%Q)
  /\ (forall j b, (j < k)%nat -> cs !! j = Some b -> (low < accuracy b)%Q).

(** What [(lowest_acc, lowest_acc_idx)] records about the members: [low]
    is below every retained accuracy and at most 1; below 1 it is attained
    first at position [idx]. *)
Definition tracked {series} (cs : list (IndividualBOSS series))
    (low : Q) (idx : Z) : Prop :=
  (forall j b, cs !! j = Some b -> (low <= accuracy b)%Q)
  /\ ((low < 1)%Q /\ (exists k, idx = Z.of_nat k /\ first_min_at cs low k)
      \/ (low == 1)%Q).

(** The toy base learner: the number of instances it gets right depends
    on the word length of the candidate. *)
Definition toy_hits (word_len : Z) : nat :=
  if word_len =? 16 then 3%nat
  else if word_len =? 14 then 4%nat
  else if word_len =? 12 then 5%nat
  else 1%nat.

Definition toy_fit_boss (win_size word_len : Z) (normalise : bool)
    (alphabet seed : Z) (Xs : list nat) (ys : list label)
    : (nat -> label) * (nat -> label) :=
  (fun i => if (i <? toy_hits word_len)%nat then 1 else 0, fun _ => 1).

(** The toy generator: a counter; it draws the lowest value, the first
    [k] indices, and the first element of an array. *)
Definition toy_check_random_state (seed : Z) : nat := Z.to_nat seed.

Definition toy_randint (r : nat) (low high : Z) : Z * nat := (low, S r).

Definition toy_choice (r : nat) (n k : nat) : list nat * nat :=
  (seq 0 k, S r).

Definition toy_choice_of (r : nat) (a : list nat) : result nat * nat :=
  (match a with
   | [] => Raise ValueError
   | x :: _ => Ok x
   end, S r).

(** Eight training series of length 24; the first five share label 1. *)
Definition toy_X : ndarray3 nat :=
  {| instances := seq 0 8; shape2 := 24 |}.

Definition toy_labels : list label := [1; 1; 1; 1; 1; 0; 0; 0].

(** The public [predict_proba] of the example world: it rejects an empty
    array and passes any other on to [_predict_proba]. *)
Definition toy_predict_proba (self : ContractableBOSS nat)
    (X : ndarray3 nat) : result (list (list npfloat)) :=
  match instances X with
  | [] => Raise ValueError
  | _ :: _ => _predict_proba self X
  end.

(** A clock on which every candidate takes one second, and one on which
    every candidate takes a hundred. *)
Definition fast_clock (k : Z) : Q := inject_Z k.

Definition slow_clock (k : Z) : Q := inject_Z (100 * k).

Definition toy_fit (clock : Z -> Q) (self : ContractableBOSS nat)
    : list parameters * result (ContractableBOSS nat) :=
  _fit toy_fit_boss toy_check_random_state toy_randint toy_choice clock
    self toy_X toy_labels.

(** A scored toy member: [right] of the five instances predicted
    correctly. *)
Definition toy_member (right : nat) : IndividualBOSS nat :=
  with_accuracy (toy_boss right) (inject_Z (Z.of_nat right) / 5).

(** What the loop of [_fit] maintains about the ensemble [(cs, ws)] and
    the bookkeeping [(low, idx)] after [num] candidates. *)
Definition ensemble_inv {series} (max_size num : Z)
    (cs : list (IndividualBOSS series)) (ws : list Q) (low : Q) (idx : Z)
    : Prop :=
  Forall2 (fun b w => w = weight_of (accuracy b)) cs ws
  /\ (forall j b, cs !! j = Some b -> (0 <= accuracy b <= 1)%Q)
  /\ tracked cs low idx
  /\ (0 <= low)%Q
  /\ 0 <= num
  /\ (num <= max_size -> Z.of_nat (length cs) = num).

(** The ensemble invariant on a state of the search loop. *)
Definition state_inv {series RandomState} (self : ContractableBOSS series)
    (st : search_state series RandomState) : Prop :=
  ensemble_inv (max_ensemble_size self) (num_classifiers st)
    (st_classifiers st) (st_weights st) (lowest_acc st) (lowest_acc_idx st).

(** The configurations of the example runs. *)
Definition toy_config : ContractableBOSS nat := init nat 3 2 1 10 0 1 0.

(** A row of finite non-negative numbers that sum to 1. *)
Definition is_distribution (row : list npfloat) : Prop :=
  exists qs : list Q,
    row = map Fin qs /\ Forall (fun q => (0 <= q)%Q) qs /\ (np_sum qs == 1)%Q.

(** [train_time] as the loop condition sees it after [k] candidates: 0
    before the first pass, the clock reading afterwards. *)
Definition elapsed (clock : Z -> Q) (k : Z) : Q :=
  if k =? 0 then 0%Q else clock k.

(** Two loop states that differ at most in [train_time], and agree on
    whether it is below the time limit. *)
Definition same_but_time {series RandomState} (time_limit : Q)
    (s1 s2 : search_state series RandomState) : Prop :=
  possible_parameters s1 = possible_parameters s2
  /\ 0 <= num_classifiers s1
  /\ num_classifiers s1 = num_classifiers s2
  /\ Qlt_bool (train_time s1) time_limit = Qlt_bool (train_time s2) time_limit
  /\ lowest_acc s1 = lowest_acc s2
  /\ lowest_acc_idx s1 = lowest_acc_idx s2
  /\ rng s1 = rng s2
  /\ st_classifiers s1 = st_classifiers s2
  /\ st_weights s1 = st_weights s2.

(** Two clocks agree on every check of the time budget: after any
    number of candidates, both are below the limit or neither is. *)
Definition agree_on_budget (clock1 clock2 : Z -> Q) (time_limit : Q) : Prop :=
  forall k, 0 < k ->
    Qlt_bool (clock1 k) time_limit = Qlt_bool (clock2 k) time_limit.

(** A configuration with a one-minute time budget and the default
    candidate target. *)
Definition toy_timed_config : ContractableBOSS nat :=
  init nat 250 50 1 10 1 1 0.

(** ** Reference notions for the aggregation *)

(** The weight that members [clfs], with weights [ws], put on class [k]
    for the series [x], on top of [acc]: each member adds its weight when
    the class of its prediction is [k]. *)
Fixpoint bucket_from {series} (self : ContractableBOSS series) (x : series)
    (k : nat) (clfs : list (IndividualBOSS series)) (ws : list Q) (acc : Q)
    : Q :=
  match clfs, ws with
  | clf :: clfs', w :: ws' =>
      bucket_from self x k clfs' ws'
        (if decide (class_dictionary self !! predict1 clf x = Some k)
         then (acc + w)%Q else acc)
  | _, _ => acc
  end.

(** The score of class [k] for [x]: the per-class accumulation of the
    retained members' weights. *)
Definition class_bucket {series} (self : ContractableBOSS series)
    (x : series) (k : nat) : Q :=
  bucket_from self x k (classifiers self) (weights self) 0.

(** One member's vote on the row of sums of one series. *)
Definition row_vote {series} (self : ContractableBOSS series)
    (clf : IndividualBOSS series) (w : Q) (x : series) (r : list Q)
    : list Q :=
  match class_dictionary self !! predict1 clf x with
  | Some k =>
      match r !! k with
      | Some v => <[k := (v + w)%Q]> r
      | None => r
      end
  | None => r
  end.

(** The row of sums of [x] after the votes of [clfs]. *)
Fixpoint row_after {series} (self : ContractableBOSS series) (x : series)
    (clfs : list (IndividualBOSS series)) (ws : list Q) (r : list Q)
    : list Q :=
  match clfs, ws with
  | clf :: clfs', w :: ws' =>
      row_after self x clfs' ws' (row_vote self clf w x r)
  | _, _ => r
  end.

(** The matrix of sums after the votes of [clfs] on every series. *)
Fixpoint rows_after {series} (self : ContractableBOSS series)
    (X : list series) (clfs : list (IndividualBOSS series)) (ws : list Q)
    (sums : list (list Q)) : list (list Q) :=
  match clfs, ws with
  | clf :: clfs', w :: ws' =>
      rows_after self X clfs' ws' (zip_with (row_vote self clf w) X sums)
  | _, _ => sums
  end.

(** Every prediction of [clf] on the series of [X] is a known label
    whose class index is in range. *)
Definition votes_in_range {series} (self : ContractableBOSS series)
    (X : list series) (clf : IndividualBOSS series) : Prop :=
  forall x, In x X ->
    exists k, class_dictionary self !! predict1 clf x = Some k
              /\ (k < n_classes self)%nat.

(** The class that [_get_train_probs] credits for a prediction: its
    class index, and the last class for a label outside the dictionary
    ([class_dictionary.get(pred, -1)]). *)
Definition oob_class {series} (self : ContractableBOSS series)
    (pred : label) : nat :=
  match class_dictionary self !! pred with
  | Some k => k
  | None => (n_classes self - 1)%nat
  end.

(** The weight that the members whose subsample contains instance [i]
    put on class [k], on top of [acc]: each adds its weight when the class
    of its leave-one-out prediction for [i] is [k]. *)
Fixpoint oob_bucket_from {series} (self : ContractableBOSS series)
    (i k : nat) (clfs : list (IndividualBOSS series)) (ws : list Q)
    (acc : Q) : Q :=
  match clfs, ws with
  | clf :: clfs', w :: ws' =>
      oob_bucket_from self i k clfs' ws'
        (match first_position i (subsample clf) with
         | Some pos =>
             if decide (oob_class self (_train_predict clf pos) = k)
             then (acc + w)%Q else acc
         | None => acc
         end)
  | _, _ => acc
  end.

Definition oob_bucket {series} (self : ContractableBOSS series)
    (i k : nat) : Q :=
  oob_bucket_from self i k (classifiers self) (weights self) 0.

(** The sum of the weights of the members whose subsample contains
    instance [i], on top of [acc]. *)
Fixpoint oob_weight_from {series} (i : nat)
    (clfs : list (IndividualBOSS series)) (ws : list Q) (acc : Q) : Q :=
  match clfs, ws with
  | clf :: clfs', w :: ws' =>
      oob_weight_from i clfs' ws'
        (match first_position i (subsample clf) with
         | Some _ => (acc + w)%Q
         | None => acc
         end)
  | _, _ => acc
  end.

Definition oob_weight {series} (self : ContractableBOSS series) (i : nat)
    : Q :=
  oob_weight_from i (classifiers self) (weights self) 0.

(** The pairs [clf_idx] with the predictions [preds], for the members
    [clfs] numbered from [n0]. *)
Fixpoint oob_entries {series} (n0 i : nat)
    (clfs : list (IndividualBOSS series)) : list ((nat * nat) * label) :=
  match clfs with
  | [] => []
  | clf :: clfs' =>
      match first_position i (subsample clf) with
      | Some pos =>
          ((n0, pos), _train_predict clf pos) :: oob_entries (S n0) i clfs'
      | None => oob_entries (S n0) i clfs'
      end
  end.

(** The vector of sums of instance [i] after the votes of [clfs]. *)
Fixpoint oob_row_after {series} (self : ContractableBOSS series) (i : nat)
    (clfs : list (IndividualBOSS series)) (ws : list Q) (r : list Q)
    : list Q :=
  match clfs, ws with
  | clf :: clfs', w :: ws' =>
      oob_row_after self i clfs' ws'
        (match first_position i (subsample clf) with
         | Some pos =>
             let k := oob_class self (_train_predict clf pos) in
             match r !! k with
             | Some v => <[k := (v + w)%Q]> r
             | None => r
             end
         | None => r
         end)
  | _, _ => r
  end.

(** Every class index of the dictionary is below [n_classes]. *)
Definition dictionary_in_range {series} (self : ContractableBOSS series)
    : Prop :=
  forall l k, class_dictionary self !! l = Some k -> (k < n_classes self)%nat.

(** The training-probability row of instance [i]: uniform when the
    weights of the members containing [i] sum to zero, and otherwise the
    buckets divided by that sum. *)
Definition oob_row {series} (self : ContractableBOSS series) (i : nat)
    : list npfloat :=
  if Qeq_bool (oob_weight self i) 0 then
    repeat (Fin (1 * (1 / inject_Z (Z.of_nat (n_classes self)))))
      (n_classes self)
  else
    map (fun k => Fin (oob_bucket self i k / oob_weight self i))
      (seq 0 (n_classes self)).

(** ** Reference notions for the search

    A member [b] was trained in a fit that tried the candidates [tr] on
    the training data [(X, y)]: it carries the parameters of one of them,
    and its subsample addresses training instances and labels. *)
Definition trained_in {series} (X : ndarray3 series) (y : list label)
    (tr : list parameters) (b : IndividualBOSS series) : Prop :=
  In (window_size b, word_length b, norm b) tr
  /\ Forall (fun i => (i < length (instances X))%nat /\ (i < length y)%nat)
       (subsample b).

(** ** More example data *)

(** A training array without a time axis, and one with a single
    instance. *)
Definition toy_X_empty_series : ndarray3 nat :=
  {| instances := seq 0 8; shape2 := 0 |}.

Definition toy_X_single : ndarray3 nat :=
  {| instances := [0%nat]; shape2 := 24 |}.

(** Eight series of length 90, and eight of length 10. *)
Definition toy_X_long : ndarray3 nat :=
  {| instances := seq 0 8; shape2 := 90 |}.

Definition toy_X_short : ndarray3 nat :=
  {| instances := seq 0 8; shape2 := 10 |}.

(** ** Reference notions for prediction *)

(** A non-empty row of finite probabilities, one per class. *)
Definition finite_row {series} (self : ContractableBOSS series)
    (prob : list npfloat) : Prop :=
  exists qs, prob = map Fin qs /\ qs <> []
             /\ length qs = length (classes_ self).

(** A label vector that lacks the label the toy learners predict. *)
Definition toy_labels_zero : list label := [0; 0; 0; 0; 0; 0; 0; 0].

(** ** Reference notions for refitting *)

(** Two objects with the same configuration: they agree on every
    attribute that the constructor sets from its arguments or to a
    constant, and on the class dictionary. *)
Definition same_configuration {series} (a b : ContractableBOSS series)
    : Prop :=
  n_parameter_samples a = n_parameter_samples b
  /\ max_ensemble_size a = max_ensemble_size b
  /\ max_win_len_prop a = max_win_len_prop b
  /\ time_limit_in_minutes a = time_limit_in_minutes b
  /\ n_jobs a = n_jobs b
  /\ random_state a = random_state b
  /\ class_dictionary a = class_dictionary b
  /\ word_lengths a = word_lengths b
  /\ norm_options a = norm_options b
  /\ min_window a = min_window b
  /\ alphabet_size a = alphabet_size b.

(** The parameter triple of a member. *)
Definition parameters_of {series} (b : IndividualBOSS series) : parameters :=
  (window_size b, word_length b, norm b).

(** A member of a previous ensemble, for the examples. *)
Definition toy_stale_config : ContractableBOSS nat :=
  {| n_parameter_samples := 3; max_ensemble_size := 2;
     max_win_len_prop := 1; time_limit_in_minutes := 0; n_jobs := 1;
     random_state := 0; classifiers := [toy_member 1];
     weights := [1 # 625]; weight_sum := 1 # 625; n_classes := 7;
     classes_ := [5]; class_dictionary := ∅; n_estimators := 1;
     series_length := 3; n_instances := 2;
     word_lengths := [16; 14; 12; 10; 8]; norm_options := [true; false];
     min_window := 10; alphabet_size := 4 |}.

(** A configuration whose ensemble holds one member, and a state of its
    search in which that member is the three-in-five learner. *)
Definition toy_single_config : ContractableBOSS nat := init nat 3 1 1 10 0 1 0.

Definition toy_full_state : search_state nat nat :=
  {| possible_parameters := parameter_grid toy_single_config toy_X;
     num_classifiers := 1;
     train_time := 1;
     lowest_acc := 3 # 5;
     lowest_acc_idx := 0;
     rng := 1%nat;
     st_classifiers := [toy_member 3];
     st_weights := [weight_of (accuracy (toy_member 3))] |}.

(** * Properties *)

(** ** Arithmetic of [int] and the boolean comparisons *)

Lemma Qlt_bool_iff (a b : Q) : Qlt_bool a b = true <-> (a < b)%Q.
Proof.
  unfold Qlt_bool. rewrite negb_true_iff.
  split.
  - intros H. apply Qnot_le_lt. intros Hle.
    apply Qle_bool_iff in Hle. congruence.
  - intros H. destruct (Qle_bool b a) eqn:E; [|reflexivity].
    apply Qle_bool_iff in E. exfalso. eapply Qlt_not_le; eauto.
Qed.

Lemma Qlt_bool_false_iff (a b : Q) : Qlt_bool a b = false <-> (b <= a)%Q.
Proof.
  unfold Qlt_bool. rewrite negb_false_iff. apply Qle_bool_iff.
Qed.

Lemma py_int_nonneg (q : Q) : (0 <= q)%Q -> py_int q = Qfloor q.
Proof.
  destruct q as [n d]. unfold Qle, py_int, Qfloor. simpl. intros H.
  apply Z.quot_div_nonneg; lia.
Qed.

Lemma py_int_nonpos (q : Q) : (q <= 0)%Q -> py_int q <= 0.
Proof.
  destruct q as [n d]. unfold Qle, py_int. simpl. intros H.
  assert (E : 0 ÷ Z.pos d = 0) by (apply Z.quot_0_l; lia).
  rewrite <- E. apply Z.quot_le_mono; lia.
Qed.

(** ** Rounding to binary64 *)


Lemma pow2_pos (e : Z) : (0 < pow2 e)%Q.
Proof. apply Qpower_0_lt. reflexivity. Qed.

Lemma pow2_add (a b : Z) : (pow2 (a + b) == pow2 a * pow2 b)%Q.
Proof. apply Qpower_plus. intros H. discriminate H. Qed.

Lemma pow2_le (a b : Z) : a <= b -> (pow2 a <= pow2 b)%Q.
Proof. intros H. apply Qpower_le_compat_l; [exact H|]. discriminate. Qed.

Lemma pow2_le_inv (a b : Z) : (pow2 a <= pow2 b)%Q -> a <= b.
Proof. intros H. apply (Qpower_le_compat_l_inv 2); [exact H|reflexivity]. Qed.

Lemma pow2_succ (a : Z) : (pow2 (a + 1) == 2 * pow2 a)%Q.
Proof. rewrite pow2_add. change (pow2 1) with 2%Q. ring. Qed.

Lemma pow2_Z (n : Z) : 0 <= n -> (inject_Z (2 ^ n) == pow2 n)%Q.
Proof. intros H. now rewrite Zpower_Qpower. Qed.

Lemma Qlog2_floor_spec (x : Q) :
  (0 < x)%Q ->
  (pow2 (Qlog2_floor x) <= x)%Q /\ (x < pow2 (Qlog2_floor x + 1))%Q.
Proof.
  intros Hx. destruct x as [n d].
  assert (Hn : 0 < n) by (unfold Qlt in Hx; cbn in Hx; lia).
  unfold Qlog2_floor. cbn [Qnum Qden].
  destruct (Z.log2_spec n Hn) as [Ha1 Ha2].
  destruct (Z.log2_spec (Z.pos d) ltac:(lia)) as [Hb1 Hb2].
  pose proof (Z.log2_nonneg n) as Ha0.
  pose proof (Z.log2_nonneg (Z.pos d)) as Hb0.
  set (a := Z.log2 n) in *. set (b := Z.log2 (Z.pos d)) in *.
  pose proof (pow2_pos a) as HA. pose proof (pow2_pos b) as HB.
  pose proof (pow2_pos (a - b)) as HK.
  assert (EK : (pow2 a == pow2 (a - b) * pow2 b)%Q).
  { rewrite <- pow2_add. now replace (a - b + b) with a by lia. }
  assert (Ex : ((n # d) * inject_Z (Z.pos d) == inject_Z n)%Q).
  { rewrite (Qmake_Qdiv n d). field. discriminate. }
  assert (Hn1 : (pow2 a <= inject_Z n)%Q).
  { rewrite <- pow2_Z by assumption. now rewrite <- Zle_Qle. }
  assert (Hn2 : (inject_Z n < 2 * pow2 a)%Q).
  { rewrite <- pow2_succ, <- pow2_Z by lia. rewrite <- Zlt_Qlt.
    now replace (a + 1) with (Z.succ a) by lia. }
  assert (Hd1 : (pow2 b <= inject_Z (Z.pos d))%Q).
  { rewrite <- pow2_Z by assumption. now rewrite <- Zle_Qle. }
  assert (Hd2 : (inject_Z (Z.pos d) < 2 * pow2 b)%Q).
  { rewrite <- pow2_succ, <- pow2_Z by lia. rewrite <- Zlt_Qlt.
    now replace (b + 1) with (Z.succ b) by lia. }
  set (x := (n # d)%Q) in *. set (K := pow2 (a - b)) in *.
  set (A := pow2 a) in *. set (B := pow2 b) in *.
  set (D := inject_Z (Z.pos d)) in *. set (N := inject_Z n) in *.
  assert (Hup : (x < 2 * K)%Q).
  { apply (Qmult_lt_r _ _ B HB).
    apply Qle_lt_trans with (x * D)%Q.
    - apply Qmult_le_l; assumption.
    - rewrite Ex. rewrite <- Qmult_assoc, <- EK. exact Hn2. }
  assert (Hlow : (K < 2 * x)%Q).
  { apply (Qmult_lt_r _ _ B HB). rewrite <- EK.
    apply Qle_lt_trans with N; [exact Hn1|]. rewrite <- Ex.
    assert (Er1 : ((2 * x * B) == (x * (2 * B)))%Q) by ring.
    rewrite Er1. clear Er1.
    apply Qmult_lt_l; assumption. }
  destruct (Qle_bool K x) eqn:E.
  - apply Qle_bool_iff in E. split; [exact E|]. now rewrite pow2_succ.
  - assert (Hlt : (x < K)%Q).
    { apply Qnot_le_lt. intros H. apply Qle_bool_iff in H. congruence. }
    replace (a - b - 1 + 1) with (a - b) by lia. split; [|exact Hlt].
    assert (E2 : (K == 2 * pow2 (a - b - 1))%Q).
    { rewrite <- pow2_succ. unfold K.
      now replace (a - b - 1 + 1) with (a - b) by lia. }
    lra.
Qed.

Lemma Qlog2_floor_mono (x y : Q) :
  (0 < x)%Q -> (x <= y)%Q -> Qlog2_floor x <= Qlog2_floor y.
Proof.
  intros Hx Hxy.
  destruct (Qlog2_floor_spec x Hx) as [H1 _].
  destruct (Qlog2_floor_spec y ltac:(lra)) as [_ H2].
  assert (H : (pow2 (Qlog2_floor x) < pow2 (Qlog2_floor y + 1))%Q) by lra.
  apply (Qpower_lt_compat_l_inv 2) in H; [lia|reflexivity].
Qed.

Lemma round_half_even_bounds (t : Q) :
  (t - (1 # 2) <= inject_Z (round_half_even t) <= t + (1 # 2))%Q.
Proof.
  unfold round_half_even.
  pose proof (Qfloor_le t) as H1. pose proof (Qlt_floor t) as H2.
  rewrite inject_Z_plus in H2. change (inject_Z 1) with 1%Q in H2.
  destruct (Qcompare_spec (t - inject_Z (Qfloor t)) (1 # 2));
    [destruct (Z.even _)|..];
    rewrite ?inject_Z_plus; change (inject_Z 1) with 1%Q; lra.
Qed.

Lemma round_half_even_mono (t t' : Q) :
  (t <= t')%Q -> round_half_even t <= round_half_even t'.
Proof.
  intros H. pose proof (Qfloor_resp_le _ _ H) as Hf. unfold round_half_even.
  destruct (Z.eq_dec (Qfloor t) (Qfloor t')) as [E|NE].
  - rewrite <- E.
    destruct (Qcompare_spec (t - inject_Z (Qfloor t)) (1 # 2)),
             (Qcompare_spec (t' - inject_Z (Qfloor t)) (1 # 2));
      try destruct (Z.even _); try lia; exfalso; lra.
  - assert (Qfloor t + 1 <= Qfloor t') by lia.
    destruct (t - _ ?= _)%Q, (t' - _ ?= _)%Q;
      repeat destruct (Z.even _); lia.
Qed.

Lemma round_half_even_Z (t : Q) (z : Z) :
  (t == inject_Z z)%Q -> round_half_even t = z.
Proof.
  intros E. unfold round_half_even. rewrite (Qfloor_comp _ _ E), Qfloor_Z.
  destruct (Qcompare_spec (t - inject_Z z) (1 # 2));
    [exfalso; lra | reflexivity | exfalso; lra].
Qed.

Lemma scaled_range (x : Q) :
  (0 < x)%Q ->
  (pow2 52 <= x / pow2 (Qlog2_floor x - 52))%Q
  /\ (x / pow2 (Qlog2_floor x - 52) < pow2 53)%Q.
Proof.
  intros Hx. destruct (Qlog2_floor_spec x Hx) as [H1 H2].
  set (k := Qlog2_floor x) in *.
  pose proof (pow2_pos (k - 52)) as HE.
  split.
  - apply Qle_shift_div_l; [exact HE|]. rewrite <- pow2_add.
    now replace (52 + (k - 52)) with k by lia.
  - apply Qlt_shift_div_r; [exact HE|]. rewrite <- pow2_add.
    now replace (53 + (k - 52)) with (k + 1) by lia.
Qed.

Lemma pow2_52 : pow2 52 = 4503599627370496%Q.
Proof. reflexivity. Qed.

Lemma pow2_53 : pow2 53 = 9007199254740992%Q.
Proof. reflexivity. Qed.

Lemma round53_pos_bounds (x : Q) :
  (0 < x)%Q ->
  (x * (1 - u53) <= round53_pos x)%Q /\ (round53_pos x <= x * (1 + u53))%Q.
Proof.
  intros Hx. unfold round53_pos. cbv zeta.
  destruct (scaled_range x Hx) as [H1 _]. rewrite pow2_52 in H1.
  pose proof (pow2_pos (Qlog2_floor x - 52)) as HE.
  set (E := pow2 (Qlog2_floor x - 52)) in *.
  pose proof (round_half_even_bounds (x / E)) as [H3 H4].
  set (m := inject_Z (round_half_even (x / E))) in *.
  assert (Ex : (x == x / E * E)%Q) by (field; lra).
  set (t := (x / E)%Q) in *. unfold u53.
  split.
  - rewrite Ex at 1.
    assert (Er2 : ((t * E * (1 - (1 # 9007199254740992))) == (t * (1 - (1 # 9007199254740992)) * E))%Q) by ring.
    rewrite Er2. clear Er2.
    apply Qmult_le_r; [exact HE|]. lra.
  - rewrite Ex at 1.
    assert (Er3 : ((t * E * (1 + (1 # 9007199254740992))) == (t * (1 + (1 # 9007199254740992)) * E))%Q) by ring.
    rewrite Er3. clear Er3.
    apply Qmult_le_r; [exact HE|]. lra.
Qed.

Lemma round53_pos_mono (x y : Q) :
  (0 < x)%Q -> (x <= y)%Q -> (round53_pos x <= round53_pos y)%Q.
Proof.
  intros Hx Hxy. assert (Hy : (0 < y)%Q) by lra.
  pose proof (Qlog2_floor_mono x y Hx Hxy) as Hk.
  unfold round53_pos. cbv zeta.
  destruct (scaled_range x Hx) as [_ Hx2].
  destruct (scaled_range y Hy) as [Hy1 _].
  set (kx := Qlog2_floor x) in *. set (ky := Qlog2_floor y) in *.
  pose proof (pow2_pos (kx - 52)) as HEx.
  pose proof (pow2_pos (ky - 52)) as HEy.
  destruct (Z.eq_dec kx ky) as [E|NE].
  - rewrite <- E. apply Qmult_le_r; [exact HEx|]. rewrite <- Zle_Qle.
    apply round_half_even_mono. apply Qmult_le_r; [now apply Qinv_lt_0_compat|].
    exact Hxy.
  - assert (Hm1 : round_half_even (x / pow2 (kx - 52)) <= 2 ^ 53).
    { apply Z.le_trans with (round_half_even (inject_Z (2 ^ 53)));
        [|now rewrite (round_half_even_Z (inject_Z (2 ^ 53)) (2 ^ 53))].
      apply round_half_even_mono. rewrite pow2_53 in Hx2.
      change (inject_Z (2 ^ 53)) with 9007199254740992%Q. lra. }
    assert (Hm2 : 2 ^ 52 <= round_half_even (y / pow2 (ky - 52))).
    { apply Z.le_trans with (round_half_even (inject_Z (2 ^ 52)));
        [now rewrite (round_half_even_Z (inject_Z (2 ^ 52)) (2 ^ 52))|].
      apply round_half_even_mono. rewrite pow2_52 in Hy1. exact Hy1. }
    apply Qle_trans with (inject_Z (2 ^ 53) * pow2 (kx - 52))%Q.
    { apply Qmult_le_r; [exact HEx|]. now rewrite <- Zle_Qle. }
    apply Qle_trans with (inject_Z (2 ^ 52) * pow2 (ky - 52))%Q.
    2:{ apply Qmult_le_r; [exact HEy|]. now rewrite <- Zle_Qle. }
    change (inject_Z (2 ^ 53)) with (pow2 53).
    change (inject_Z (2 ^ 52)) with (pow2 52).
    rewrite <- !pow2_add. apply pow2_le. lia.
Qed.

Lemma py_float_pos (x : Q) : (0 < x)%Q -> py_float x = round53_pos x.
Proof.
  destruct x as [[|p|p] d]; intros H; try reflexivity;
    unfold Qlt in H; cbn in H; lia.
Qed.

Lemma py_float_zero (x : Q) : (x == 0)%Q -> py_float x = 0%Q.
Proof.
  destruct x as [[|p|p] d]; intros H; try reflexivity;
    unfold Qeq in H; cbn in H; lia.
Qed.

Lemma py_float_neg (x : Q) :
  (x < 0)%Q -> py_float x = (- round53_pos (- x))%Q.
Proof.
  destruct x as [[|p|p] d]; intros H; try reflexivity;
    unfold Qlt in H; cbn in H; lia.
Qed.

Lemma py_float_bounds (x : Q) :
  (0 < x)%Q ->
  (x * (1 - u53) <= py_float x)%Q /\ (py_float x <= x * (1 + u53))%Q.
Proof. intros H. rewrite (py_float_pos x H). now apply round53_pos_bounds. Qed.

Lemma py_float_positive (x : Q) : (0 < x)%Q -> (0 < py_float x)%Q.
Proof.
  intros H. destruct (py_float_bounds x H) as [H1 _]. unfold u53 in H1.
  assert (0 < x * (1 - (1 # 9007199254740992)))%Q; [|lra].
  apply Qmult_lt_0_compat; [exact H|reflexivity].
Qed.

Lemma py_float_mono (x y : Q) :
  (x <= y)%Q -> (py_float x <= py_float y)%Q.
Proof.
  intros Hxy.
  destruct (Q_dec x 0) as [[Hx|Hx]|Hx], (Q_dec y 0) as [[Hy|Hy]|Hy].
  - rewrite (py_float_neg x Hx), (py_float_neg y Hy).
    apply Qopp_le_compat. apply round53_pos_mono; lra.
  - pose proof (py_float_positive y Hy). rewrite (py_float_neg x Hx).
    pose proof (py_float_positive (- x) ltac:(lra)) as H1.
    rewrite (py_float_pos (- x)) in H1 by lra. lra.
  - rewrite (py_float_zero y Hy), (py_float_neg x Hx).
    pose proof (py_float_positive (- x) ltac:(lra)) as H1.
    rewrite (py_float_pos (- x)) in H1 by lra. lra.
  - lra.
  - rewrite (py_float_pos x Hx), (py_float_pos y Hy).
    now apply round53_pos_mono.
  - lra.
  - lra.
  - rewrite (py_float_zero x Hx). pose proof (py_float_positive y Hy). lra.
  - rewrite (py_float_zero x Hx), (py_float_zero y Hy). lra.
Qed.

Lemma py_float_nonneg (x : Q) : (0 <= x)%Q -> (0 <= py_float x)%Q.
Proof. intros H. apply (py_float_mono 0 x H). Qed.

Lemma py_float_nonpos (x : Q) : (x <= 0)%Q -> (py_float x <= 0)%Q.
Proof. intros H. apply (py_float_mono x 0 H). Qed.

Lemma py_float_Z (z : Z) :
  0 <= z <= 2 ^ 53 -> (py_float (inject_Z z) == inject_Z z)%Q.
Proof.
  intros [H0 H1]. destruct (Z.eq_dec z 0) as [->|Hz]; [reflexivity|].
  assert (Hx : (0 < inject_Z z)%Q).
  { change 0%Q with (inject_Z 0). rewrite <- Zlt_Qlt. lia. }
  rewrite (py_float_pos _ Hx). unfold round53_pos. cbv zeta.
  destruct (Qlog2_floor_spec _ Hx) as [Hk1 Hk2].
  set (k := Qlog2_floor (inject_Z z)) in *.
  assert (Hk : k <= 53).
  { apply pow2_le_inv. apply Qle_trans with (inject_Z z); [exact Hk1|].
    rewrite pow2_53. change 9007199254740992%Q with (inject_Z (2 ^ 53)).
    now rewrite <- Zle_Qle. }
  pose proof (pow2_pos (k - 52)) as HE.
  destruct (Z.eq_dec k 53) as [E|NE].
  - assert (Ez : z = 2 ^ 53).
    { rewrite E, pow2_53 in Hk1.
      change 9007199254740992%Q with (inject_Z (2 ^ 53)) in Hk1.
      rewrite <- Zle_Qle in Hk1. lia. }
    rewrite E, Ez. reflexivity.
  - assert (Hp : (pow2 (k - 52) * pow2 (52 - k) == 1)%Q).
    { rewrite <- pow2_add. now replace (k - 52 + (52 - k)) with 0 by lia. }
    assert (Et : (inject_Z z / pow2 (k - 52)
                  == inject_Z (z * 2 ^ (52 - k)))%Q).
    { rewrite inject_Z_mult, pow2_Z by lia.
      apply (Qmult_inj_r _ _ (pow2 (k - 52))); [lra|].
      assert (Er4 : ((inject_Z z * pow2 (52 - k) * pow2 (k - 52)) == (inject_Z z * (pow2 (k - 52) * pow2 (52 - k))))%Q) by ring.
    rewrite Er4. clear Er4.
      rewrite Hp. field. lra. }
    rewrite (round_half_even_Z _ _ Et), inject_Z_mult, pow2_Z by lia.
    assert (Er5 : ((inject_Z z * pow2 (52 - k) * pow2 (k - 52)) == (inject_Z z * (pow2 (k - 52) * pow2 (52 - k))))%Q) by ring.
    rewrite Er5. clear Er5.
    rewrite Hp. ring.
Qed.

Lemma py_int_lt_succ (q : Q) (c : Z) :
  0 <= c -> (q < inject_Z c + 1)%Q -> py_int q <= c.
Proof.
  intros Hc Hq. destruct (Qlt_le_dec q 0) as [Hneg|Hpos].
  - pose proof (py_int_nonpos q ltac:(lra)). lia.
  - rewrite py_int_nonneg by assumption.
    pose proof (Qfloor_le q) as Hfl.
    assert (H : (inject_Z (Qfloor q) < inject_Z (c + 1))%Q).
    { rewrite inject_Z_plus. change (inject_Z 1) with 1%Q. lra. }
    rewrite <- Zlt_Qlt in H. lia.
Qed.

Lemma py_int_gt_pred (q : Q) (c : Z) :
  (inject_Z c - 1 < q)%Q -> (0 <= q)%Q -> c - 1 <= py_int q.
Proof.
  intros Hq Hpos. rewrite py_int_nonneg by assumption.
  pose proof (Qlt_floor q) as Hfl.
  rewrite inject_Z_plus in Hfl. change (inject_Z 1) with 1%Q in Hfl.
  assert (H : (inject_Z c < inject_Z (Qfloor q + 2))%Q).
  { rewrite inject_Z_plus. change (inject_Z 2) with 2%Q. lra. }
  rewrite <- Zlt_Qlt in H. lia.
Qed.

Lemma required_correct_zero (S : nat) : required_correct_of 0 S = 0.
Proof. reflexivity. Qed.

Lemma required_correct_nonpos (low : Q) (S : nat) :
  (low <= 0)%Q -> required_correct_of low S <= 0.
Proof.
  intros H. unfold required_correct_of. apply py_int_nonpos.
  apply py_float_nonpos.
  pose proof (py_float_nonpos low H) as H1.
  pose proof (py_float_nonneg (inject_Z (Z.of_nat S))) as H2.
  assert (0 <= inject_Z (Z.of_nat S))%Q as H3.
  { change 0%Q with (inject_Z 0). rewrite <- Zle_Qle. lia. }
  specialize (H2 H3). nra.
Qed.

Lemma required_correct_below (low : Q) (S : nat) (c : Z) :
  (0 < S)%nat -> Z.of_nat S < 2 ^ 52 -> 0 <= c <= Z.of_nat S ->
  (low <= inject_Z c / inject_Z (Z.of_nat S))%Q ->
  required_correct_of low S <= c.
Proof.
  intros HS Hbig Hc Hlow. unfold required_correct_of.
  assert (Hs : (0 < inject_Z (Z.of_nat S))%Q).
  { change 0%Q with (inject_Z 0). rewrite <- Zlt_Qlt. lia. }
  pose proof (py_float_Z (Z.of_nat S) ltac:(lia)) as ES.
  set (s := inject_Z (Z.of_nat S)) in *.
  set (q := (inject_Z c / s)%Q) in *.
  assert (Hc52 : (inject_Z c <= 4503599627370495)%Q).
  { change 4503599627370495%Q with (inject_Z (2 ^ 52 - 1)).
    rewrite <- Zle_Qle. lia. }
  assert (Hc0 : (0 <= inject_Z c)%Q).
  { change 0%Q with (inject_Z 0). rewrite <- Zle_Qle. lia. }
  apply py_int_lt_succ; [lia|].
  apply Qle_lt_trans with (py_float (py_float q * py_float s)).
  { apply py_float_mono.
    pose proof (py_float_mono low q Hlow). pose proof (py_float_nonneg s).
    nra. }
  destruct (Z.eq_dec c 0) as [->|Hcz].
  - assert (Eq0 : (q == 0)%Q) by (unfold q; field; lra).
    rewrite (py_float_zero q Eq0).
    rewrite (py_float_zero (0 * py_float s)) by ring. reflexivity.
  - assert (Hc1 : (1 <= inject_Z c)%Q).
    { change 1%Q with (inject_Z 1). rewrite <- Zle_Qle. lia. }
    assert (Hq : (0 < q)%Q).
    { unfold q. apply Qlt_shift_div_l; [exact Hs|]. lra. }
    destruct (py_float_bounds q Hq) as [_ Hq2].
    pose proof (py_float_positive q Hq) as Hq3.
    assert (Eqs : (q * s == inject_Z c)%Q) by (unfold q; field; lra).
    assert (Hp : (0 < py_float q * py_float s)%Q).
    { rewrite ES. now apply Qmult_lt_0_compat. }
    destruct (py_float_bounds _ Hp) as [_ Hp2].
    assert (Hp3 : (py_float q * py_float s <= inject_Z c * (1 + u53))%Q).
    { rewrite ES, <- Eqs.
      assert (Er6 : ((q * s * (1 + u53)) == (q * (1 + u53) * s))%Q) by ring.
    rewrite Er6. clear Er6.
      apply Qmult_le_r; assumption. }
    unfold u53 in *.
    apply Qle_lt_trans with (1 := Hp2).
    apply Qle_lt_trans
      with (inject_Z c * (1 + (1 # 9007199254740992))
            * (1 + (1 # 9007199254740992)))%Q.
    { apply Qmult_le_r; [reflexivity|exact Hp3]. }
    lra.
Qed.

Lemma required_correct_above (low : Q) (S : nat) (c : Z) :
  (0 < S)%nat -> Z.of_nat S < 2 ^ 52 -> 0 <= c <= Z.of_nat S ->
  (inject_Z c / inject_Z (Z.of_nat S) <= low)%Q ->
  c - 1 <= required_correct_of low S.
Proof.
  intros HS Hbig Hc Hlow. unfold required_correct_of.
  assert (Hs : (0 < inject_Z (Z.of_nat S))%Q).
  { change 0%Q with (inject_Z 0). rewrite <- Zlt_Qlt. lia. }
  pose proof (py_float_Z (Z.of_nat S) ltac:(lia)) as ES.
  set (s := inject_Z (Z.of_nat S)) in *.
  set (q := (inject_Z c / s)%Q) in *.
  assert (Hc52 : (inject_Z c <= 4503599627370495)%Q).
  { change 4503599627370495%Q with (inject_Z (2 ^ 52 - 1)).
    rewrite <- Zle_Qle. lia. }
  assert (Hmono : (py_float (py_float q * py_float s)
                   <= py_float (py_float low * py_float s))%Q).
  { apply py_float_mono.
    pose proof (py_float_mono q low Hlow). pose proof (py_float_nonneg s).
    nra. }
  assert (H0 : (inject_Z c - 1 < py_float (py_float q * py_float s))%Q
               /\ (0 <= py_float (py_float q * py_float s))%Q).
  { destruct (Z.eq_dec c 0) as [Hcz|Hcz].
    - assert (Eq0 : (q == 0)%Q) by (unfold q; rewrite Hcz; field; lra).
      rewrite (py_float_zero q Eq0).
      rewrite (py_float_zero (0 * py_float s)) by ring. rewrite Hcz.
      split; [reflexivity|discriminate].
    - assert (Hc1 : (1 <= inject_Z c)%Q).
      { change 1%Q with (inject_Z 1). rewrite <- Zle_Qle. lia. }
      assert (Hq : (0 < q)%Q).
      { unfold q. apply Qlt_shift_div_l; [exact Hs|]. lra. }
      destruct (py_float_bounds q Hq) as [Hq2 _].
      pose proof (py_float_positive q Hq) as Hq3.
      assert (Eqs : (q * s == inject_Z c)%Q) by (unfold q; field; lra).
      assert (Hp : (0 < py_float q * py_float s)%Q).
      { rewrite ES. now apply Qmult_lt_0_compat. }
      destruct (py_float_bounds _ Hp) as [Hp2 _].
      pose proof (py_float_positive _ Hp) as Hp4.
      assert (Hp3 : (inject_Z c * (1 - u53) <= py_float q * py_float s)%Q).
      { rewrite ES, <- Eqs.
        assert (Er7 : ((q * s * (1 - u53)) == (q * (1 - u53) * s))%Q) by ring.
    rewrite Er7. clear Er7.
        apply Qmult_le_r; assumption. }
      unfold u53 in *. split; [|lra].
      apply Qlt_le_trans with (2 := Hp2).
      apply Qlt_le_trans
        with (inject_Z c * (1 - (1 # 9007199254740992))
              * (1 - (1 # 9007199254740992)))%Q.
      { lra. }
      apply Qmult_le_r; [reflexivity|exact Hp3]. }
  apply py_int_gt_pred; lra.
Qed.

Lemma max_window_unit (series_length : nat) :
  Z.of_nat series_length <= 2 ^ 53 ->
  max_window_of series_length 1 = Z.of_nat series_length.
Proof.
  intros H. unfold max_window_of.
  pose proof (py_float_Z (Z.of_nat series_length) ltac:(lia)) as E.
  assert (E1 : (py_float (inject_Z (Z.of_nat series_length)) * py_float 1
                == inject_Z (Z.of_nat series_length))%Q).
  { rewrite E. change (py_float 1) with (py_float (inject_Z 1)).
    rewrite (py_float_Z 1) by lia. change (inject_Z 1) with 1%Q. ring. }
  assert (E2 : (py_float (py_float (inject_Z (Z.of_nat series_length))
                          * py_float 1)
                == inject_Z (Z.of_nat series_length))%Q).
  { apply Qle_antisym.
    - rewrite <- E at 2. apply py_float_mono. rewrite E1. apply Qle_refl.
    - rewrite <- E at 1. apply py_float_mono. rewrite E1. apply Qle_refl. }
  assert (Hnn : (0 <= py_float (py_float (inject_Z (Z.of_nat series_length))
                                * py_float 1))%Q).
  { rewrite E2. change 0%Q with (inject_Z 0). rewrite <- Zle_Qle. lia. }
  rewrite py_int_nonneg by exact Hnn.
  rewrite (Qfloor_comp _ _ E2). apply Qfloor_Z.
Qed.

(** ** The sequential accuracy loop *)

Section TrainAccLoops.

Context {series : Type}.
Variable boss : IndividualBOSS series.
Variable y : list label.
Variable S : nat.
Variable R : Z.

Lemma correct_upto_nonneg (i : nat) : 0 <= correct_upto boss y i.
Proof. induction i as [|i IH]; simpl; [lia|]. destruct (hit boss y i); lia. Qed.

Lemma correct_upto_step (i : nat) (yi : label) :
  y !! i = Some yi ->
  (if label_eqb (_train_predict boss i) yi
   then correct_upto boss y i + 1 else correct_upto boss y i)
  = correct_upto boss y (Datatypes.S i).
Proof.
  intros Hy. simpl. unfold hit. rewrite Hy.
  destruct (label_eqb _ _); lia.
Qed.

Lemma seq_loop_completes (n i : nat) :
  (i + n <= length y)%nat ->
  (forall j, (i <= j < i + n)%nat ->
     (correct_upto boss y j + Z.of_nat S - Z.of_nat j <? R) = false) ->
  train_acc_loop_seq boss y (Z.of_nat S) R (seq i n) (correct_upto boss y i)
  = (seq i n, Ok (Completed (correct_upto boss y (i + n)))).
Proof.
  revert i. induction n as [|n IH]; intros i Hlen Hno.
  - simpl. now rewrite Nat.add_0_r.
  - simpl. rewrite (Hno i) by lia.
    destruct (y !! i) as [yi|] eqn:Hy.
    + rewrite (correct_upto_step i yi Hy).
      rewrite IH; [|lia|intros j Hj; apply Hno; lia].
      now replace (Datatypes.S i + n)%nat with (i + Datatypes.S n)%nat by lia.
    + apply lookup_ge_None in Hy. lia.
Qed.

Lemma seq_loop_abandons (n i k : nat) :
  (i <= k < i + n)%nat -> (k <= length y)%nat ->
  (correct_upto boss y k + Z.of_nat S - Z.of_nat k <? R) = true ->
  (forall j, (i <= j < k)%nat ->
     (correct_upto boss y j + Z.of_nat S - Z.of_nat j <? R) = false) ->
  train_acc_loop_seq boss y (Z.of_nat S) R (seq i n) (correct_upto boss y i)
  = (seq i (k - i), Ok (Returned (-1))).
Proof.
  revert i. induction n as [|n IH]; intros i Hk Hlen Hyes Hno; [lia|].
  simpl. destruct (Nat.eq_dec i k) as [->|Hne].
  - rewrite Hyes. now rewrite Nat.sub_diag.
  - rewrite (Hno i) by lia.
    destruct (y !! i) as [yi|] eqn:Hy.
    + rewrite (correct_upto_step i yi Hy).
      rewrite IH; [|lia|lia|assumption|intros j Hj; apply Hno; lia].
      replace (k - i)%nat with (Datatypes.S (k - Datatypes.S i)) by lia.
      reflexivity.
    + apply lookup_ge_None in Hy. lia.
Qed.

(** The list of predictions computed beforehand holds the prediction of
    every index of the range. *)
Lemma lookup_map_seq {A : Type} (f : nat -> A) (n s j : nat) :
  (j < n)%nat -> map f (seq s n) !! j = Some (f (s + j)%nat).
Proof.
  revert s j. induction n as [|n IH]; intros s j Hj; [lia|].
  destruct j as [|j]; simpl.
  - now rewrite Nat.add_0_r.
  - rewrite IH by lia. f_equal. f_equal. lia.
Qed.

(** The loop over precomputed predictions returns what the sequential
    loop returns. *)
Lemma par_loop_seq_loop (n i : nat) (correct : Z) :
  (i + n <= S)%nat ->
  train_acc_loop_par (map (_train_predict boss) (seq 0 S)) y (Z.of_nat S) R
    (seq i n) correct
  = snd (train_acc_loop_seq boss y (Z.of_nat S) R (seq i n) correct).
Proof.
  revert i correct. induction n as [|n IH]; intros i correct Hle;
    [reflexivity|].
  simpl. destruct (_ <? R); [reflexivity|].
  rewrite lookup_map_seq by lia. simpl.
  destruct (y !! i) as [yi|]; [|reflexivity].
  rewrite IH by lia.
  destruct (train_acc_loop_seq _ _ _ _ _ _). reflexivity.
Qed.

End TrainAccLoops.

(** ** The accuracy estimator *)

Lemma abandon_test_before {series} (boss : IndividualBOSS series)
    (y : list label) (S : nat) (lowest_acc : Q) (j : nat) :
  (correct_upto boss y j + Z.of_nat S - Z.of_nat j
     <? required_correct_of lowest_acc S) = true
  <-> abandons_before boss y S lowest_acc j.
Proof. unfold abandons_before. rewrite Z.ltb_lt. lia. Qed.

Lemma abandon_test_before_false {series} (boss : IndividualBOSS series)
    (y : list label) (S : nat) (lowest_acc : Q) (j : nat) :
  ~ abandons_before boss y S lowest_acc j ->
  (correct_upto boss y j + Z.of_nat S - Z.of_nat j
     <? required_correct_of lowest_acc S) = false.
Proof.
  intros Hno. destruct (_ <? _) eqn:E; [|reflexivity].
  exfalso. apply Hno. now apply abandon_test_before.
Qed.

(** C1, as the claim states it, fails: at [lowest_acc = 15/22] and
    [S = 22] the floor of the product is 15, and a learner that is wrong
    on the first 8 instances and right on the other 14 meets the
    abandonment inequality before instance 8 with that threshold; but
    line 370 rounds the float product to a number just below 15 and
    truncates it to 14, so the estimator evaluates all 22 instances and
    returns [14 / 22]. *)
Lemma floor_threshold_counterexample :
  Qfloor ((15 # 22) * inject_Z (Z.of_nat 22)) = 15
  /\ abandons_at (late_boss 8) late_y 22 (15 # 22) 8
  /\ (forall j, (j < 8)%nat -> ~ abandons_at (late_boss 8) late_y 22 (15 # 22) j)
  /\ required_correct_of (15 # 22) 22 = 14
  /\ _individual_train_acc_traced 1 (late_boss 8) late_y 22 (15 # 22)
     = (seq 0 22, Ok (inject_Z 14 / inject_Z 22)%Q)
  /\ _individual_train_acc_traced 1 (late_boss 8) late_y 22 (15 # 22)
     <> (seq 0 8, Ok (-1)%Q).
Proof.
  split; [reflexivity|]. split; [vm_compute; reflexivity|].
  split.
  { intros j Hj. unfold abandons_at.
    do 8 (destruct j as [|j]; [vm_compute; discriminate|]). lia. }
  split; [vm_compute; reflexivity|].
  split; [vm_compute; reflexivity|].
  vm_compute. discriminate.
Qed.

(** C1 (amended). Sequential leave-one-out accuracy estimation
    ([n_jobs <= 1]) over a subsample of size [S] with threshold
    [lowest_acc]: the required count is [int(lowest_acc * S)] computed on
    floats, which for a threshold [k / S] with [S < 2^52] is [k] or
    [k - 1]; the estimator returns the sentinel [-1] at the first
    instance [i] before which [correct + (S - i) < requiredCorrect] holds,
    having evaluated exactly the instances before [i]; and when no
    instance triggers the test it evaluates all [S] instances and returns
    [correct / S]. *)
Theorem individual_train_acc_sequential {series} (jobs : Z)
    (boss : IndividualBOSS series) (y : list label) (S : nat)
    (lowest_acc : Q) :
  jobs <= 1 -> length y = S ->
  (forall k : Z,
     (0 < S)%nat -> Z.of_nat S < 2 ^ 52 -> 0 <= k <= Z.of_nat S ->
     (lowest_acc == inject_Z k / inject_Z (Z.of_nat S))%Q ->
     Qfloor (lowest_acc * inject_Z (Z.of_nat S)) = k
     /\ k - 1 <= required_correct_of lowest_acc S <= k)
  /\ (forall i, (i < S)%nat ->
        abandons_before boss y S lowest_acc i ->
        (forall j, (j < i)%nat -> ~ abandons_before boss y S lowest_acc j) ->
        _individual_train_acc_traced jobs boss y S lowest_acc
        = (seq 0 i, Ok (-1)%Q))
  /\ ((0 < S)%nat ->
      (forall i, (i < S)%nat -> ~ abandons_before boss y S lowest_acc i) ->
      _individual_train_acc_traced jobs boss y S lowest_acc
      = (seq 0 S,
         Ok (inject_Z (correct_upto boss y S) / inject_Z (Z.of_nat S))%Q)).
Proof.
  intros Hjobs Hlen. split; [|split].
  - intros k HS Hbig Hk Hlow. split; [|split].
    + assert (Hs : (0 < inject_Z (Z.of_nat S))%Q).
      { change 0%Q with (inject_Z 0). rewrite <- Zlt_Qlt. lia. }
      assert (E : (lowest_acc * inject_Z (Z.of_nat S) == inject_Z k)%Q).
      { rewrite Hlow. field. lra. }
      rewrite (Qfloor_comp _ _ E). apply Qfloor_Z.
    + apply required_correct_above; try assumption. rewrite Hlow.
      apply Qle_refl.
    + apply required_correct_below; try assumption. rewrite Hlow.
      apply Qle_refl.
  - intros i Hi Hab Hfirst. unfold _individual_train_acc_traced.
    replace (1 <? jobs) with false by (symmetry; apply Z.ltb_ge; lia).
    change 0 with (correct_upto boss y 0).
    rewrite (seq_loop_abandons boss y S _ S 0 i); try lia.
    + now rewrite Nat.sub_0_r.
    + now apply abandon_test_before.
    + intros j Hj. apply abandon_test_before_false.
      apply Hfirst. lia.
  - intros HS Hno. unfold _individual_train_acc_traced.
    replace (1 <? jobs) with false by (symmetry; apply Z.ltb_ge; lia).
    change 0 with (correct_upto boss y 0).
    rewrite seq_loop_completes; try lia.
    + simpl. destruct S; [lia|]. reflexivity.
    + intros j Hj. apply abandon_test_before_false.
      apply Hno. lia.
Qed.

Lemma individual_train_acc_sequential_witness :
  1 <= 1 /\ length late_y = 22%nat
  /\ (15 - 1 <= required_correct_of (15 # 22) 22 <= 15)
  /\ (forall i, (i < 22)%nat ->
        ~ abandons_before (late_boss 8) late_y 22 (15 # 22) i)
  /\ _individual_train_acc_traced 1 (late_boss 8) late_y 22 (15 # 22)
     = (seq 0 22, Ok (inject_Z (correct_upto (late_boss 8) late_y 22)
                      / inject_Z (Z.of_nat 22))%Q).
Proof.
  assert (Hno : forall i, (i < 22)%nat ->
                  ~ abandons_before (late_boss 8) late_y 22 (15 # 22) i).
  { intros i Hi. unfold abandons_before.
    do 22 (destruct i as [|i]; [vm_compute; discriminate|]). lia. }
  destruct (individual_train_acc_sequential 1 (late_boss 8) late_y 22
              (15 # 22)) as (Hreq & _ & Hdone); [lia | reflexivity|].
  split; [lia|]. split; [reflexivity|].
  split.
  { apply (Hreq 15); [lia | vm_compute; reflexivity | lia | reflexivity]. }
  split; [exact Hno|]. apply Hdone; [lia | exact Hno].
Defined.

(** The sequential estimator abandons a learner that gets one instance
    of five right, against the threshold 0.8, before its fourth
    instance. *)
Example individual_train_acc_abandons :
  _individual_train_acc_traced 1 (toy_boss 1) toy_y 5 (4 # 5)
  = ([0; 1; 2]%nat, Ok (-1)%Q).
Proof. reflexivity. Qed.

(** C3. The parallel branch ([n_jobs > 1]) returns exactly what the
    sequential branch ([n_jobs <= 1]) returns: the same [-1] in the same
    cases and the same [correct / S] otherwise. *)
Theorem individual_train_acc_parallel_eq_sequential {series}
    (jobs_par jobs_seq : Z) (boss : IndividualBOSS series) (y : list label)
    (S : nat) (lowest_acc : Q) :
  1 < jobs_par -> jobs_seq <= 1 ->
  _individual_train_acc jobs_par boss y S lowest_acc
  = _individual_train_acc jobs_seq boss y S lowest_acc.
Proof.
  intros Hpar Hseq. unfold _individual_train_acc, _individual_train_acc_traced.
  replace (1 <? jobs_par) with true by (symmetry; apply Z.ltb_lt; lia).
  replace (1 <? jobs_seq) with false by (symmetry; apply Z.ltb_ge; lia).
  simpl. rewrite par_loop_seq_loop by lia.
  destruct (train_acc_loop_seq _ _ _ _ _ _). reflexivity.
Qed.

Lemma individual_train_acc_parallel_eq_sequential_witness :
  1 < 4 /\ 1 <= 1
  /\ _individual_train_acc 4 (toy_boss 3) toy_y 5 (4 # 5)
     = _individual_train_acc 1 (toy_boss 3) toy_y 5 (4 # 5).
Proof.
  split; [lia|]. split; [lia|].
  apply (individual_train_acc_parallel_eq_sequential 4 1); lia.
Defined.

(** ** Python indexing *)

Lemma py_index_nat {A : Type} (l : list A) (k : nat) :
  (k < length l)%nat -> py_index l (Z.of_nat k) = Some k.
Proof.
  intros H. unfold py_index.
  replace (0 <=? Z.of_nat k) with true by (symmetry; apply Z.leb_le; lia).
  replace (Z.of_nat k <? Z.of_nat (length l)) with true
    by (symmetry; apply Z.ltb_lt; lia).
  simpl. now rewrite Nat2Z.id.
Qed.

Lemma py_index_minus_one {A : Type} (l : list A) :
  l <> [] -> py_index l (-1) = Some (length l - 1)%nat.
Proof.
  intros H. destruct l as [|a l]; [congruence|].
  unfold py_index. cbn [length].
  replace (0 <=? -1) with false by reflexivity. cbn [andb].
  replace (- Z.of_nat (Datatypes.S (length l)) <=? -1) with true
    by (symmetry; apply Z.leb_le; lia).
  cbn. f_equal. lia.
Qed.

(** ** The scan for the worst member *)

Lemma worst_scan_spec {series} (cs : list (IndividualBOSS series)) :
  forall (c : Z) (m : Q) (p : Z),
    (worst_scan cs c m p = (m, p)
     /\ forall j b, cs !! j = Some b -> (m <= accuracy b)%Q)
    \/ (exists k b,
          cs !! k = Some b
          /\ worst_scan cs c m p = (accuracy b, c + Z.of_nat k)
          /\ (accuracy b < m)%Q
          /\ (forall j b', cs !! j = Some b' -> (accuracy b <= accuracy b')%Q)
          /\ (forall j b', (j < k)%nat -> cs !! j = Some b' ->
                (accuracy b < accuracy b')%Q)).
Proof.
  induction cs as [|x rest IH]; intros c m p.
  - left. split; [reflexivity|]. intros j b H. discriminate.
  - cbn [worst_scan]. destruct (Qlt_bool (accuracy x) m) eqn:E.
    + apply Qlt_bool_iff in E. right.
      destruct (IH (c + 1) (accuracy x) c)
        as [[Heq Hall] | (k & b & Hk & Heq & Hlt & Hall & Hfirst)].
      * exists 0%nat, x. rewrite Heq. repeat split.
        -- f_equal. lia.
        -- assumption.
        -- intros [|j] b' Hb'; cbn in Hb'.
           ++ injection Hb' as <-. apply Qle_refl.
           ++ eapply Hall; eassumption.
        -- intros j b' Hj. lia.
      * exists (Datatypes.S k), b. rewrite Heq. repeat split.
        -- assumption.
        -- f_equal. lia.
        -- lra.
        -- intros [|j] b' Hb'; cbn in Hb'.
           ++ injection Hb' as <-. lra.
           ++ eapply Hall; eassumption.
        -- intros [|j] b' Hj Hb'; cbn in Hb'.
           ++ injection Hb' as <-. assumption.
           ++ eapply Hfirst; [|eassumption]. lia.
    + apply Qlt_bool_false_iff in E.
      destruct (IH (c + 1) m p)
        as [[Heq Hall] | (k & b & Hk & Heq & Hlt & Hall & Hfirst)].
      * left. split; [assumption|].
        intros [|j] b' Hb'; cbn in Hb'.
        -- now injection Hb' as <-.
        -- eapply Hall; eassumption.
      * right. exists (Datatypes.S k), b. rewrite Heq. repeat split.
        -- assumption.
        -- f_equal. lia.
        -- assumption.
        -- intros [|j] b' Hb'; cbn in Hb'.
           ++ injection Hb' as <-. lra.
           ++ eapply Hall; eassumption.
        -- intros [|j] b' Hj Hb'; cbn in Hb'.
           ++ injection Hb' as <-. lra.
           ++ eapply Hfirst; [|eassumption]. lia.
Qed.

(** The scan reports the first member attaining the least accuracy when
    that accuracy is below 1, and [(1, -1)] when no member is below 1. *)
Lemma worst_ensemble_acc_spec {series} (cs : list (IndividualBOSS series)) :
  (_worst_ensemble_acc cs = (1%Q, -1)
   /\ forall j b, cs !! j = Some b -> (1 <= accuracy b)%Q)
  \/ (exists k low,
        _worst_ensemble_acc cs = (low, Z.of_nat k)
        /\ (low < 1)%Q /\ first_min_at cs low k).
Proof.
  unfold _worst_ensemble_acc.
  destruct (worst_scan_spec cs 0 1%Q (-1))
    as [[Heq Hall] | (k & b & Hk & Heq & Hlt & Hall & Hfirst)].
  - left. split; assumption.
  - right. exists k, (accuracy b). rewrite Heq. repeat split.
    + assumption.
    + exists b. split; [assumption|reflexivity].
    + assumption.
    + assumption.
Qed.

(** ** Retention in a full ensemble *)

Lemma first_min_at_lt {series} (cs : list (IndividualBOSS series))
    (low : Q) (k : nat) :
  first_min_at cs low k -> (k < length cs)%nat.
Proof.
  intros [(b & Hb & _) _]. eapply lookup_lt_Some. exact Hb.
Qed.

Lemma retain_replaces {series} (max_size num : Z)
    (boss : IndividualBOSS series) (cs : list (IndividualBOSS series))
    (ws : list Q) (low : Q) (idx : Z) :
  max_size <= num ->
  length ws = length cs ->
  tracked cs low idx ->
  (accuracy boss <= 1)%Q ->
  (low < accuracy boss)%Q ->
  exists k low' idx',
    idx = Z.of_nat k /\ first_min_at cs low k
    /\ retain max_size num boss (weight_of (accuracy boss)) cs ws low idx
       = Ok (<[k := boss]> cs, <[k := weight_of (accuracy boss)]> ws,
             low', idx')
    /\ _worst_ensemble_acc (<[k := boss]> cs) = (low', idx')
    /\ ((low' < 1)%Q
        /\ (exists k', idx' = Z.of_nat k'
                       /\ first_min_at (<[k := boss]> cs) low' k')
        \/ low' = 1%Q /\ idx' = -1
           /\ (forall j b, <[k := boss]> cs !! j = Some b ->
                 (1 <= accuracy b)%Q)).
Proof.
  intros Hfull Hlen Htr Hle1 Hgt.
  destruct Htr as [Hall [[Hlow (k & -> & Hmin)] | Hone]]; [|lra].
  pose proof (first_min_at_lt cs low k Hmin) as Hk.
  unfold retain.
  replace (num <? max_size) with false by (symmetry; apply Z.ltb_ge; lia).
  replace (Qlt_bool low (accuracy boss)) with true
    by (symmetry; now apply Qlt_bool_iff).
  unfold py_setitem.
  rewrite (py_index_nat ws k) by lia. rewrite (py_index_nat cs k) by lia.
  cbn [bind].
  destruct (worst_ensemble_acc_spec (<[k := boss]> cs))
    as [[Heq Hall1] | (k' & low' & Heq & Hlt & Hmin')].
  - exists k, 1%Q, (-1). rewrite Heq. repeat split; try assumption.
    + apply Hmin.
    + apply Hmin.
    + right. repeat split. assumption.
  - exists k, low', (Z.of_nat k'). rewrite Heq.
    repeat split; try assumption.
    + apply Hmin.
    + apply Hmin.
    + left. split; [assumption|]. exists k'. split; [reflexivity|assumption].
Qed.

Lemma retain_rejects {series} (max_size num : Z)
    (boss : IndividualBOSS series) (cs : list (IndividualBOSS series))
    (ws : list Q) (low : Q) (idx : Z) (w : Q) :
  max_size <= num ->
  (accuracy boss <= low)%Q ->
  retain max_size num boss w cs ws low idx = Ok (cs, ws, low, idx).
Proof.
  intros Hfull Hnot. unfold retain.
  replace (num <? max_size) with false by (symmetry; apply Z.ltb_ge; lia).
  replace (Qlt_bool low (accuracy boss)) with false
    by (symmetry; now apply Qlt_bool_false_iff).
  reflexivity.
Qed.

Lemma retain_sole_member {series} (old new : IndividualBOSS series)
    (w_old : Q) :
  (accuracy old == 3 # 5)%Q -> (accuracy new == 4 # 5)%Q ->
  retain 1 1 new (weight_of (accuracy new)) [old] [w_old] (accuracy old) 0
  = Ok ([new], [weight_of (accuracy new)], accuracy new, 0)
  /\ (np_sum [weight_of (accuracy new)] == (4 # 5) ^ 4)%Q.
Proof.
  intros Hold Hnew. unfold retain.
  replace (1 <? 1) with false by reflexivity.
  replace (Qlt_bool (accuracy old) (accuracy new)) with true
    by (symmetry; apply Qlt_bool_iff; lra).
  unfold py_setitem.
  replace (py_index [w_old] 0) with (Some 0%nat) by reflexivity.
  replace (py_index [old] 0) with (Some 0%nat) by reflexivity.
  cbn [bind]. change (<[0%nat := new]> [old]) with [new].
  unfold _worst_ensemble_acc. cbn [worst_scan].
  replace (Qlt_bool (accuracy new) 1) with true
    by (symmetry; apply Qlt_bool_iff; lra).
  split; [reflexivity|].
  unfold np_sum, weight_of. cbn [fold_left].
  replace (Qlt_bool 0 (accuracy new)) with true
    by (symmetry; apply Qlt_bool_iff; lra).
  rewrite Hnew. ring.
Qed.

(** C2 (amended). Once the warm-up is over ([max_size <= num]), with
    [low] the tracked minimum of the retained accuracies: a candidate is
    retained exactly when its accuracy strictly exceeds [low]; it then
    overwrites member and weight at the first position attaining [low],
    and the new minimum and position are those of a full scan, which
    reports the first member attaining the least accuracy when that is
    below 1 and reports [(1, -1)] when every retained accuracy is 1.  A
    sole member of accuracy 0.6 is replaced by a candidate of accuracy
    0.8, and the weight sum is then [0.8^4]. *)
Theorem retain_when_full {series} (max_size num : Z)
    (boss : IndividualBOSS series) (cs : list (IndividualBOSS series))
    (ws : list Q) (low : Q) (idx : Z) :
  max_size <= num ->
  length ws = length cs ->
  tracked cs low idx ->
  (accuracy boss <= 1)%Q ->
  ((low < accuracy boss)%Q ->
   exists k low' idx',
     idx = Z.of_nat k /\ first_min_at cs low k
     /\ retain max_size num boss (weight_of (accuracy boss)) cs ws low idx
        = Ok (<[k := boss]> cs, <[k := weight_of (accuracy boss)]> ws,
              low', idx')
     /\ _worst_ensemble_acc (<[k := boss]> cs) = (low', idx')
     /\ ((low' < 1)%Q
         /\ (exists k', idx' = Z.of_nat k'
                        /\ first_min_at (<[k := boss]> cs) low' k')
         \/ low' = 1%Q /\ idx' = -1
            /\ (forall j b, <[k := boss]> cs !! j = Some b ->
                  (1 <= accuracy b)%Q)))
  /\ ((accuracy boss <= low)%Q ->
      retain max_size num boss (weight_of (accuracy boss)) cs ws low idx
      = Ok (cs, ws, low, idx))
  /\ (forall (old new : IndividualBOSS series) (w_old : Q),
        (accuracy old == 3 # 5)%Q -> (accuracy new == 4 # 5)%Q ->
        retain 1 1 new (weight_of (accuracy new)) [old] [w_old]
          (accuracy old) 0
        = Ok ([new], [weight_of (accuracy new)], accuracy new, 0)
        /\ (np_sum [weight_of (accuracy new)] == (4 # 5) ^ 4)%Q).
Proof.
  intros Hfull Hlen Htr Hle1. split; [|split].
  - intros Hgt. now apply retain_replaces.
  - intros Hnot. now apply retain_rejects.
  - intros old new w_old. apply retain_sole_member.
Qed.

Lemma tracked_sole_member (b : IndividualBOSS nat) (low : Q) :
  (accuracy b == low)%Q -> (low < 1)%Q -> tracked [b] low 0.
Proof.
  intros Hb Hlow. split.
  - intros [|j] b' H; cbn in H; [|discriminate].
    injection H as <-. lra.
  - left. split; [assumption|]. exists 0%nat. split; [reflexivity|].
    repeat split.
    + exists b. split; [reflexivity|assumption].
    + intros [|j] b' H; cbn in H; [|discriminate].
      injection H as <-. lra.
    + intros j b' Hj. lia.
Qed.

Lemma retain_when_full_witness :
  1 <= 1
  /\ tracked [toy_member 3] (3 # 5) 0
  /\ (accuracy (toy_member 4) <= 1)%Q
  /\ (3 # 5 < accuracy (toy_member 4))%Q
  /\ (exists k low' idx',
        0 = Z.of_nat k /\ first_min_at [toy_member 3] (3 # 5) k
        /\ retain 1 1 (toy_member 4) (weight_of (accuracy (toy_member 4)))
             [toy_member 3] [81 # 625] (3 # 5) 0
           = Ok (<[k := toy_member 4]> [toy_member 3],
                 <[k := weight_of (accuracy (toy_member 4))]> [81 # 625],
                 low', idx')
        /\ _worst_ensemble_acc (<[k := toy_member 4]> [toy_member 3])
           = (low', idx')
        /\ ((low' < 1)%Q
            /\ (exists k', idx' = Z.of_nat k'
                  /\ first_min_at (<[k := toy_member 4]> [toy_member 3])
                       low' k')
            \/ low' = 1%Q /\ idx' = -1
               /\ (forall j b,
                     <[k := toy_member 4]> [toy_member 3] !! j = Some b ->
                     (1 <= accuracy b)%Q)))
  /\ (accuracy (toy_member 3) == 3 # 5)%Q
  /\ (accuracy (toy_member 4) == 4 # 5)%Q
  /\ retain 1 1 (toy_member 4) (weight_of (accuracy (toy_member 4)))
       [toy_member 3] [81 # 625] (accuracy (toy_member 3)) 0
     = Ok ([toy_member 4], [weight_of (accuracy (toy_member 4))],
           accuracy (toy_member 4), 0)
  /\ (np_sum [weight_of (accuracy (toy_member 4))] == (4 # 5) ^ 4)%Q.
Proof.
  assert (Ht : tracked [toy_member 3] (3 # 5) 0)
    by (apply tracked_sole_member; [reflexivity | reflexivity]).
  assert (Ha : (accuracy (toy_member 4) <= 1)%Q) by (vm_compute; discriminate).
  destruct (retain_when_full 1 1 (toy_member 4) [toy_member 3] [81 # 625]
              (3 # 5) 0) as (Hreplace & _ & Hscenario);
    [lia | reflexivity | exact Ht | exact Ha |].
  split; [lia|]. split; [exact Ht|]. split; [exact Ha|].
  split; [reflexivity|]. split; [apply Hreplace; reflexivity|].
  split; [reflexivity|]. split; [reflexivity|].
  apply Hscenario; reflexivity.
Defined.

(** C2 as stated fails: after the candidate of accuracy 1 replaces the
    sole member, the scan reports position [-1], which is the position of
    no member. *)
Lemma retain_scan_position_counterexample :
  tracked [toy_member 3] (3 # 5) 0
  /\ (3 # 5 < accuracy (toy_member 5))%Q
  /\ retain 1 1 (toy_member 5) (weight_of (accuracy (toy_member 5)))
       [toy_member 3] [81 # 625] (3 # 5) 0
     = Ok ([toy_member 5], [weight_of (accuracy (toy_member 5))], 1%Q, -1)
  /\ ~ (exists k cs' ws' low',
          retain 1 1 (toy_member 5) (weight_of (accuracy (toy_member 5)))
            [toy_member 3] [81 # 625] (3 # 5) 0
          = Ok (cs', ws', low', Z.of_nat k)
          /\ first_min_at cs' low' k).
Proof.
  split; [apply tracked_sole_member; reflexivity|].
  split; [reflexivity|].
  split; [reflexivity|].
  intros (k & cs' & ws' & low' & H & _).
  assert (E : retain 1 1 (toy_member 5)
                (weight_of (accuracy (toy_member 5)))
                [toy_member 3] [81 # 625] (3 # 5) 0
              = Ok ([toy_member 5], [weight_of (accuracy (toy_member 5))],
                    1%Q, -1)) by reflexivity.
  rewrite E in H. injection H as _ _ _ Hk. lia.
Qed.

(** ** The range of an estimated accuracy *)

Lemma seq_loop_range {series} (boss : IndividualBOSS series)
    (y : list label) (S : nat) (R : Z) (n i : nat) (c : Z) (e : loop_exit) :
  0 <= c <= Z.of_nat i -> (i + n <= S)%nat ->
  snd (train_acc_loop_seq boss y (Z.of_nat S) R (seq i n) c) = Ok e ->
  match e with
  | Completed c' => 0 <= c' <= Z.of_nat S
  | Returned v => v = (-1)%Q /\ 0 < R
  end.
Proof.
  revert i c. induction n as [|n IH]; intros i c Hc Hle H.
  - cbn in H. injection H as <-. lia.
  - cbn [seq train_acc_loop_seq] in H.
    destruct (c + Z.of_nat S - Z.of_nat i <? R) eqn:E.
    + cbn in H. injection H as <-. apply Z.ltb_lt in E. split; [reflexivity|lia].
    + destruct (y !! i) as [yi|]; [|discriminate].
      destruct (train_acc_loop_seq boss y (Z.of_nat S) R (seq (Datatypes.S i) n) _)
        as [ev r] eqn:Eloop.
      cbn in H. subst r.
      apply (IH (Datatypes.S i)
               (if label_eqb (_train_predict boss i) yi then c + 1 else c));
        [destruct (label_eqb _ _); lia | lia |].
      now rewrite Eloop.
Qed.

Lemma Qdiv_count_range (c : Z) (S : nat) :
  0 <= c <= Z.of_nat S -> (0 < S)%nat ->
  (0 <= inject_Z c / inject_Z (Z.of_nat S) <= 1)%Q.
Proof.
  intros Hc HS.
  assert (HSq : (0 < inject_Z (Z.of_nat S))%Q).
  { change 0%Q with (inject_Z 0). rewrite <- Zlt_Qlt. lia. }
  split.
  - apply Qle_shift_div_l; [assumption|]. rewrite Qmult_0_l.
    change 0%Q with (inject_Z 0). rewrite <- Zle_Qle. lia.
  - apply Qle_shift_div_r; [assumption|]. rewrite Qmult_1_l.
    rewrite <- Zle_Qle. lia.
Qed.

Lemma individual_train_acc_seq_par {series} (jobs : Z)
    (boss : IndividualBOSS series) (y : list label) (S : nat) (low : Q) :
  _individual_train_acc jobs boss y S low
  = finish_train_acc S
      (snd (train_acc_loop_seq boss y (Z.of_nat S)
              (required_correct_of low S) (seq 0 S) 0)).
Proof.
  unfold _individual_train_acc, _individual_train_acc_traced.
  destruct (1 <? jobs).
  - cbn [snd]. now rewrite par_loop_seq_loop by lia.
  - destruct (train_acc_loop_seq _ _ _ _ _ _). reflexivity.
Qed.

(** An estimated accuracy lies in [[0, 1]], or is the sentinel [-1],
    which needs a positive required count. *)
Lemma individual_train_acc_range {series} (jobs : Z)
    (boss : IndividualBOSS series) (y : list label) (S : nat) (low acc : Q) :
  _individual_train_acc jobs boss y S low = Ok acc ->
  (0 <= acc <= 1)%Q \/ (acc = (-1)%Q /\ 0 < required_correct_of low S).
Proof.
  rewrite individual_train_acc_seq_par. unfold finish_train_acc.
  destruct (snd (train_acc_loop_seq _ _ _ _ _ _)) as [e|] eqn:E;
    [|discriminate].
  apply (seq_loop_range boss y S _ S 0 0 e) in E; [|lia|lia].
  cbn [bind]. destruct e as [v | c].
  - intros H. injection H as <-. right. exact E.
  - destruct (Nat.eqb S 0) eqn:ES; [discriminate|].
    intros H. injection H as <-. left.
    apply Nat.eqb_neq in ES. apply Qdiv_count_range; lia.
Qed.

(** ** The ensemble invariant *)

Lemma weight_of_pos (acc : Q) : (0 < weight_of acc)%Q.
Proof.
  unfold weight_of. destruct (Qlt_bool 0 acc) eqn:E.
  - apply Qlt_bool_iff in E.
    assert (H : (0 < acc * acc)%Q) by nra.
    simpl. nra.
  - reflexivity.
Qed.

Lemma retain_inv {series} (max_size num : Z) (boss : IndividualBOSS series)
    (cs : list (IndividualBOSS series)) (ws : list Q) (low : Q) (idx : Z) :
  ensemble_inv max_size num cs ws low idx ->
  ((0 <= accuracy boss <= 1)%Q
   \/ (max_size <= num /\ (accuracy boss < 0)%Q)) ->
  exists cs' ws' low' idx',
    retain max_size num boss (weight_of (accuracy boss)) cs ws low idx
    = Ok (cs', ws', low', idx')
    /\ ensemble_inv max_size (num + 1) cs' ws' low' idx'.
Proof.
  intros (Hw & Hrange & Htr & Hlow0 & Hnum & Hlen) Hacc.
  pose proof (Forall2_length _ _ _ Hw) as Hlenw.
  destruct (Z.ltb_spec num max_size) as [Hwarm | Hfull].
  - (* warm-up *)
    destruct Hacc as [Hacc | [? _]]; [|lia].
    assert (Hlencs : Z.of_nat (length cs) = num) by (apply Hlen; lia).
    unfold retain.
    replace (num <? max_size) with true by (symmetry; apply Z.ltb_lt; lia).
    destruct Htr as [Hall Hpos].
    destruct (Qlt_bool (accuracy boss) low) eqn:E.
    + apply Qlt_bool_iff in E.
      eexists _, _, _, _. split; [reflexivity|].
      repeat split.
      * apply Forall2_app; [assumption|]. now constructor.
      * apply lookup_app_Some in H as [H | [_ H]]; [now apply (Hrange j)|].
        destruct (j - length cs)%nat; cbn in H; [|discriminate].
        injection H as <-. apply Hacc.
      * apply lookup_app_Some in H as [H | [_ H]]; [now apply (Hrange j)|].
        destruct (j - length cs)%nat; cbn in H; [|discriminate].
        injection H as <-. apply Hacc.
      * intros j b H.
        apply lookup_app_Some in H as [H | [_ H]].
        -- apply Hall in H. lra.
        -- destruct (j - length cs)%nat; cbn in H; [|discriminate].
           injection H as <-. lra.
      * left. split; [destruct Hpos as [[? _] | ?]; lra|].
        exists (length cs). split; [lia|]. repeat split.
        -- exists boss. split; [|reflexivity].
           rewrite lookup_app_r by lia. now rewrite Nat.sub_diag.
        -- intros j b H.
           apply lookup_app_Some in H as [H | [_ H]].
           ++ apply Hall in H. lra.
           ++ destruct (j - length cs)%nat; cbn in H; [|discriminate].
              injection H as <-. lra.
        -- intros j b Hj H. rewrite lookup_app_l in H by lia.
           apply Hall in H. lra.
      * apply Hacc.
      * lia.
      * intros _. rewrite length_app. cbn. lia.
    + apply Qlt_bool_false_iff in E.
      eexists _, _, _, _. split; [reflexivity|].
      repeat split.
      * apply Forall2_app; [assumption|]. now constructor.
      * apply lookup_app_Some in H as [H | [_ H]]; [now apply (Hrange j)|].
        destruct (j - length cs)%nat; cbn in H; [|discriminate].
        injection H as <-. apply Hacc.
      * apply lookup_app_Some in H as [H | [_ H]]; [now apply (Hrange j)|].
        destruct (j - length cs)%nat; cbn in H; [|discriminate].
        injection H as <-. apply Hacc.
      * intros j b H.
        apply lookup_app_Some in H as [H | [_ H]].
        -- now apply (Hall j).
        -- destruct (j - length cs)%nat; cbn in H; [|discriminate].
           now injection H as <-.
      * destruct Hpos as [[Hlt (k & -> & Hmin)] | Hone]; [left|now right].
        split; [assumption|]. exists k. split; [reflexivity|].
        pose proof (first_min_at_lt cs low k Hmin) as Hk.
        destruct Hmin as ((b0 & Hb0 & Hq) & Hmin2 & Hmin3).
        repeat split.
        -- exists b0. split; [|assumption]. now rewrite lookup_app_l by lia.
        -- intros j b H.
           apply lookup_app_Some in H as [H | [_ H]].
           ++ now apply (Hall j).
           ++ destruct (j - length cs)%nat; cbn in H; [|discriminate].
              now injection H as <-.
        -- intros j b Hj H. rewrite lookup_app_l in H by lia.
           now apply (Hmin3 j).
      * assumption.
      * lia.
      * intros _. rewrite length_app. cbn. lia.
  - (* full *)
    destruct (Qlt_le_dec low (accuracy boss)) as [Hgt | Hle].
    + destruct Hacc as [Hacc | [_ Hneg]]; [|lra].
      destruct (retain_replaces max_size num boss cs ws low idx)
        as (k & low' & idx' & -> & Hmin & Heq & _ & Hscan);
        [lia | lia | assumption | apply Hacc | assumption |].
      eexists _, _, _, _. split; [exact Heq|].
      assert (Hrange' : forall j b, <[k := boss]> cs !! j = Some b ->
                          (0 <= accuracy b <= 1)%Q).
      { intros j b H. apply list_lookup_insert_Some in H
          as [(_ & <- & _) | [_ H]]; [exact Hacc | now apply (Hrange j)]. }
      repeat split.
      * apply Forall2_insert; [assumption|reflexivity].
      * now apply (Hrange' j).
      * now apply (Hrange' j).
      * destruct Hscan as [(_ & k' & _ & _ & Hall' & _) | (-> & _ & Hall')];
          assumption.
      * destruct Hscan as [(Hlt & k' & -> & Hmin') | (-> & _ & _)].
        -- left. split; [assumption|]. now exists k'.
        -- right. reflexivity.
      * destruct Hscan as [(_ & k' & _ & (b & Hb & Hq) & _) | (-> & _)].
        -- apply Hrange' in Hb. lra.
        -- discriminate.
      * lia.
      * lia.
    + rewrite retain_rejects by (assumption || lia).
      eexists _, _, _, _. split; [reflexivity|].
      repeat split; try assumption.
      * now apply (Hrange j).
      * now apply (Hrange j).
      * apply Htr.
      * apply Htr.
      * lia.
      * lia.
Qed.

(** ** One pass of the search loop *)

Section SearchFacts.

Context {series : Type}.
Variable fit_boss :
  Z -> Z -> bool -> Z -> Z -> list series -> list label ->
  (nat -> label) * (series -> label).
Context {RandomState : Type}.
Variable check_random_state : Z -> RandomState.
Variable randint : RandomState -> Z -> Z -> Z * RandomState.
Variable choice : RandomState -> nat -> nat -> list nat * RandomState.

Lemma py_pop_length {A : Type} (l : list A) (i : Z) (x : A) (l' : list A) :
  py_pop l i = Ok (x, l') -> Datatypes.S (length l') = length l.
Proof.
  unfold py_pop. destruct (py_index l i) as [k|] eqn:E; [|discriminate].
  destruct (l !! k) as [x0|] eqn:El; [|discriminate].
  intros H. injection H as <- <-.
  rewrite length_delete by eauto.
  apply lookup_lt_Some in El. lia.
Qed.

(** A pass that does not raise fits one learner, removes one candidate,
    counts it, reads the clock, and hands a scored learner whose accuracy
    is in [[0, 1]] (or, once the ensemble is full, possibly the sentinel)
    to [retain]. *)
Lemma search_step_ok (clock : Z -> Q) (self : ContractableBOSS series)
    (X : ndarray3 series) (y : list label) (subsample_size : nat)
    (st st' : search_state series RandomState) (tr : list parameters) :
  search_step fit_boss randint choice clock self X y subsample_size st
  = (tr, Ok st') ->
  length tr = 1%nat
  /\ Datatypes.S (length (possible_parameters st'))
     = length (possible_parameters st)
  /\ num_classifiers st' = num_classifiers st + 1
  /\ train_time st' = clock (num_classifiers st + 1)
  /\ exists boss,
       ((0 <= accuracy boss <= 1)%Q
        \/ (max_ensemble_size self <= num_classifiers st
            /\ (accuracy boss < 0)%Q))
       /\ retain (max_ensemble_size self) (num_classifiers st) boss
            (weight_of (accuracy boss)) (st_classifiers st) (st_weights st)
            (lowest_acc st) (lowest_acc_idx st)
          = Ok (st_classifiers st', st_weights st', lowest_acc st',
                lowest_acc_idx st').
Proof.
  unfold search_step.
  destruct (randint _ _ _) as [k rng1].
  destruct (py_pop _ _) as [[params remaining]|] eqn:Epop; [|intros H; discriminate].
  destruct (choice _ _ _) as [sub rng2].
  destruct (np_take (instances X) sub) as [Xs|]; [|intros H; discriminate].
  destruct (np_take y sub) as [ys|]; [|intros H; discriminate].
  destruct params as [[win_size word_len] normalise].
  destruct (fit_boss _ _ _ _ _ _ _) as [tp pr].
  destruct (_individual_train_acc _ _ _ _ _) as [acc|] eqn:Eacc;
    [|intros H; discriminate].
  cbn [bind].
  match goal with
  | |- context [retain ?m ?n ?b ?w ?cs ?ws ?lo ?ix] =>
      destruct (retain m n b w cs ws lo ix) as [[[[cs' ws'] low'] idx']|]
        eqn:Eret; [|intros H; discriminate]
  end.
  cbn [bind]. intros H. injection H as <- <-. cbn.
  repeat split.
  - now apply py_pop_length in Epop.
  - eexists. split; [|exact Eret]. cbn.
    apply individual_train_acc_range in Eacc.
    destruct Eacc as [Hr | [-> Hreq]]; [now left|right].
    destruct (Z.ltb_spec (num_classifiers st) (max_ensemble_size self)).
    + rewrite required_correct_zero in Hreq. lia.
    + split; [lia|reflexivity].
Qed.

Lemma search_step_inv (clock : Z -> Q) (self : ContractableBOSS series)
    (X : ndarray3 series) (y : list label) (subsample_size : nat)
    (st st' : search_state series RandomState) (tr : list parameters) :
  state_inv self st ->
  search_step fit_boss randint choice clock self X y subsample_size st
  = (tr, Ok st') ->
  state_inv self st'.
Proof.
  intros Hinv Hstep.
  apply search_step_ok in Hstep
    as (_ & _ & Hnum & _ & boss & Hacc & Hret).
  destruct (retain_inv _ _ boss _ _ _ _ Hinv Hacc)
    as (cs' & ws' & low' & idx' & Heq & Hinv').
  rewrite Hret in Heq. injection Heq as <- <- <- <-.
  unfold state_inv. now rewrite Hnum.
Qed.

(** ** The search loop *)

(** With fuel for every remaining candidate, the loop stops only when
    its condition fails, and the state it stops in has the number of
    candidates tried, the candidates remaining and the ensemble
    invariant. *)
Lemma search_loop_ok (clock : Z -> Q) (self : ContractableBOSS series)
    (time_limit : Q) (X : ndarray3 series) (y : list label)
    (subsample_size : nat) (fuel : nat) :
  forall (st st' : search_state series RandomState) (tr : list parameters),
    (length (possible_parameters st) <= fuel)%nat ->
    state_inv self st ->
    search_loop fit_boss randint choice clock fuel self time_limit X y
      subsample_size st = (tr, Ok st') ->
    continue self time_limit st' = false
    /\ state_inv self st'
    /\ num_classifiers st' = num_classifiers st + Z.of_nat (length tr)
    /\ (length (possible_parameters st') + length tr
        = length (possible_parameters st))%nat.
Proof.
  induction fuel as [|fuel IH]; intros st st' tr Hfuel Hinv Hloop.
  - cbn in Hloop. destruct (continue self time_limit st) eqn:Ec.
    + unfold continue in Ec. apply andb_true_iff in Ec as [_ Ec].
      apply Nat.ltb_lt in Ec. lia.
    + injection Hloop as <- <-. cbn.
      split; [assumption|]. split; [assumption|]. split; lia.
  - cbn [search_loop] in Hloop.
    destruct (continue self time_limit st) eqn:Ec.
    + destruct (search_step _ _ _ _ _ _ _ _ _) as [tr1 [st1|e]] eqn:Estep;
        [|discriminate].
      destruct (search_loop _ _ _ _ _ _ _ _ _ _ st1) as [tr2 r] eqn:Erec.
      injection Hloop as <- ->.
      pose proof (search_step_inv _ _ _ _ _ _ _ _ Hinv Estep) as Hinv1.
      apply search_step_ok in Estep as (Htr1 & Hlen1 & Hnum1 & _).
      apply IH in Erec as (Hc & Hi & Hn & Hl); [|lia|assumption].
      split; [assumption|]. split; [assumption|]. split.
      * rewrite Hn, Hnum1, length_app. lia.
      * rewrite length_app. lia.
    + injection Hloop as <- <-. cbn.
      split; [assumption|]. split; [assumption|]. split; lia.
Qed.

End SearchFacts.

(** ** What [_fit] returns *)

Section FitFacts.

Context {series : Type}.
Variable fit_boss :
  Z -> Z -> bool -> Z -> Z -> list series -> list label ->
  (nat -> label) * (series -> label).
Context {RandomState : Type}.
Variable check_random_state : Z -> RandomState.
Variable randint : RandomState -> Z -> Z -> Z * RandomState.
Variable choice : RandomState -> nat -> nat -> list nat * RandomState.
Variable clock : Z -> Q.

Lemma ensemble_inv_init (max_size : Z) :
  @ensemble_inv series max_size 0 [] [] 1 0.
Proof.
  unfold ensemble_inv, tracked.
  split; [constructor|].
  split; [intros j b H; discriminate|].
  split; [split; [intros j b H; discriminate | right; reflexivity]|].
  split; [discriminate|].
  split; [lia|]. intros _. reflexivity.
Qed.

(** A fit that returns has passed both configuration checks, and its
    ensemble is the one the search loop ended with. *)
Lemma fit_ok (self fitted : ContractableBOSS series) (X : ndarray3 series)
    (y : list label) (tr : list parameters) :
  _fit fit_boss check_random_state randint choice clock self X y
  = (tr, Ok fitted) ->
  (0 < shape2 X)%nat
  /\ min_window self
     <= max_window_of (shape2 X) (max_win_len_prop self) + 1
  /\ (exists low idx,
        ensemble_inv (max_ensemble_size self) (Z.of_nat (length tr))
          (classifiers fitted) (weights fitted) low idx)
  /\ weight_sum fitted = np_sum (weights fitted)
  /\ n_estimators fitted = length (classifiers fitted)
  /\ n_classes fitted = length (remove_dups y)
  /\ classes_ fitted = class_values y
  /\ class_dictionary fitted
     = fill_class_dictionary (class_dictionary self) 0 (class_values y)
  /\ random_state fitted = random_state self.
Proof.
  unfold _fit.
  destruct (Qeq_bool (max_window_searches_of (shape2 X)) 0) eqn:Ezero;
    [intros H; discriminate|].
  destruct (max_window_of _ _ + 1 <? min_window self) eqn:Econf;
    [intros H; discriminate|].
  match goal with
  | |- context [search_loop ?f ?ri ?ch ?cl ?fu ?s1 ?tl ?X ?y ?ss ?s0] =>
      destruct (search_loop f ri ch cl fu s1 tl X y ss s0) as [tr' [st'|e]]
        eqn:Eloop; [|intros H; discriminate]
  end.
  intros H. injection H as <- <-. cbn.
  apply search_loop_ok in Eloop as (_ & Hinv & Hnum & _);
    [|cbn; lia|apply ensemble_inv_init].
  unfold state_inv in Hinv. cbn in Hinv, Hnum.
  split; [|split; [|split]].
  - destruct (shape2 X); [discriminate|lia].
  - apply Z.ltb_ge in Econf. lia.
  - exists (lowest_acc st'), (lowest_acc_idx st').
    rewrite Hnum in Hinv. exact Hinv.
  - repeat split.
Qed.

Lemma fit_n_jobs (self fitted : ContractableBOSS series) (X : ndarray3 series)
    (y : list label) (tr : list parameters) :
  _fit fit_boss check_random_state randint choice clock self X y
  = (tr, Ok fitted) ->
  n_jobs fitted = n_jobs self.
Proof.
  unfold _fit.
  destruct (Qeq_bool (max_window_searches_of (shape2 X)) 0);
    [intros H; discriminate|].
  destruct (max_window_of _ _ + 1 <? min_window self);
    [intros H; discriminate|].
  match goal with
  | |- context [search_loop ?f ?ri ?ch ?cl ?fu ?s1 ?tl ?X ?y ?ss ?s0] =>
      destruct (search_loop f ri ch cl fu s1 tl X y ss s0) as [tr' [st'|e]];
        [|intros H; discriminate]
  end.
  intros H. injection H as <- <-. reflexivity.
Qed.

End FitFacts.

(** ** Weights of retained members *)

(** C5. Every member retained by a fit that returns has the weight
    [accuracy^4] when its estimated accuracy is positive and the floor
    [0.000000001] otherwise; the loop maintains this through the warm-up
    appends and the replacements alike. *)
Theorem fitted_member_weight {series RandomState : Type}
    (fit_boss : Z -> Z -> bool -> Z -> Z -> list series -> list label ->
                (nat -> label) * (series -> label))
    (check_random_state : Z -> RandomState)
    (randint : RandomState -> Z -> Z -> Z * RandomState)
    (choice : RandomState -> nat -> nat -> list nat * RandomState)
    (clock : Z -> Q)
    (self fitted : ContractableBOSS series) (X : ndarray3 series)
    (y : list label) (tr : list parameters) (n : nat)
    (b : IndividualBOSS series) :
  _fit fit_boss check_random_state randint choice clock self X y
  = (tr, Ok fitted) ->
  classifiers fitted !! n = Some b ->
  length (weights fitted) = length (classifiers fitted)
  /\ ((0 < accuracy b)%Q ->
      weights fitted !! n = Some (accuracy b ^ 4)%Q)
  /\ ((accuracy b <= 0)%Q ->
      weights fitted !! n = Some (1 # 1000000000)%Q).
Proof.
  intros Hfit Hb.
  apply fit_ok in Hfit as (_ & _ & (low & idx & Hw & _) & _).
  split; [symmetry; eapply Forall2_length; exact Hw|].
  destruct (Forall2_lookup_l _ _ _ _ _ Hw Hb) as (w & Hwn & ->).
  rewrite Hwn. unfold weight_of. split; intros Hacc.
  - now replace (Qlt_bool 0 (accuracy b)) with true
      by (symmetry; apply Qlt_bool_iff; assumption).
  - now replace (Qlt_bool 0 (accuracy b)) with false
      by (symmetry; apply Qlt_bool_false_iff; assumption).
Qed.

Lemma fitted_member_weight_witness :
  exists tr fitted b,
    toy_fit fast_clock toy_config = (tr, Ok fitted)
    /\ classifiers fitted !! 0%nat = Some b
    /\ (0 < accuracy b)%Q
    /\ length (weights fitted) = length (classifiers fitted)
    /\ ((0 < accuracy b)%Q ->
        weights fitted !! 0%nat = Some (accuracy b ^ 4)%Q)
    /\ ((accuracy b <= 0)%Q ->
        weights fitted !! 0%nat = Some (1 # 1000000000)%Q).
Proof.
  do 3 eexists.
  split; [vm_compute; reflexivity|].
  split; [reflexivity|].
  split; [reflexivity|].
  eapply (fitted_member_weight toy_fit_boss toy_check_random_state
            toy_randint toy_choice fast_clock toy_config _ toy_X
            toy_labels);
    [vm_compute; reflexivity | reflexivity].
Defined.

(** ** The configuration check *)

Section ConfigurationCheck.

Context {series : Type}.
Variable fit_boss :
  Z -> Z -> bool -> Z -> Z -> list series -> list label ->
  (nat -> label) * (series -> label).
Context {RandomState : Type}.
Variable check_random_state : Z -> RandomState.
Variable randint : RandomState -> Z -> Z -> Z * RandomState.
Variable choice : RandomState -> nat -> nat -> list nat * RandomState.
Variable clock : Z -> Q.

(** An exception passed on unchanged by a caller is not a [ValueError]
    when it is none in the callee. *)
Ltac raise_from H :=
  let E := fresh "E" in
  intros E; apply H; injection E as ->; reflexivity.

Lemma py_setitem_not_value_error {A : Type} (l : list A) (i : Z) (x : A) :
  py_setitem l i x <> Raise ValueError.
Proof. unfold py_setitem. destruct (py_index l i); discriminate. Qed.

Lemma retain_not_value_error (max_size num : Z)
    (boss : IndividualBOSS series) (w : Q)
    (cs : list (IndividualBOSS series)) (ws : list Q) (low : Q) (idx : Z) :
  retain max_size num boss w cs ws low idx <> Raise ValueError.
Proof.
  unfold retain. destruct (num <? max_size).
  - destruct (Qlt_bool _ _); discriminate.
  - destruct (Qlt_bool _ _); [|discriminate].
    pose proof (py_setitem_not_value_error ws idx w) as Hw.
    destruct (py_setitem ws idx w) as [ws'|e]; cbn [bind];
      [|destruct e; congruence].
    pose proof (py_setitem_not_value_error cs idx boss) as Hc.
    destruct (py_setitem cs idx boss) as [cs'|e]; cbn [bind];
      [|destruct e; congruence].
    destruct (_worst_ensemble_acc cs'). discriminate.
Qed.

Lemma seq_loop_not_value_error (boss : IndividualBOSS series)
    (y : list label) (S R : Z) (idxs : list nat) (c : Z) :
  snd (train_acc_loop_seq boss y S R idxs c) <> Raise ValueError.
Proof.
  revert c. induction idxs as [|i rest IH]; intros c; cbn; [discriminate|].
  destruct (_ <? R); [discriminate|].
  destruct (y !! i); [|discriminate].
  specialize (IH (if label_eqb (_train_predict boss i) l then c + 1 else c)).
  destruct (train_acc_loop_seq _ _ _ _ _ _). exact IH.
Qed.

Lemma individual_train_acc_not_value_error (jobs : Z)
    (boss : IndividualBOSS series) (y : list label) (S : nat) (low : Q) :
  _individual_train_acc jobs boss y S low <> Raise ValueError.
Proof.
  rewrite individual_train_acc_seq_par. unfold finish_train_acc.
  pose proof (seq_loop_not_value_error boss y (Z.of_nat S)
                (required_correct_of low S) (seq 0 S) 0) as H.
  destruct (snd (train_acc_loop_seq boss y (Z.of_nat S)
                   (required_correct_of low S) (seq 0 S) 0))
    as [[v|c]|e]; cbn [bind].
  - discriminate.
  - destruct (Nat.eqb S 0); discriminate.
  - raise_from H.
Qed.

Lemma search_step_not_value_error (self : ContractableBOSS series)
    (X : ndarray3 series) (y : list label) (subsample_size : nat)
    (st : search_state series RandomState) :
  snd (search_step fit_boss randint choice clock self X y subsample_size st)
  <> Raise ValueError.
Proof.
  unfold search_step.
  destruct (randint _ _ _) as [k rng1].
  unfold py_pop. destruct (py_index _ _) as [j|]; [|discriminate].
  destruct (_ !! j) as [[[win_size word_len] normalise]|]; [|discriminate].
  destruct (choice _ _ _) as [sub rng2].
  unfold np_take.
  destruct (mapM _ sub) as [Xs|]; [|discriminate]. cbn [of_option].
  destruct (mapM _ sub) as [ys|]; [|discriminate]. cbn [of_option].
  destruct (fit_boss _ _ _ _ _ _ _) as [tp pr]. cbn [snd].
  match goal with
  | |- context [_individual_train_acc ?j ?b ?ys ?s ?l] =>
      pose proof (individual_train_acc_not_value_error j b ys s l) as Ha;
      destruct (_individual_train_acc j b ys s l) as [acc|e]
  end; cbn [bind]; [|raise_from Ha].
  match goal with
  | |- context [retain ?m ?n ?b ?w ?cs ?ws ?lo ?ix] =>
      pose proof (retain_not_value_error m n b w cs ws lo ix) as Hr;
      destruct (retain m n b w cs ws lo ix) as [[[[cs' ws'] low'] idx']|e]
  end; cbn [bind]; [discriminate|raise_from Hr].
Qed.

Lemma search_loop_not_value_error (self : ContractableBOSS series)
    (time_limit : Q) (X : ndarray3 series) (y : list label)
    (subsample_size : nat) (fuel : nat) :
  forall st : search_state series RandomState,
    snd (search_loop fit_boss randint choice clock fuel self time_limit X y
           subsample_size st) <> Raise ValueError.
Proof.
  induction fuel as [|fuel IH]; intros st; cbn [search_loop].
  - destruct (continue _ _ _); discriminate.
  - destruct (continue _ _ _); [|discriminate].
    pose proof (search_step_not_value_error self X y subsample_size st) as Hs.
    destruct (search_step _ _ _ _ _ _ _ _ _) as [tr1 [st1|e]]; [|exact Hs].
    specialize (IH st1).
    destruct (search_loop _ _ _ _ _ _ _ _ _ _ st1). exact IH.
Qed.

Lemma series_quarter_nonzero (n : nat) :
  (0 < n)%nat -> Qeq_bool (max_window_searches_of n) 0 = false.
Proof.
  intros Hn. destruct (Qeq_bool _ _) eqn:E; [|reflexivity].
  apply Qeq_bool_eq in E. unfold max_window_searches_of in E.
  assert (H : (0 < inject_Z (Z.of_nat n))%Q).
  { change 0%Q with (inject_Z 0). rewrite <- Zlt_Qlt. lia. }
  assert (H' : (0 < inject_Z (Z.of_nat n) / 4)%Q).
  { apply Qlt_shift_div_l; [reflexivity|]. now rewrite Qmult_0_l. }
  pose proof (py_float_positive _ H'). lra.
Qed.

(** What [_fit] does on a non-empty series, by the outcome of the
    configuration check. *)
Lemma fit_rejects (self : ContractableBOSS series) (X : ndarray3 series)
    (y : list label) :
  (0 < shape2 X)%nat ->
  max_window_of (shape2 X) (max_win_len_prop self) + 1 < min_window self ->
  _fit fit_boss check_random_state randint choice clock self X y
  = ([], Raise ValueError).
Proof.
  intros Hlen Hw. unfold _fit.
  rewrite series_quarter_nonzero by assumption.
  now replace (_ + 1 <? min_window self) with true
    by (symmetry; apply Z.ltb_lt; assumption).
Qed.

Lemma fit_accepts (self : ContractableBOSS series) (X : ndarray3 series)
    (y : list label) :
  (0 < shape2 X)%nat ->
  min_window self <= max_window_of (shape2 X) (max_win_len_prop self) + 1 ->
  snd (_fit fit_boss check_random_state randint choice clock self X y)
  <> Raise ValueError.
Proof.
  intros Hlen Hw. unfold _fit.
  rewrite series_quarter_nonzero by assumption.
  replace (_ + 1 <? min_window self) with false
    by (symmetry; apply Z.ltb_ge; assumption).
  match goal with
  | |- context [search_loop ?f ?ri ?ch ?cl ?fu ?s1 ?tl ?X ?y ?ss ?s0] =>
      pose proof (search_loop_not_value_error s1 tl X y ss fu s0) as Hl;
      destruct (search_loop f ri ch cl fu s1 tl X y ss s0) as [tr' [st'|e]]
  end; [discriminate|cbn [snd] in *; raise_from Hl].
Qed.

End ConfigurationCheck.

(** C8, as the claim states it, fails in three ways.  On a series of
    length 0 with the default [min_window = 10] the claimed condition
    holds, yet [_fit] raises [ZeroDivisionError] at line 195, before the
    check.  With series length 90, [max_win_len_prop = 0.7] and
    [min_window = 64] the floor of the product is 63 and the claimed
    condition fails, yet line 194 computes 62 on floats and [_fit] raises
    the configuration error.  And when [max_win_len_prop] is read as the
    float nearest to 0.7, with series length 10 and [min_window = 8], the
    floor of the product is 6 and the claimed condition holds, yet line
    194 computes 7 and [_fit] raises nothing. *)
Lemma fit_configuration_error_counterexample :
  (min_window (init nat 250 50 1 10 0 1 0)
   > Qfloor (inject_Z (Z.of_nat (shape2 toy_X_empty_series))
             * max_win_len_prop (init nat 250 50 1 10 0 1 0)) + 1
   /\ snd (_fit toy_fit_boss toy_check_random_state toy_randint toy_choice
             fast_clock (init nat 250 50 1 10 0 1 0) toy_X_empty_series
             toy_labels)
      = Raise ZeroDivisionError)
  /\ (~ 64 > Qfloor (inject_Z (Z.of_nat (shape2 toy_X_long)) * (7 # 10)) + 1
      /\ max_window_of (shape2 toy_X_long) (7 # 10) = 62
      /\ _fit toy_fit_boss toy_check_random_state toy_randint toy_choice
           fast_clock (init nat 250 50 (7 # 10) 64 0 1 0) toy_X_long
           toy_labels
         = ([], Raise ValueError))
  /\ (8 > Qfloor (inject_Z (Z.of_nat (shape2 toy_X_short))
                  * py_float (7 # 10)) + 1
      /\ max_window_of (shape2 toy_X_short) (py_float (7 # 10)) = 7
      /\ snd (_fit toy_fit_boss toy_check_random_state toy_randint
                toy_choice fast_clock
                (init nat 250 50 (py_float (7 # 10)) 8 0 1 0) toy_X_short
                toy_labels)
         <> Raise ValueError).
Proof.
  split; [split; vm_compute; reflexivity|].
  split.
  - split; [vm_compute; discriminate|]. split; vm_compute; reflexivity.
  - split; [vm_compute; reflexivity|]. split; [vm_compute; reflexivity|].
    vm_compute. discriminate.
Qed.

(** C8 (amended). On a series of positive length, [_fit] raises the
    configuration error ([ValueError]; the random generator and the base
    learners of the model raise nothing) exactly when
    [min_window > max_window + 1], where
    [max_window = int(series_length * max_win_len_prop)] is computed on
    floats; the error is raised before any base learner is fitted.  For
    [max_win_len_prop = 1] the maximum window is the series length: with
    series length 24 it is 24, and [min_window = 26] fails with this
    error and no learner fitted. *)
Theorem fit_configuration_error {series RandomState : Type}
    (fit_boss : Z -> Z -> bool -> Z -> Z -> list series -> list label ->
                (nat -> label) * (series -> label))
    (check_random_state : Z -> RandomState)
    (randint : RandomState -> Z -> Z -> Z * RandomState)
    (choice : RandomState -> nat -> nat -> list nat * RandomState)
    (clock : Z -> Q)
    (self : ContractableBOSS series) (X : ndarray3 series)
    (y : list label) :
  (0 < shape2 X)%nat ->
  (snd (_fit fit_boss check_random_state randint choice clock self X y)
   = Raise ValueError
   <-> min_window self
       > max_window_of (shape2 X) (max_win_len_prop self) + 1)
  /\ (snd (_fit fit_boss check_random_state randint choice clock self X y)
      = Raise ValueError ->
      fst (_fit fit_boss check_random_state randint choice clock self X y)
      = [])
  /\ (max_win_len_prop self = 1%Q -> Z.of_nat (shape2 X) <= 2 ^ 53 ->
      max_window_of (shape2 X) (max_win_len_prop self)
      = Z.of_nat (shape2 X))
  /\ (shape2 X = 24%nat -> max_win_len_prop self = 1%Q ->
      min_window self = 26 ->
      max_window_of (shape2 X) (max_win_len_prop self) = 24
      /\ _fit fit_boss check_random_state randint choice clock self X y
         = ([], Raise ValueError)).
Proof.
  intros Hlen.
  assert (Hiff :
    snd (_fit fit_boss check_random_state randint choice clock self X y)
    = Raise ValueError
    <-> min_window self
        > max_window_of (shape2 X) (max_win_len_prop self) + 1).
  { split.
    - intros H.
      destruct (Z_le_gt_dec (min_window self)
                  (max_window_of (shape2 X) (max_win_len_prop self) + 1))
        as [Hle | Hgt]; [|assumption].
      exfalso. revert H. now apply fit_accepts.
    - intros H. rewrite fit_rejects by (assumption || lia). reflexivity. }
  split; [exact Hiff|]. split; [|split].
  - intros H. apply Hiff in H. rewrite fit_rejects by (assumption || lia).
    reflexivity.
  - intros Hprop Hbig. rewrite Hprop. now apply max_window_unit.
  - intros H24 Hprop Hmin.
    assert (Hmax : max_window_of (shape2 X) (max_win_len_prop self) = 24)
      by (rewrite H24, Hprop; vm_compute; reflexivity).
    split; [exact Hmax|]. apply fit_rejects; [assumption|lia].
Qed.

Lemma fit_configuration_error_witness :
  (0 < shape2 toy_X)%nat
  /\ min_window (init nat 250 50 1 26 0 1 0)
     > max_window_of (shape2 toy_X)
         (max_win_len_prop (init nat 250 50 1 26 0 1 0)) + 1
  /\ snd (toy_fit fast_clock (init nat 250 50 1 26 0 1 0))
     = Raise ValueError
  /\ fst (toy_fit fast_clock (init nat 250 50 1 26 0 1 0)) = []
  /\ max_window_of (shape2 toy_X)
       (max_win_len_prop (init nat 250 50 1 26 0 1 0))
     = Z.of_nat (shape2 toy_X)
  /\ max_window_of (shape2 toy_X)
       (max_win_len_prop (init nat 250 50 1 26 0 1 0)) = 24
  /\ toy_fit fast_clock (init nat 250 50 1 26 0 1 0)
     = ([], Raise ValueError).
Proof.
  assert (H0 : (0 < shape2 toy_X)%nat) by (cbn; lia).
  destruct (fit_configuration_error toy_fit_boss toy_check_random_state
              toy_randint toy_choice fast_clock
              (init nat 250 50 1 26 0 1 0) toy_X toy_labels H0)
    as (Hiff & Hfst & Hunit & Hscenario).
  assert (He : snd (toy_fit fast_clock (init nat 250 50 1 26 0 1 0))
               = Raise ValueError)
    by (apply Hiff; vm_compute; reflexivity).
  split; [exact H0|]. split; [vm_compute; reflexivity|]. split; [exact He|].
  split; [exact (Hfst He)|].
  split; [apply Hunit; [reflexivity | vm_compute; discriminate]|].
  apply Hscenario; reflexivity.
Defined.

(** ** The empty window range *)

Lemma flat_map_nil_l {A B : Type} (f : A -> list B) (l : list A) :
  (forall a, f a = []) -> flat_map f l = [].
Proof.
  intros Hf. induction l as [|a l IH]; cbn; [reflexivity|].
  now rewrite Hf, IH.
Qed.

Lemma unique_parameters_empty {series} (self : ContractableBOSS series)
    (max_window win_inc : Z) :
  min_window self = max_window + 1 ->
  _unique_parameters self max_window win_inc = [].
Proof.
  intros H. unfold _unique_parameters. apply flat_map_nil_l. intros b.
  unfold py_range.
  now replace (max_window + 1 <=? min_window self) with true
    by (symmetry; apply Z.leb_le; lia).
Qed.

Lemma map_map_repeat {A B : Type} (f : A -> B) (a : A) (n m : nat) :
  map (map f) (repeat (repeat a n) m) = repeat (repeat (f a) n) m.
Proof.
  now rewrite !map_repeat.
Qed.

Lemma nan_row_not_distribution (n : nat) : ~ is_distribution (repeat NaN n).
Proof.
  intros (qs & Hrow & _ & Hsum). destruct n as [|n]; cbn in Hrow.
  - destruct qs; [|discriminate]. cbn in Hsum. discriminate.
  - destruct qs; discriminate.
Qed.

(** C10, as the claim states it, fails in two ways.  On a series of
    length 0 with [max_win_len_prop = 1] the maximum window is 0 and
    [min_window = 1] is at the boundary, yet [_fit] raises
    [ZeroDivisionError] at line 195.  With series length 90 and
    [max_win_len_prop = 0.7] the floor of the product is 63 and
    [min_window = 64] is at the claimed boundary, yet line 194 computes 62
    on floats and [_fit] raises the configuration error. *)
Lemma fit_boundary_counterexample :
  (min_window (init nat 250 50 1 1 0 1 0)
   = Qfloor (inject_Z (Z.of_nat (shape2 toy_X_empty_series))
             * max_win_len_prop (init nat 250 50 1 1 0 1 0)) + 1
   /\ min_window (init nat 250 50 1 1 0 1 0)
      = max_window_of (shape2 toy_X_empty_series)
          (max_win_len_prop (init nat 250 50 1 1 0 1 0)) + 1
   /\ _fit toy_fit_boss toy_check_random_state toy_randint toy_choice
        fast_clock (init nat 250 50 1 1 0 1 0) toy_X_empty_series
        toy_labels
      = ([], Raise ZeroDivisionError))
  /\ (min_window (init nat 250 50 (7 # 10) 64 0 1 0)
      = Qfloor (inject_Z (Z.of_nat (shape2 toy_X_long))
                * max_win_len_prop (init nat 250 50 (7 # 10) 64 0 1 0)) + 1
      /\ max_window_of (shape2 toy_X_long)
           (max_win_len_prop (init nat 250 50 (7 # 10) 64 0 1 0)) = 62
      /\ _fit toy_fit_boss toy_check_random_state toy_randint toy_choice
           fast_clock (init nat 250 50 (7 # 10) 64 0 1 0) toy_X_long
           toy_labels
         = ([], Raise ValueError)).
Proof.
  split; (split; [vm_compute; reflexivity|]);
    (split; vm_compute; reflexivity).
Qed.

(** C10 (amended). On a series of positive length, at the boundary
    [min_window = max_window + 1], where [max_window] is the value that
    line 194 computes on floats (for instance [min_window = 25] with
    series length 24 and [max_win_len_prop = 1]), [_fit] raises nothing:
    no base learner is fitted, and the fitted ensemble has no member and
    weight sum 0.  [_predict_proba] then divides its zero buckets by that
    zero weight sum: every entry is [nan] and no output row is a
    probability distribution. *)
Theorem fit_boundary_empty_ensemble {series RandomState : Type}
    (fit_boss : Z -> Z -> bool -> Z -> Z -> list series -> list label ->
                (nat -> label) * (series -> label))
    (check_random_state : Z -> RandomState)
    (randint : RandomState -> Z -> Z -> Z * RandomState)
    (choice : RandomState -> nat -> nat -> list nat * RandomState)
    (clock : Z -> Q)
    (self : ContractableBOSS series) (X : ndarray3 series)
    (y : list label) :
  (0 < shape2 X)%nat ->
  min_window self = max_window_of (shape2 X) (max_win_len_prop self) + 1 ->
  exists fitted,
    _fit fit_boss check_random_state randint choice clock self X y
    = ([], Ok fitted)
    /\ classifiers fitted = [] /\ weights fitted = []
    /\ n_estimators fitted = 0%nat /\ weight_sum fitted = 0%Q
    /\ forall Xt : ndarray3 series,
         _predict_proba fitted Xt
         = Ok (repeat (repeat NaN (n_classes fitted))
                 (length (instances Xt)))
         /\ forall row,
              In row (repeat (repeat NaN (n_classes fitted))
                        (length (instances Xt))) ->
              ~ is_distribution row.
Proof.
  intros Hlen Hmin. unfold _fit.
  rewrite series_quarter_nonzero by assumption.
  replace (_ + 1 <? min_window self) with false
    by (symmetry; apply Z.ltb_ge; lia).
  rewrite unique_parameters_empty by assumption.
  cbn [length search_loop]. unfold continue at 1.
  cbn [possible_parameters length]. rewrite andb_false_r.
  eexists. split; [reflexivity|]. cbn.
  repeat split.
  - unfold _predict_proba. cbn. now rewrite map_map_repeat.
  - intros row Hin. apply repeat_spec in Hin as ->.
    apply nan_row_not_distribution.
Qed.

Lemma fit_boundary_empty_ensemble_witness :
  (0 < shape2 toy_X)%nat
  /\ min_window (init nat 250 50 1 25 0 1 0)
     = max_window_of (shape2 toy_X)
         (max_win_len_prop (init nat 250 50 1 25 0 1 0)) + 1
  /\ exists fitted,
       toy_fit fast_clock (init nat 250 50 1 25 0 1 0) = ([], Ok fitted)
       /\ classifiers fitted = [] /\ weights fitted = []
       /\ n_estimators fitted = 0%nat /\ weight_sum fitted = 0%Q
       /\ forall Xt : ndarray3 nat,
            _predict_proba fitted Xt
            = Ok (repeat (repeat NaN (n_classes fitted))
                    (length (instances Xt)))
            /\ forall row,
                 In row (repeat (repeat NaN (n_classes fitted))
                           (length (instances Xt))) ->
                 ~ is_distribution row.
Proof.
  assert (H0 : (0 < shape2 toy_X)%nat) by (cbn; lia).
  split; [exact H0|]. split; [vm_compute; reflexivity|].
  apply (fit_boundary_empty_ensemble toy_fit_boss toy_check_random_state
           toy_randint toy_choice fast_clock (init nat 250 50 1 25 0 1 0)
           toy_X toy_labels H0).
  vm_compute. reflexivity.
Defined.

(** ** The stopping rule of the search loop *)

Section StoppingRule.

Context {series : Type}.
Variable fit_boss :
  Z -> Z -> bool -> Z -> Z -> list series -> list label ->
  (nat -> label) * (series -> label).
Context {RandomState : Type}.
Variable check_random_state : Z -> RandomState.
Variable randint : RandomState -> Z -> Z -> Z * RandomState.
Variable choice : RandomState -> nat -> nat -> list nat * RandomState.
Variable clock : Z -> Q.

(** Every pass the loop makes was allowed by its condition: before the
    pass that tries candidate number [k + 1], the time budget or the
    candidate target was still unmet. *)
Lemma search_loop_times (self : ContractableBOSS series) (time_limit : Q)
    (X : ndarray3 series) (y : list label) (subsample_size : nat)
    (fuel : nat) :
  forall (st st' : search_state series RandomState) (tr : list parameters),
    0 <= num_classifiers st ->
    train_time st = elapsed clock (num_classifiers st) ->
    search_loop fit_boss randint choice clock fuel self time_limit X y
      subsample_size st = (tr, Ok st') ->
    train_time st' = elapsed clock (num_classifiers st')
    /\ forall k, num_classifiers st <= k < num_classifiers st' ->
         (elapsed clock k < time_limit)%Q \/ k < n_parameter_samples self.
Proof.
  induction fuel as [|fuel IH]; intros st st' tr Hnum Htime Hloop.
  - cbn in Hloop. destruct (continue self time_limit st);
      injection Hloop as <- <-; (split; [assumption|intros k Hk; lia]).
  - cbn [search_loop] in Hloop.
    destruct (continue self time_limit st) eqn:Ec.
    + destruct (search_step _ _ _ _ _ _ _ _ _) as [tr1 [st1|e]] eqn:Estep;
        [|discriminate].
      destruct (search_loop _ _ _ _ _ _ _ _ _ _ st1) as [tr2 r] eqn:Erec.
      injection Hloop as <- ->.
      apply search_step_ok in Estep as (_ & _ & Hnum1 & Htime1 & _).
      apply IH in Erec as (Ht & Hk).
      * split; [assumption|]. intros k Hrange.
        destruct (Z.eq_dec k (num_classifiers st)) as [-> | Hne].
        -- unfold continue in Ec. apply andb_true_iff in Ec as [Ec _].
           apply orb_true_iff in Ec as [Ec | Ec].
           ++ left. rewrite <- Htime. now apply Qlt_bool_iff.
           ++ right. now apply Z.ltb_lt.
        -- apply Hk. lia.
      * lia.
      * rewrite Htime1, Hnum1. unfold elapsed.
        now replace (num_classifiers st + 1 =? 0) with false
          by (symmetry; apply Z.eqb_neq; lia).
    + injection Hloop as <- <-. split; [assumption|intros k Hk; lia].
Qed.

(** A fit that returns stopped its loop because the condition failed:
    the number of candidates tried, the clock and the grid are related as
    the [while] condition says. *)
Lemma fit_stopping_rule (self fitted : ContractableBOSS series)
    (X : ndarray3 series) (y : list label) (tr : list parameters) :
  _fit fit_boss check_random_state randint choice clock self X y
  = (tr, Ok fitted) ->
  let time_limit := (time_limit_in_minutes self * 60)%Q in
  let target :=
    if Qlt_bool 0 time_limit then 0 else n_parameter_samples self in
  let tried := Z.of_nat (length tr) in
  n_parameter_samples fitted = target
  /\ (length tr <= length (parameter_grid self X))%nat
  /\ ((time_limit <= elapsed clock tried)%Q /\ target <= tried
      \/ length tr = length (parameter_grid self X))
  /\ forall k, 0 <= k < tried ->
       (elapsed clock k < time_limit)%Q \/ k < target.
Proof.
  unfold _fit.
  destruct (Qeq_bool (max_window_searches_of (shape2 X)) 0);
    [intros H; discriminate|].
  destruct (max_window_of _ _ + 1 <? min_window self);
    [intros H; discriminate|].
  match goal with
  | |- context [search_loop ?f ?ri ?ch ?cl ?fu ?s1 ?tl ?X ?y ?ss ?s0] =>
      destruct (search_loop f ri ch cl fu s1 tl X y ss s0) as [tr' [st'|e]]
        eqn:Eloop; [|intros H; discriminate]
  end.
  intros H. injection H as <- <-. cbn zeta. cbn [n_parameter_samples].
  pose proof Eloop as Eloop2.
  apply search_loop_ok in Eloop as (Hc & _ & Hnum & Hlen);
    [|cbn; lia|apply ensemble_inv_init].
  apply search_loop_times in Eloop2 as (Ht & Hk); [|cbn; lia|reflexivity].
  cbn [num_classifiers possible_parameters n_parameter_samples] in *.
  fold (parameter_grid self X) in *.
  rewrite Z.add_0_l in Hnum. rewrite Hnum in *.
  split; [reflexivity|]. split; [lia|]. split; [|exact Hk].
  unfold continue in Hc. cbn [n_parameter_samples] in Hc.
  apply andb_false_iff in Hc as [Hc | Hc].
  - left. apply orb_false_iff in Hc as [Hc1 Hc2].
    apply Qlt_bool_false_iff in Hc1. apply Z.ltb_ge in Hc2.
    rewrite Ht in Hc1. rewrite Hnum in Hc2. split; assumption.
  - right. apply Nat.ltb_ge in Hc. lia.
Qed.

End StoppingRule.

Lemma fit_target_ignored {series RandomState : Type}
    (fit_boss : Z -> Z -> bool -> Z -> Z -> list series -> list label ->
                (nat -> label) * (series -> label))
    (check_random_state : Z -> RandomState)
    (randint : RandomState -> Z -> Z -> Z * RandomState)
    (choice : RandomState -> nat -> nat -> list nat * RandomState)
    (clock : Z -> Q)
    (n n' max_size : Z) (prop : Q) (min_win : Z) (minutes : Q)
    (jobs seed : Z) (X : ndarray3 series) (y : list label) :
  (0 < minutes)%Q ->
  _fit fit_boss check_random_state randint choice clock
    (init series n max_size prop min_win minutes jobs seed) X y
  = _fit fit_boss check_random_state randint choice clock
      (init series n' max_size prop min_win minutes jobs seed) X y.
Proof.
  intros Hpos. unfold _fit. cbn -[Qlt_bool Qeq_bool search_loop Qmult].
  replace (Qlt_bool 0 (minutes * 60)) with true
    by (symmetry; apply Qlt_bool_iff; lra).
  reflexivity.
Qed.

(** C4 (amended). When the constructor configures a positive
    [time_limit_in_minutes], [_fit] forces the candidate target to zero,
    whatever [n_parameter_samples] was configured: the search loop runs
    while the elapsed time is below the budget and stops at the first
    check at which the budget is reached or the grid is exhausted, and
    the configured [n_parameter_samples] has no influence on the
    result. *)
Theorem fit_time_boxed {series RandomState : Type}
    (fit_boss : Z -> Z -> bool -> Z -> Z -> list series -> list label ->
                (nat -> label) * (series -> label))
    (check_random_state : Z -> RandomState)
    (randint : RandomState -> Z -> Z -> Z * RandomState)
    (choice : RandomState -> nat -> nat -> list nat * RandomState)
    (clock : Z -> Q)
    (n max_size : Z) (prop : Q) (min_win : Z) (minutes : Q)
    (jobs seed : Z) (X : ndarray3 series) (y : list label)
    (tr : list parameters) (fitted : ContractableBOSS series) :
  (0 < minutes)%Q ->
  _fit fit_boss check_random_state randint choice clock
    (init series n max_size prop min_win minutes jobs seed) X y
  = (tr, Ok fitted) ->
  n_parameter_samples fitted = 0
  /\ ((minutes * 60 <= elapsed clock (Z.of_nat (length tr)))%Q
      \/ length tr
         = length (parameter_grid
                     (init series n max_size prop min_win minutes jobs seed)
                     X))
  /\ (forall k, 0 <= k < Z.of_nat (length tr) ->
        (elapsed clock k < minutes * 60)%Q)
  /\ (forall n',
        _fit fit_boss check_random_state randint choice clock
          (init series n' max_size prop min_win minutes jobs seed) X y
        = (tr, Ok fitted)).
Proof.
  intros Hpos Hfit.
  pose proof (fit_stopping_rule _ _ _ _ _ _ _ _ _ _ Hfit) as Hrule.
  cbn zeta in Hrule. cbn [time_limit_in_minutes init] in Hrule.
  replace (Qlt_bool 0 (minutes * 60)) with true in Hrule
    by (symmetry; apply Qlt_bool_iff; lra).
  destruct Hrule as (Hn & _ & Hstop & Hrun).
  split; [exact Hn|]. split; [|split].
  - destruct Hstop as [[Ht _] | Hg]; [now left | now right].
  - intros k Hk. destruct (Hrun k Hk) as [H | H]; [exact H | lia].
  - intros n'. rewrite <- Hfit. now apply fit_target_ignored.
Qed.

Lemma fit_time_boxed_witness :
  exists tr fitted,
    (0 < 1)%Q
    /\ toy_fit slow_clock toy_timed_config = (tr, Ok fitted)
    /\ n_parameter_samples fitted = 0
    /\ ((1 * 60 <= elapsed slow_clock (Z.of_nat (length tr)))%Q
        \/ length tr = length (parameter_grid toy_timed_config toy_X))
    /\ (forall k, 0 <= k < Z.of_nat (length tr) ->
          (elapsed slow_clock k < 1 * 60)%Q)
    /\ (forall n',
          toy_fit slow_clock (init nat n' 50 1 10 1 1 0) = (tr, Ok fitted)).
Proof.
  do 2 eexists. split; [reflexivity|].
  split; [vm_compute; reflexivity|].
  eapply (fit_time_boxed toy_fit_boss toy_check_random_state toy_randint
            toy_choice slow_clock 250 50 1 10 1 1 0 toy_X toy_labels);
    [reflexivity | vm_compute; reflexivity].
Defined.

(** C4 as stated fails: with a one-minute budget and a target of 250
    candidates, on a clock where the first candidate takes a hundred
    seconds, the loop stops after one candidate, with the target unmet
    and 79 candidates left in the grid. *)
Lemma time_budget_alone_stops_counterexample :
  exists tr fitted,
    (0 < time_limit_in_minutes toy_timed_config)%Q
    /\ 0 < n_parameter_samples toy_timed_config
    /\ toy_fit slow_clock toy_timed_config = (tr, Ok fitted)
    /\ ~ ((time_limit_in_minutes toy_timed_config * 60
           <= elapsed slow_clock (Z.of_nat (length tr)))%Q
          /\ n_parameter_samples toy_timed_config <= Z.of_nat (length tr)
          \/ length tr = length (parameter_grid toy_timed_config toy_X)).
Proof.
  do 2 eexists. split; [reflexivity|]. split; [reflexivity|].
  split; [vm_compute; reflexivity|].
  intros [[_ H] | H]; vm_compute in H; [now apply H | discriminate].
Qed.

(** ** Runs under two clocks *)

Section TwoClocks.

Context {series : Type}.
Variable fit_boss :
  Z -> Z -> bool -> Z -> Z -> list series -> list label ->
  (nat -> label) * (series -> label).
Context {RandomState : Type}.
Variable check_random_state : Z -> RandomState.
Variable randint : RandomState -> Z -> Z -> Z * RandomState.
Variable choice : RandomState -> nat -> nat -> list nat * RandomState.
Variable choice_of : RandomState -> list nat -> result nat * RandomState.
Variables clock1 clock2 : Z -> Q.
Variable time_limit : Q.

Hypothesis Hagree : agree_on_budget clock1 clock2 time_limit.

Lemma search_step_two_clocks (self : ContractableBOSS series)
    (X : ndarray3 series) (y : list label) (subsample_size : nat)
    (s1 s2 : search_state series RandomState) :
  same_but_time time_limit s1 s2 ->
  match
    search_step fit_boss randint choice clock1 self X y subsample_size s1,
    search_step fit_boss randint choice clock2 self X y subsample_size s2
  with
  | (tr1, Ok s1'), (tr2, Ok s2') =>
      tr1 = tr2 /\ same_but_time time_limit s1' s2'
  | (tr1, Raise e1), (tr2, Raise e2) => tr1 = tr2 /\ e1 = e2
  | _, _ => False
  end.
Proof.
  destruct s1 as [pp1 n1 t1 lo1 li1 r1 cs1 ws1].
  destruct s2 as [pp2 n2 t2 lo2 li2 r2 cs2 ws2].
  intros (Hpp & Hn0 & Hn & Ht & Hlo & Hli & Hr & Hcs & Hws).
  cbn in Hpp, Hn0, Hn, Ht, Hlo, Hli, Hr, Hcs, Hws. subst.
  unfold search_step. cbn [possible_parameters num_classifiers lowest_acc
    lowest_acc_idx rng st_classifiers st_weights].
  destruct (randint _ _ _) as [k rng1].
  destruct (py_pop _ _) as [[params remaining]|]; [|now split].
  destruct (choice _ _ _) as [sub rng2].
  destruct (np_take (instances X) sub) as [Xs|]; [|now split].
  destruct (np_take y sub) as [ys|]; [|now split].
  destruct params as [[win_size word_len] normalise].
  destruct (fit_boss _ _ _ _ _ _ _) as [tp pr].
  destruct (_individual_train_acc _ _ _ _ _) as [acc|]; [|now split].
  cbn [bind].
  destruct (retain _ _ _ _ _ _ _ _) as [[[[cs' ws'] low'] idx']|];
    [|now split].
  cbn [bind]. split; [reflexivity|].
  unfold same_but_time. cbn. repeat split; [lia|]. apply Hagree. lia.
Qed.

Lemma continue_two_clocks (self : ContractableBOSS series)
    (s1 s2 : search_state series RandomState) :
  same_but_time time_limit s1 s2 ->
  continue self time_limit s1 = continue self time_limit s2.
Proof.
  intros (Hpp & _ & Hn & Ht & _). unfold continue. now rewrite Hpp, Hn, Ht.
Qed.

Lemma search_loop_two_clocks (self : ContractableBOSS series)
    (X : ndarray3 series) (y : list label) (subsample_size : nat)
    (fuel : nat) :
  forall s1 s2 : search_state series RandomState,
    same_but_time time_limit s1 s2 ->
    match
      search_loop fit_boss randint choice clock1 fuel self time_limit X y
        subsample_size s1,
      search_loop fit_boss randint choice clock2 fuel self time_limit X y
        subsample_size s2
    with
    | (tr1, Ok s1'), (tr2, Ok s2') =>
        tr1 = tr2 /\ same_but_time time_limit s1' s2'
    | (tr1, Raise e1), (tr2, Raise e2) => tr1 = tr2 /\ e1 = e2
    | _, _ => False
    end.
Proof.
  induction fuel as [|fuel IH]; intros s1 s2 Hsame; cbn [search_loop];
    rewrite <- (continue_two_clocks self s1 s2 Hsame);
    destruct (continue self time_limit s1); try (now split).
  pose proof (search_step_two_clocks self X y subsample_size s1 s2 Hsame)
    as Hstep.
  destruct (search_step _ _ _ clock1 _ _ _ _ _) as [tr1 [s1'|e1]];
    destruct (search_step _ _ _ clock2 _ _ _ _ _) as [tr2 [s2'|e2]];
    try contradiction; [|exact Hstep].
  destruct Hstep as [-> Hsame'].
  specialize (IH s1' s2' Hsame').
  destruct (search_loop _ _ _ clock1 _ _ _ _ _ _ s1') as [tr1' [s1''|e1]];
    destruct (search_loop _ _ _ clock2 _ _ _ _ _ _ s2') as [tr2' [s2''|e2]];
    try contradiction.
  - destruct IH as [-> H]. now split.
  - destruct IH as [-> ->]. now split.
Qed.

End TwoClocks.

Lemma same_but_time_refl {series RandomState : Type} (time_limit : Q)
    (s : search_state series RandomState) :
  0 <= num_classifiers s -> same_but_time time_limit s s.
Proof. intros H. unfold same_but_time. repeat split. exact H. Qed.

Lemma fit_two_clocks {series RandomState : Type}
    (fit_boss : Z -> Z -> bool -> Z -> Z -> list series -> list label ->
                (nat -> label) * (series -> label))
    (check_random_state : Z -> RandomState)
    (randint : RandomState -> Z -> Z -> Z * RandomState)
    (choice : RandomState -> nat -> nat -> list nat * RandomState)
    (clock1 clock2 : Z -> Q)
    (self : ContractableBOSS series) (X : ndarray3 series)
    (y : list label) :
  agree_on_budget clock1 clock2 (time_limit_in_minutes self * 60) ->
  _fit fit_boss check_random_state randint choice clock1 self X y
  = _fit fit_boss check_random_state randint choice clock2 self X y.
Proof.
  intros Hagree. unfold _fit.
  destruct (Qeq_bool _ 0); [reflexivity|].
  destruct (_ <? min_window self); [reflexivity|].
  match goal with
  | |- context [search_loop ?f ?ri ?ch clock1 ?fu ?s1 ?tl ?X ?y ?ss ?s0] =>
      pose proof (search_loop_two_clocks f ri ch clock1 clock2 tl Hagree
                    s1 X y ss fu s0 s0
                    (same_but_time_refl tl s0 (Z.le_refl 0))) as Hloop;
      destruct (search_loop f ri ch clock1 fu s1 tl X y ss s0)
        as [tr1 [s1'|e1]];
      destruct (search_loop f ri ch clock2 fu s1 tl X y ss s0)
        as [tr2 [s2'|e2]]
  end; try contradiction.
  - destruct Hloop as [-> (_ & _ & _ & _ & _ & _ & _ & Hcs & Hws)].
    now rewrite Hcs, Hws.
  - destruct Hloop as [-> ->]. reflexivity.
Qed.

Lemma no_budget_agree (clock1 clock2 : Z -> Q) (time_limit : Q) :
  (time_limit <= 0)%Q ->
  (forall k, 0 < k -> (0 <= clock1 k)%Q) ->
  (forall k, 0 < k -> (0 <= clock2 k)%Q) ->
  agree_on_budget clock1 clock2 time_limit.
Proof.
  intros Hl H1 H2 k Hk. specialize (H1 k Hk). specialize (H2 k Hk).
  replace (Qlt_bool (clock1 k) time_limit) with false
    by (symmetry; apply Qlt_bool_false_iff; lra).
  symmetry. apply Qlt_bool_false_iff. lra.
Qed.

(** C9 (amended). For a fixed integer [random_state], a configuration
    and identical training and test data, two runs of fit and predict
    give identical results (the same fitted object, hence the same
    retained parameters, subsamples, accuracies and weights in the same
    positions, and the same label predictions and probability matrices)
    provided the two runs see the time budget exhausted at the same
    checks; this is so in particular when no time budget is configured
    ([time_limit_in_minutes = 0]) and the elapsed time that either run
    reads is never negative. *)
Theorem fit_predict_deterministic {series RandomState : Type}
    (fit_boss : Z -> Z -> bool -> Z -> Z -> list series -> list label ->
                (nat -> label) * (series -> label))
    (check_random_state : Z -> RandomState)
    (randint : RandomState -> Z -> Z -> Z * RandomState)
    (choice : RandomState -> nat -> nat -> list nat * RandomState)
    (choice_of : RandomState -> list nat -> result nat * RandomState)
    (predict_proba : ContractableBOSS series -> ndarray3 series ->
                     result (list (list npfloat)))
    (clock1 clock2 : Z -> Q)
    (self : ContractableBOSS series) (X Xtest : ndarray3 series)
    (y : list label) :
  agree_on_budget clock1 clock2 (time_limit_in_minutes self * 60)
  \/ ((time_limit_in_minutes self == 0)%Q
      /\ (forall k, 0 < k -> (0 <= clock1 k)%Q)
      /\ (forall k, 0 < k -> (0 <= clock2 k)%Q)) ->
  _fit fit_boss check_random_state randint choice clock1 self X y
  = _fit fit_boss check_random_state randint choice clock2 self X y
  /\ (let* fitted :=
        snd (_fit fit_boss check_random_state randint choice clock1 self X y)
      in _predict check_random_state choice_of predict_proba fitted Xtest)
     = (let* fitted :=
          snd (_fit fit_boss check_random_state randint choice clock2 self
                 X y)
        in _predict check_random_state choice_of predict_proba fitted Xtest)
  /\ (let* fitted :=
        snd (_fit fit_boss check_random_state randint choice clock1 self X y)
      in predict_proba fitted Xtest)
     = (let* fitted :=
          snd (_fit fit_boss check_random_state randint choice clock2 self
                 X y)
        in predict_proba fitted Xtest)
  /\ (let* fitted :=
        snd (_fit fit_boss check_random_state randint choice clock1 self X y)
      in _predict_proba fitted Xtest)
     = (let* fitted :=
          snd (_fit fit_boss check_random_state randint choice clock2 self
                 X y)
        in _predict_proba fitted Xtest).
Proof.
  intros H.
  assert (Hagree :
    agree_on_budget clock1 clock2 (time_limit_in_minutes self * 60)).
  { destruct H as [H | (H0 & H1 & H2)]; [exact H|].
    apply no_budget_agree; [rewrite H0; lra | exact H1 | exact H2]. }
  rewrite (fit_two_clocks fit_boss check_random_state randint choice
             clock1 clock2 self X y Hagree).
  repeat split.
Qed.

Lemma fit_predict_deterministic_witness :
  ((time_limit_in_minutes toy_config == 0)%Q
   /\ (forall k, 0 < k -> (0 <= fast_clock k)%Q)
   /\ (forall k, 0 < k -> (0 <= slow_clock k)%Q))
  /\ toy_fit fast_clock toy_config = toy_fit slow_clock toy_config.
Proof.
  assert (H : (time_limit_in_minutes toy_config == 0)%Q
              /\ (forall k, 0 < k -> (0 <= fast_clock k)%Q)
              /\ (forall k, 0 < k -> (0 <= slow_clock k)%Q)).
  { split; [reflexivity|]. split; intros k Hk.
    - unfold fast_clock. change 0%Q with (inject_Z 0).
      rewrite <- Zle_Qle. lia.
    - unfold slow_clock. change 0%Q with (inject_Z 0).
      rewrite <- Zle_Qle. lia. }
  split; [exact H|].
  apply (fit_predict_deterministic toy_fit_boss toy_check_random_state
           toy_randint toy_choice toy_choice_of toy_predict_proba
           fast_clock slow_clock toy_config toy_X toy_X toy_labels
           (or_intror H)).
Defined.

(** C9 as stated fails: with the same seed and data and a one-minute
    time budget, a run on the fast clock retains fifty members and a run
    on the slow clock retains one. *)
Lemma time_boxed_runs_differ_counterexample :
  exists tr1 tr2 fitted1 fitted2,
    toy_fit fast_clock toy_timed_config = (tr1, Ok fitted1)
    /\ toy_fit slow_clock toy_timed_config = (tr2, Ok fitted2)
    /\ random_state fitted1 = random_state fitted2
    /\ n_estimators fitted1 = 50%nat
    /\ n_estimators fitted2 = 1%nat
    /\ fitted1 <> fitted2.
Proof.
  do 4 eexists.
  split; [vm_compute; reflexivity|].
  split; [vm_compute; reflexivity|].
  split; [reflexivity|]. split; [reflexivity|]. split; [reflexivity|].
  intros H. apply (f_equal n_estimators) in H. discriminate H.
Qed.

(** ** Sums of rationals *)

Lemma fold_left_Qplus_shift (l : list Q) (a : Q) :
  (fold_left Qplus l a == a + fold_left Qplus l 0)%Q.
Proof.
  revert a. induction l as [|x l IH]; intros a; cbn [fold_left].
  - ring.
  - rewrite (IH (a + x)%Q), (IH (0 + x)%Q). ring.
Qed.

Lemma np_sum_cons (a : Q) (l : list Q) :
  (np_sum (a :: l) == a + np_sum l)%Q.
Proof.
  unfold np_sum. cbn [fold_left].
  rewrite fold_left_Qplus_shift. ring.
Qed.

Lemma np_sum_map_ext {A : Type} (f g : A -> Q) (l : list A) :
  (forall a, In a l -> (f a == g a)%Q) ->
  (np_sum (map f l) == np_sum (map g l))%Q.
Proof.
  induction l as [|a l IH]; intros H; [reflexivity|].
  cbn [map]. rewrite !np_sum_cons.
  rewrite (H a) by now left.
  rewrite IH; [reflexivity|]. intros b Hb. apply H. now right.
Qed.

Lemma np_sum_map_plus {A : Type} (f g : A -> Q) (l : list A) :
  (np_sum (map (fun a => f a + g a) l)
   == np_sum (map f l) + np_sum (map g l))%Q.
Proof.
  induction l as [|a l IH]; [reflexivity|].
  cbn [map]. rewrite !np_sum_cons, IH. ring.
Qed.

Lemma np_sum_map_div {A : Type} (f : A -> Q) (d : Q) (l : list A) :
  (np_sum (map (fun a => f a / d) l) == np_sum (map f l) / d)%Q.
Proof.
  induction l as [|a l IH]; [reflexivity|].
  cbn [map]. rewrite !np_sum_cons, IH. unfold Qdiv. ring.
Qed.

Lemma np_sum_map_zero {A : Type} (f : A -> Q) (l : list A) :
  (forall a, In a l -> (f a == 0)%Q) -> (np_sum (map f l) == 0)%Q.
Proof.
  induction l as [|a l IH]; intros H; [reflexivity|].
  cbn [map]. rewrite np_sum_cons, (H a) by now left.
  rewrite IH; [ring|]. intros b Hb. apply H. now right.
Qed.

(** Exactly one index of a range carries the weight. *)
Lemma np_sum_indicator (P : nat -> Prop) `{forall k, Decision (P k)}
    (w : Q) (k0 s n : nat) :
  (forall k, P k <-> k = k0) ->
  (s <= k0 < s + n)%nat ->
  (np_sum (map (fun k => if decide (P k) then w else 0) (seq s n)) == w)%Q.
Proof.
  intros HP. revert s. induction n as [|n IH]; intros s Hr; [lia|].
  cbn [seq map]. rewrite np_sum_cons.
  destruct (decide (P s)) as [Hs | Hs].
  - apply HP in Hs. subst s.
    rewrite np_sum_map_zero; [ring|].
    intros k Hk. apply in_seq in Hk.
    destruct (decide (P k)) as [Hk' | _]; [|reflexivity].
    apply HP in Hk'. lia.
  - assert (s <> k0) by (intros ->; apply Hs; now apply HP).
    rewrite IH by lia. ring.
Qed.

(** ** The loops of [_predict_proba] *)

Lemma lookup_map {A B : Type} (f : A -> B) (l : list A) (i : nat) :
  map f l !! i = f <$> l !! i.
Proof.
  revert i. induction l as [|a l IH]; intros [|i]; cbn; try reflexivity.
  apply IH.
Qed.

Lemma row_vote_length {series} (self : ContractableBOSS series)
    (clf : IndividualBOSS series) (w : Q) (x : series) (r : list Q) :
  length (row_vote self clf w x r) = length r.
Proof.
  unfold row_vote. destruct (_ !! predict1 clf x) as [k|]; [|reflexivity].
  destruct (r !! k); [apply length_insert | reflexivity].
Qed.

Section ProbaLoops.

Context {series : Type}.
Variable self : ContractableBOSS series.
Variable X : list series.

Lemma proba_inner_spec (clf : IndividualBOSS series) (n : nat) (w : Q)
    (len : nat) :
  votes_in_range self X clf ->
  weights self !! n = Some w ->
  forall (i0 : nat) (sums : list (list Q)),
    (i0 + len = length X)%nat ->
    length sums = length X ->
    Forall (fun r => length r = n_classes self) sums ->
    proba_inner self (map (predict1 clf) X) n (seq i0 len) sums
    = Ok (take i0 sums
          ++ zip_with (row_vote self clf w) (drop i0 X) (drop i0 sums)).
Proof.
  intros Hvotes Hw. induction len as [|len IH]; intros i0 sums Hi Hlen Hrows.
  - cbn [seq proba_inner].
    rewrite (drop_ge X) by lia. cbn.
    now rewrite take_ge, app_nil_r by lia.
  - cbn [seq proba_inner].
    destruct (X !! i0) as [x|] eqn:Hx;
      [|apply lookup_ge_None in Hx; lia].
    destruct (sums !! i0) as [r|] eqn:Hr;
      [|apply lookup_ge_None in Hr; lia].
    rewrite lookup_map, Hx. cbn [fmap option_fmap option_map of_option bind].
    destruct (Hvotes x) as (k & Hk & Hkn).
    { apply list_elem_of_In. eapply list_elem_of_lookup_2. exact Hx. }
    rewrite Hk, Hw. cbn [of_option bind].
    assert (Hrlen : length r = n_classes self).
    { eapply (proj1 (Forall_lookup _ _) Hrows). exact Hr. }
    destruct (r !! k) as [v|] eqn:Hv;
      [|apply lookup_ge_None in Hv; lia].
    unfold add_at2. rewrite Hr, Hv. cbn [bind].
    rewrite IH.
    + rewrite (take_S_r _ _ (<[k := (v + w)%Q]> r))
        by (apply list_lookup_insert_eq; apply lookup_lt_Some in Hr; lia).
      rewrite take_insert_ge by lia.
      rewrite drop_insert_lt by lia.
      rewrite (drop_S X x i0 Hx), (drop_S sums r i0 Hr).
      cbn [zip_with]. rewrite <- app_assoc. cbn [app].
      do 2 f_equal. f_equal. unfold row_vote. now rewrite Hk, Hv.
    + lia.
    + now rewrite length_insert.
    + apply Forall_insert; [assumption|]. now rewrite length_insert.
Qed.

Lemma zip_with_row_vote_rows (clf : IndividualBOSS series) (w : Q)
    (sums : list (list Q)) :
  Forall (fun r => length r = n_classes self) sums ->
  Forall (fun r => length r = n_classes self)
    (zip_with (row_vote self clf w) X sums).
Proof.
  intros H. revert X. induction H as [|r sums Hr Hs IH]; intros [|x X'];
    cbn; constructor.
  - now rewrite row_vote_length.
  - apply IH.
Qed.

Lemma drop_cons_inv {A : Type} (l : list A) (n : nat) (a : A) (t : list A) :
  drop n l = a :: t -> l !! n = Some a /\ drop (Datatypes.S n) l = t.
Proof.
  intros H. destruct (l !! n) as [a'|] eqn:E.
  - rewrite (drop_S l a' n E) in H. now injection H as -> ->.
  - apply lookup_ge_None in E. rewrite drop_ge in H by lia. discriminate.
Qed.

Lemma proba_outer_spec (clfs : list (IndividualBOSS series)) :
  forall (n : nat) (ws : list Q) (sums : list (list Q)),
    Forall (votes_in_range self X) clfs ->
    drop n (weights self) = ws ->
    length ws = length clfs ->
    length sums = length X ->
    Forall (fun r => length r = n_classes self) sums ->
    proba_outer self X n clfs sums = Ok (rows_after self X clfs ws sums).
Proof.
  induction clfs as [|clf clfs IH]; intros n ws sums Hv Hws Hlen Hsl Hrows.
  - reflexivity.
  - destruct ws as [|w ws]; [discriminate|].
    apply drop_cons_inv in Hws as [Hw Hws].
    cbn [proba_outer rows_after].
    rewrite (proba_inner_spec clf n w (length X)); try assumption;
      [|now inversion Hv|lia].
    cbn [bind]. rewrite take_0, !drop_0. cbn [app].
    apply IH.
    + now inversion Hv.
    + assumption.
    + cbn in Hlen. lia.
    + rewrite length_zip_with. lia.
    + now apply zip_with_row_vote_rows.
Qed.

(** Row [i] of the matrix of sums is the row of sums of series [i]. *)
Lemma rows_after_lookup (clfs : list (IndividualBOSS series)) :
  forall (ws : list Q) (sums : list (list Q)) (i : nat) (x : series)
         (r : list Q),
    X !! i = Some x -> sums !! i = Some r ->
    rows_after self X clfs ws sums !! i = Some (row_after self x clfs ws r).
Proof.
  induction clfs as [|clf clfs IH]; intros ws sums i x r Hx Hr.
  - exact Hr.
  - destruct ws as [|w ws]; [exact Hr|].
    cbn [rows_after row_after]. apply IH; [assumption|].
    rewrite lookup_zip_with, Hx. cbn. now rewrite Hr.
Qed.

Lemma rows_after_length (clfs : list (IndividualBOSS series)) :
  forall (ws : list Q) (sums : list (list Q)),
    length sums = length X ->
    length (rows_after self X clfs ws sums) = length X.
Proof.
  induction clfs as [|clf clfs IH]; intros ws sums Hl; [exact Hl|].
  destruct ws as [|w ws]; [exact Hl|].
  cbn [rows_after]. apply IH. rewrite length_zip_with. lia.
Qed.

End ProbaLoops.

(** Entry [k] of a row of sums is the bucket of class [k]. *)
Lemma row_after_lookup {series} (self : ContractableBOSS series) (x : series)
    (clfs : list (IndividualBOSS series)) :
  forall (ws : list Q) (r : list Q) (k : nat) (v : Q),
    r !! k = Some v ->
    row_after self x clfs ws r !! k = Some (bucket_from self x k clfs ws v).
Proof.
  induction clfs as [|clf clfs IH]; intros ws r k v Hr.
  - exact Hr.
  - destruct ws as [|w ws]; [exact Hr|].
    cbn [row_after bucket_from]. apply IH.
    unfold row_vote.
    destruct (class_dictionary self !! predict1 clf x) as [k0|] eqn:Ek.
    + destruct (decide (Some k0 = Some k)) as [Heq | Hne].
      * injection Heq as ->. rewrite Hr.
        apply list_lookup_insert_eq. now apply lookup_lt_Some in Hr.
      * destruct (r !! k0) as [v0|]; [|exact Hr].
        rewrite list_lookup_insert_ne by congruence. exact Hr.
    + destruct (decide (None = Some k)); [discriminate|exact Hr].
Qed.

Lemma row_after_length {series} (self : ContractableBOSS series) (x : series)
    (clfs : list (IndividualBOSS series)) :
  forall (ws : list Q) (r : list Q),
    length (row_after self x clfs ws r) = length r.
Proof.
  induction clfs as [|clf clfs IH]; intros ws r; [reflexivity|].
  destruct ws as [|w ws]; [reflexivity|].
  cbn [row_after]. now rewrite IH, row_vote_length.
Qed.

(** ** The class dictionary *)

Lemma fill_class_dictionary_lt (classes : list label) :
  forall (d : gmap Z nat) (index : nat),
    (forall l k, d !! l = Some k -> (k < index)%nat) ->
    forall l k, fill_class_dictionary d index classes !! l = Some k ->
                (k < index + length classes)%nat.
Proof.
  induction classes as [|c classes IH]; intros d index Hd l k H; cbn in *.
  - apply Hd in H. lia.
  - apply IH in H; [lia|].
    intros l' k' H'. destruct (decide (c = l')) as [->|Hne].
    + rewrite lookup_insert_eq in H'. injection H' as <-. lia.
    + rewrite lookup_insert_ne in H' by assumption. apply Hd in H'. lia.
Qed.

Lemma class_values_length (y : list label) :
  length (class_values y) = length (remove_dups y).
Proof.
  unfold class_values. apply Permutation_length, merge_sort_Permutation.
Qed.

Lemma class_values_In (y : list label) (l : label) :
  In l y -> In l (class_values y).
Proof.
  intros H. unfold class_values. apply list_elem_of_In.
  rewrite merge_sort_Permutation. apply elem_of_remove_dups.
  now apply list_elem_of_In.
Qed.

Lemma fill_class_dictionary_other (classes : list label) :
  forall (d : gmap Z nat) (index : nat) (l : label),
    ~ In l classes ->
    fill_class_dictionary d index classes !! l = d !! l.
Proof.
  induction classes as [|c classes IH]; intros d index l H; [reflexivity|].
  cbn. rewrite IH by (intros Hin; apply H; now right).
  apply lookup_insert_ne. intros ->. apply H. now left.
Qed.

Lemma fill_class_dictionary_new (classes : list label) :
  forall (d : gmap Z nat) (index : nat) (l : label),
    In l classes ->
    exists k, fill_class_dictionary d index classes !! l = Some k
              /\ (index <= k < index + length classes)%nat.
Proof.
  induction classes as [|c classes IH]; intros d index l H; [destruct H|].
  cbn [fill_class_dictionary length].
  destruct (in_dec Z.eq_dec l classes) as [Hin | Hout].
  - destruct (IH (<[c := index]> d) (Datatypes.S index) l Hin)
      as (k & Hk & Hr).
    exists k. split; [exact Hk | lia].
  - destruct H as [-> | H]; [|contradiction].
    exists index. rewrite fill_class_dictionary_other by assumption.
    rewrite lookup_insert_eq. split; [reflexivity | lia].
Qed.

(** After a fit, every training label has a class index below
    [n_classes], whatever the dictionary held before. *)
Lemma trained_label_in_range (d : gmap Z nat) (y : list label) (l : label) :
  In l y ->
  exists k,
    fill_class_dictionary d 0 (class_values y) !! l = Some k
    /\ (k < length (remove_dups y))%nat.
Proof.
  intros H.
  destruct (fill_class_dictionary_new (class_values y) d 0%nat l
              (class_values_In y l H)) as (k & Hk & Hr).
  exists k. split; [exact Hk|]. rewrite <- class_values_length. lia.
Qed.

(** ** Test-time aggregation *)

Lemma lookup_repeat {A : Type} (a : A) (n k : nat) :
  (k < n)%nat -> repeat a n !! k = Some a.
Proof.
  revert k. induction n as [|n IH]; intros k Hk; [lia|].
  destruct k as [|k]; cbn; [reflexivity|]. apply IH. lia.
Qed.

Lemma Forall_repeat {A : Type} (P : A -> Prop) (a : A) (n : nat) :
  P a -> Forall P (repeat a n).
Proof. intros H. induction n; cbn; constructor; assumption. Qed.

Lemma bucket_from_shift {series} (self : ContractableBOSS series)
    (x : series) (k : nat) (clfs : list (IndividualBOSS series)) :
  forall (ws : list Q) (a : Q),
    (bucket_from self x k clfs ws a
     == a + bucket_from self x k clfs ws 0)%Q.
Proof.
  induction clfs as [|clf clfs IH]; intros ws a.
  - cbn. ring.
  - destruct ws as [|w ws]; [cbn; ring|].
    cbn [bucket_from].
    destruct (decide (class_dictionary self !! predict1 clf x = Some k)).
    + rewrite (IH ws (a + w)%Q), (IH ws (0 + w)%Q). ring.
    + apply IH.
Qed.

(** The buckets of a series share out the weights of the members. *)
Lemma bucket_sum {series} (self : ContractableBOSS series) (x : series)
    (clfs : list (IndividualBOSS series)) :
  forall ws : list Q,
    length ws = length clfs ->
    Forall (fun clf =>
              exists k, class_dictionary self !! predict1 clf x = Some k
                        /\ (k < n_classes self)%nat) clfs ->
    (np_sum (map (fun k => bucket_from self x k clfs ws 0)
               (seq 0 (n_classes self)))
     == np_sum ws)%Q.
Proof.
  induction clfs as [|clf clfs IH]; intros ws Hlen Hv.
  - destruct ws; [|discriminate]. cbn [bucket_from].
    apply np_sum_map_zero. reflexivity.
  - destruct ws as [|w ws]; [discriminate|].
    inversion Hv as [|? ? (k0 & Hk0 & Hlt) Hv']; subst.
    cbn [bucket_from].
    rewrite (np_sum_map_ext _
               (fun k =>
                  (if decide (class_dictionary self !! predict1 clf x
                              = Some k) then w else 0)
                  + bucket_from self x k clfs ws 0)%Q).
    + rewrite np_sum_map_plus, np_sum_cons.
      rewrite (np_sum_indicator _ w k0) by
        (try lia; intros k; rewrite Hk0; split; congruence).
      rewrite IH; [reflexivity | cbn in Hlen; lia | assumption].
    + intros k _.
      destruct (decide (_ = Some k)).
      * rewrite bucket_from_shift. ring.
      * ring.
Qed.

Lemma np_div_nonzero (v d : Q) : ~ (d == 0)%Q -> np_div v d = Fin (v / d).
Proof.
  intros H. unfold np_div. destruct (Qeq_bool d 0) eqn:E; [|reflexivity].
  apply Qeq_bool_eq in E. contradiction.
Qed.

(** What [_predict_proba] returns on a well-formed classifier. *)
Lemma predict_proba_spec {series} (self : ContractableBOSS series)
    (Xt : ndarray3 series) :
  length (weights self) = length (classifiers self) ->
  Forall (votes_in_range self (instances Xt)) (classifiers self) ->
  ~ (weight_sum self == 0)%Q ->
  exists rows,
    _predict_proba self Xt = Ok rows
    /\ length rows = length (instances Xt)
    /\ forall i x, instances Xt !! i = Some x ->
         rows !! i
         = Some (map (fun k =>
                        Fin (class_bucket self x k / weight_sum self))
                   (seq 0 (n_classes self))).
Proof.
  intros Hlen Hv Hw. unfold _predict_proba.
  rewrite (proba_outer_spec self (instances Xt) (classifiers self) 0
             (weights self));
    [|assumption|apply drop_0|assumption|apply repeat_length
     |apply Forall_repeat, repeat_length].
  cbn [bind]. eexists. split; [reflexivity|]. split.
  - rewrite length_map, rows_after_length; [reflexivity|apply repeat_length].
  - intros i x Hx. rewrite lookup_map.
    rewrite (rows_after_lookup self (instances Xt) (classifiers self)
               (weights self) _ i x (repeat 0%Q (n_classes self)) Hx)
      by (apply lookup_repeat; apply lookup_lt_Some in Hx; lia).
    cbn [fmap option_fmap option_map]. f_equal.
    apply list_eq. intros k. rewrite !lookup_map.
    destruct (Nat.lt_ge_cases k (n_classes self)) as [Hk | Hk].
    + rewrite (row_after_lookup self x (classifiers self) (weights self)
                 _ k 0%Q) by now apply lookup_repeat.
      rewrite lookup_seq_lt by assumption. cbn.
      now rewrite np_div_nonzero by assumption.
    + rewrite (proj2 (lookup_ge_None _ _))
        by (rewrite row_after_length, repeat_length; lia).
      now rewrite lookup_seq_ge by lia.
Qed.

(** C6. For a fitted classifier whose stored weight sum is not zero,
    and test series on which the members predict training labels: the
    stored weight sum is the sum of the retained
    weights, and the [predict_proba] row of every test instance is the
    per-class accumulation of the members' weights into their predicted
    classes, divided entry by entry by the stored weight sum; every such
    row sums to 1. *)
Theorem predict_proba_rows {series RandomState : Type}
    (fit_boss : Z -> Z -> bool -> Z -> Z -> list series -> list label ->
                (nat -> label) * (series -> label))
    (check_random_state : Z -> RandomState)
    (randint : RandomState -> Z -> Z -> Z * RandomState)
    (choice : RandomState -> nat -> nat -> list nat * RandomState)
    (clock : Z -> Q)
    (self : ContractableBOSS series) (X Xtest : ndarray3 series)
    (y : list label) (tr : list parameters)
    (fitted : ContractableBOSS series) :
  _fit fit_boss check_random_state randint choice clock self X y
  = (tr, Ok fitted) ->
  (forall clf x, In clf (classifiers fitted) -> In x (instances Xtest) ->
                 In (predict1 clf x) y) ->
  ~ (weight_sum fitted == 0)%Q ->
  weight_sum fitted = np_sum (weights fitted)
  /\ exists rows,
       _predict_proba fitted Xtest = Ok rows
       /\ length rows = length (instances Xtest)
       /\ forall i x, instances Xtest !! i = Some x ->
            rows !! i
            = Some (map (fun k =>
                           Fin (class_bucket fitted x k / weight_sum fitted))
                      (seq 0 (n_classes fitted)))
            /\ (np_sum (map (fun k =>
                               class_bucket fitted x k / weight_sum fitted)
                          (seq 0 (n_classes fitted)))
                == 1)%Q.
Proof.
  intros Hfit Hknown Hw.
  apply fit_ok in Hfit
    as (_ & _ & (low & idx & Hinv & _) & Hsum & _ & Hn & _ & Hdict & _).
  pose proof (Forall2_length _ _ _ Hinv) as Hlen.
  assert (Hvote : forall clf x,
            In clf (classifiers fitted) -> In x (instances Xtest) ->
            exists k, class_dictionary fitted !! predict1 clf x = Some k
                      /\ (k < n_classes fitted)%nat).
  { intros clf x Hc Hx. rewrite Hdict, Hn.
    apply trained_label_in_range. now apply Hknown. }
  split; [exact Hsum|].
  destruct (predict_proba_spec fitted Xtest) as (rows & Hrows & Hl & Hrow).
  - now symmetry.
  - apply Forall_forall. intros clf Hc x Hx.
    apply Hvote; [now apply list_elem_of_In | assumption].
  - assumption.
  - exists rows. split; [exact Hrows|]. split; [exact Hl|].
    intros i x Hx. split; [now apply Hrow|].
    rewrite np_sum_map_div. unfold class_bucket.
    rewrite bucket_sum.
    + rewrite <- Hsum. now field.
    + now symmetry.
    + apply Forall_forall. intros clf Hc. apply Hvote.
      * now apply list_elem_of_In.
      * apply list_elem_of_In. eapply list_elem_of_lookup_2. exact Hx.
Qed.

Lemma predict_proba_rows_witness :
  exists tr fitted,
    toy_fit fast_clock toy_config = (tr, Ok fitted)
    /\ (forall clf x, In clf (classifiers fitted) ->
                      In x (instances toy_X) ->
                      In (predict1 clf x) toy_labels)
    /\ ~ (weight_sum fitted == 0)%Q
    /\ weight_sum fitted = np_sum (weights fitted)
    /\ exists rows,
         _predict_proba fitted toy_X = Ok rows
         /\ length rows = length (instances toy_X)
         /\ forall i x, instances toy_X !! i = Some x ->
              rows !! i
              = Some (map (fun k =>
                             Fin (class_bucket fitted x k
                                  / weight_sum fitted))
                        (seq 0 (n_classes fitted)))
              /\ (np_sum (map (fun k =>
                                 class_bucket fitted x k
                                 / weight_sum fitted)
                            (seq 0 (n_classes fitted)))
                  == 1)%Q.
Proof.
  do 2 eexists.
  split; [vm_compute; reflexivity|].
  assert (Hknown : forall (clf : IndividualBOSS nat) (x : nat),
            predict1 clf x = 1 -> In (predict1 clf x) toy_labels)
    by (intros clf x ->; now left).
  split; [intros clf x [<- | [<- | []]] _; now apply Hknown|].
  split; [discriminate|].
  eapply (predict_proba_rows toy_fit_boss toy_check_random_state
            toy_randint toy_choice fast_clock toy_config toy_X toy_X
            toy_labels);
    [vm_compute; reflexivity
    | intros clf x [<- | [<- | []]] _; now apply Hknown
    | discriminate].
Defined.

(** ** Training-time aggregation *)

Lemma first_position_from_None (i : nat) (a : list nat) :
  forall k, first_position_from k i a = None <-> ~ In i a.
Proof.
  induction a as [|x a IH]; intros k; cbn.
  - tauto.
  - destruct (Nat.eqb_spec x i) as [-> | Hne].
    + split; [discriminate | intros H; exfalso; apply H; now left].
    + rewrite IH. tauto.
Qed.

Lemma first_position_None (i : nat) (a : list nat) :
  first_position i a = None <-> ~ In i a.
Proof. apply first_position_from_None. Qed.

Lemma zip_map_fst_snd {A B : Type} (l : list (A * B)) :
  zip (map fst l) (map snd l) = l.
Proof.
  induction l as [|[a b] l IH]; cbn; [reflexivity|]. now rewrite IH.
Qed.

Section TrainProbs.

Context {series : Type}.
Variable self : ContractableBOSS series.
Variable i : nat.

Lemma clf_idx_entries (clfs : list (IndividualBOSS series)) :
  forall n0, clf_idx_from n0 i clfs = map fst (oob_entries n0 i clfs).
Proof.
  induction clfs as [|clf clfs IH]; intros n0; cbn; [reflexivity|].
  destruct (first_position i (subsample clf)); cbn; now rewrite IH.
Qed.

Lemma preds_entries (clfs : list (IndividualBOSS series)) :
  forall n0,
    drop n0 (classifiers self) = clfs ->
    mapM (fun cls : nat * nat =>
            clf ← classifiers self !! cls.1;
            Some (_train_predict clf cls.2))
         (clf_idx_from n0 i clfs)
    = Some (map snd (oob_entries n0 i clfs)).
Proof.
  induction clfs as [|clf clfs IH]; intros n0 Hdrop; [reflexivity|].
  apply drop_cons_inv in Hdrop as [Hn Hdrop].
  cbn [clf_idx_from oob_entries].
  destruct (first_position i (subsample clf)) as [pos|];
    [|now apply IH].
  cbn [mapM map snd fst]. cbn. rewrite Hn. cbn.
  rewrite (IH (Datatypes.S n0) Hdrop). reflexivity.
Qed.



Hypothesis Hdict : dictionary_in_range self.
Hypothesis Hclasses : (0 < n_classes self)%nat.

Lemma oob_class_lt (pred : label) : (oob_class self pred < n_classes self)%nat.
Proof.
  unfold oob_class. destruct (_ !! pred) as [k|] eqn:E; [|lia].
  now apply Hdict in E.
Qed.

Lemma py_index_class (r : list Q) (pred : label) :
  length r = n_classes self ->
  py_index r (class_index_or_last self pred) = Some (oob_class self pred).
Proof.
  intros Hr. unfold class_index_or_last, oob_class.
  destruct (_ !! pred) as [k|] eqn:E.
  - apply py_index_nat. apply Hdict in E. lia.
  - rewrite py_index_minus_one by (destruct r; [cbn in Hr; lia|discriminate]).
    now rewrite Hr.
Qed.

Lemma train_probs_acc_spec (clfs : list (IndividualBOSS series)) :
  forall (n0 : nat) (ws : list Q) (r : list Q) (d : Q),
    drop n0 (weights self) = ws ->
    length ws = length clfs ->
    length r = n_classes self ->
    train_probs_acc self (oob_entries n0 i clfs) r d
    = Ok (oob_row_after self i clfs ws r, oob_weight_from i clfs ws d).
Proof.
  induction clfs as [|clf clfs IH]; intros n0 ws r d Hdrop Hlen Hr.
  - destruct ws; reflexivity.
  - destruct ws as [|w ws]; [discriminate|].
    apply drop_cons_inv in Hdrop as [Hw Hdrop].
    cbn [oob_entries oob_row_after oob_weight_from].
    destruct (first_position i (subsample clf)) as [pos|].
    + cbn [train_probs_acc]. rewrite Hw. cbn [of_option bind].
      unfold add_at1. rewrite py_index_class by assumption.
      pose proof (oob_class_lt (_train_predict clf pos)) as Hk.
      destruct (r !! oob_class self (_train_predict clf pos)) as [v|] eqn:Ev;
        [|apply lookup_ge_None in Ev; lia].
      cbn [bind]. apply IH; [assumption | cbn in Hlen; lia|].
      now rewrite length_insert.
    + apply IH; [assumption | cbn in Hlen; lia | assumption].
Qed.

Lemma oob_row_after_lookup (clfs : list (IndividualBOSS series)) :
  forall (ws : list Q) (r : list Q) (k : nat) (v : Q),
    r !! k = Some v ->
    oob_row_after self i clfs ws r !! k
    = Some (oob_bucket_from self i k clfs ws v).
Proof.
  induction clfs as [|clf clfs IH]; intros ws r k v Hr.
  - exact Hr.
  - destruct ws as [|w ws]; [exact Hr|].
    cbn [oob_row_after oob_bucket_from]. apply IH.
    destruct (first_position i (subsample clf)) as [pos|]; [|exact Hr].
    cbn zeta.
    destruct (decide (oob_class self (_train_predict clf pos) = k))
      as [-> | Hne].
    + rewrite Hr. apply list_lookup_insert_eq.
      now apply lookup_lt_Some in Hr.
    + destruct (r !! oob_class self (_train_predict clf pos));
        [|exact Hr].
      now rewrite list_lookup_insert_ne by assumption.
Qed.

Lemma oob_row_after_length (clfs : list (IndividualBOSS series)) :
  forall (ws : list Q) (r : list Q),
    length (oob_row_after self i clfs ws r) = length r.
Proof.
  induction clfs as [|clf clfs IH]; intros ws r; [reflexivity|].
  destruct ws as [|w ws]; [reflexivity|].
  cbn [oob_row_after]. rewrite IH.
  destruct (first_position i (subsample clf)); [|reflexivity].
  cbn zeta. destruct (r !! _); [apply length_insert|reflexivity].
Qed.

End TrainProbs.


Lemma oob_entries_none {series} (i : nat)
    (clfs : list (IndividualBOSS series)) :
  forall n0,
    (forall clf, In clf clfs -> ~ In i (subsample clf)) ->
    oob_entries n0 i clfs = [].
Proof.
  induction clfs as [|clf clfs IH]; intros n0 H; [reflexivity|].
  cbn [oob_entries].
  rewrite (proj2 (first_position_None i (subsample clf)))
    by (apply H; now left).
  apply IH. intros c Hc. apply H. now right.
Qed.

Lemma oob_weight_from_ge {series} (i : nat)
    (clfs : list (IndividualBOSS series)) :
  forall (ws : list Q) (d : Q),
    Forall (fun w => (0 < w)%Q) ws ->
    (d <= oob_weight_from i clfs ws d)%Q.
Proof.
  induction clfs as [|clf clfs IH]; intros ws d Hpos; [apply Qle_refl|].
  destruct ws as [|w ws]; [apply Qle_refl|]. cbn [oob_weight_from].
  inversion Hpos as [|? ? Hw Hws]; subst.
  destruct (first_position i (subsample clf)).
  - specialize (IH ws (d + w)%Q Hws). lra.
  - now apply IH.
Qed.


Lemma train_probs_row_eq {series} (self : ContractableBOSS series)
    (i : nat) :
  n_jobs self <> 0 ->
  length (weights self) = length (classifiers self) ->
  dictionary_in_range self ->
  (0 < n_classes self)%nat ->
  train_probs_row self i = Ok (oob_row self i).
Proof.
  intros Hjobs Hlen Hdict Hn. unfold train_probs_row, clf_idx_of.
  destruct (Z.eqb_spec (n_jobs self) 0) as [|_]; [contradiction|].
  rewrite (preds_entries self i (classifiers self) 0) by apply drop_0.
  cbn [of_option bind].
  rewrite clf_idx_entries, zip_map_fst_snd.
  rewrite (train_probs_acc_spec self i Hdict Hn (classifiers self) 0
             (weights self));
    [|apply drop_0|assumption|apply repeat_length].
  cbn [bind]. unfold oob_row. fold (oob_weight self i).
  destruct (Qeq_bool (oob_weight self i) 0) eqn:E.
  - destruct (Nat.eqb_spec (n_classes self) 0); [lia|reflexivity].
  - f_equal. apply list_eq. intros k. rewrite !lookup_map.
    destruct (Nat.lt_ge_cases k (n_classes self)) as [Hk | Hk].
    + rewrite (oob_row_after_lookup self i (classifiers self)
                 (weights self) _ k 0%Q) by now apply lookup_repeat.
      rewrite lookup_seq_lt by assumption. cbn.
      unfold np_div. now rewrite E.
    + rewrite (proj2 (lookup_ge_None _ _))
        by (rewrite oob_row_after_length, repeat_length; lia).
      now rewrite lookup_seq_ge by lia.
Qed.



Lemma train_probs_rows_ok {series} (self : ContractableBOSS series)
    (f : nat -> list npfloat) (idxs : list nat) :
  (forall i, In i idxs -> train_probs_row self i = Ok (f i)) ->
  train_probs_rows self idxs = Ok (map f idxs).
Proof.
  induction idxs as [|i idxs IH]; intros H; [reflexivity|].
  cbn [train_probs_rows map]. rewrite (H i) by now left.
  cbn [bind]. rewrite IH; [reflexivity|].
  intros j Hj. apply H. now right.
Qed.


Lemma fitted_dictionary_in_range {series}
    (self fitted : ContractableBOSS series) (y : list label) :
  (forall l k, class_dictionary self !! l = Some k ->
               In l y \/ (k < length (remove_dups y))%nat) ->
  n_classes fitted = length (remove_dups y) ->
  class_dictionary fitted
  = fill_class_dictionary (class_dictionary self) 0 (class_values y) ->
  dictionary_in_range fitted.
Proof.
  intros Hprior Hn Hdict l k Hk. rewrite Hdict in Hk. rewrite Hn.
  destruct (in_dec Z.eq_dec l (class_values y)) as [Hin|Hout].
  - destruct (fill_class_dictionary_new _ (class_dictionary self) 0%nat l
                Hin) as (k' & Hk' & Hr).
    pose proof (eq_trans (eq_sym Hk) Hk') as E. injection E as ->.
    rewrite <- class_values_length. lia.
  - rewrite fill_class_dictionary_other in Hk by assumption.
    apply Hprior in Hk as [Hy|Hlt]; [|assumption].
    exfalso. apply Hout. now apply class_values_In.
Qed.

Lemma remove_dups_nonempty (y : list label) :
  y <> [] -> (0 < length (remove_dups y))%nat.
Proof.
  destruct y as [|a y]; [congruence|]. intros _.
  assert (H : a ∈ remove_dups (a :: y))
    by (apply elem_of_remove_dups; now left).
  destruct (remove_dups (a :: y)); [inversion H | cbn; lia].
Qed.

Lemma weights_positive {series} (cs : list (IndividualBOSS series))
    (ws : list Q) :
  Forall2 (fun b w => w = weight_of (accuracy b)) cs ws ->
  Forall (fun w => (0 < w)%Q) ws.
Proof.
  induction 1 as [|b w cs ws Hw _ IH]; constructor; [|assumption].
  subst w. apply weight_of_pos.
Qed.



(** With [n_jobs = 0] a fit of the example data returns, and
    [_get_train_probs] on the fitted object raises [ValueError]. *)
Example train_probs_no_jobs :
  exists tr fitted,
    toy_fit fast_clock (init nat 3 2 1 10 0 0 0) = (tr, Ok fitted)
    /\ _get_train_probs fitted toy_X = Raise ValueError.
Proof. do 2 eexists. split; vm_compute; reflexivity. Qed.


(** * Further properties *)

(** ** Early abandonment and the full leave-one-out count *)

Lemma correct_upto_remaining {series} (boss : IndividualBOSS series)
    (y : list label) (n i : nat) :
  (i <= n)%nat ->
  correct_upto boss y n
  <= correct_upto boss y i + (Z.of_nat n - Z.of_nat i).
Proof.
  induction n as [|n IH]; intros Hi.
  - replace i with 0%nat by lia. simpl. lia.
  - destruct (decide (i = S n)) as [->|Hne]; [lia|].
    specialize (IH ltac:(lia)). simpl. destruct (hit boss y n); lia.
Qed.

Lemma individual_train_acc_completes {series} (jobs : Z)
    (boss : IndividualBOSS series) (y : list label) (S : nat) (low : Q) :
  (0 < S)%nat -> length y = S ->
  required_correct_of low S <= correct_upto boss y S ->
  _individual_train_acc jobs boss y S low
  = Ok (inject_Z (correct_upto boss y S) / inject_Z (Z.of_nat S))%Q.
Proof.
  intros HS Hy HR. rewrite individual_train_acc_seq_par.
  change 0 with (correct_upto boss y 0) at 1.
  rewrite seq_loop_completes.
  - cbn [snd finish_train_acc bind Nat.add].
    destruct (Nat.eqb_spec S 0); [lia|reflexivity].
  - lia.
  - intros j Hj. apply Z.ltb_ge.
    pose proof (correct_upto_remaining boss y S j ltac:(lia)). lia.
Qed.

Lemma seq_loop_outcome {series} (boss : IndividualBOSS series)
    (y : list label) (S R : Z) (n : nat) :
  forall (i : nat) (e : loop_exit),
    (i + n <= length y)%nat ->
    snd (train_acc_loop_seq boss y S R (seq i n) (correct_upto boss y i))
    = Ok e ->
    e = Returned (-1) \/ e = Completed (correct_upto boss y (i + n)).
Proof.
  induction n as [|n IH]; intros i e Hlen He.
  - cbn in He. injection He as <-. right. now rewrite Nat.add_0_r.
  - cbn [seq train_acc_loop_seq] in He.
    destruct (_ <? R).
    + cbn in He. injection He as <-. now left.
    + destruct (y !! i) as [yi|] eqn:Ey.
      2:{ apply lookup_ge_None in Ey. lia. }
      rewrite (correct_upto_step boss y i yi Ey) in He.
      destruct (train_acc_loop_seq boss y S R (seq (Datatypes.S i) n) _)
        as [ev r] eqn:El.
      cbn [snd] in He. subst r.
      replace (i + Datatypes.S n)%nat with (Datatypes.S i + n)%nat by lia.
      apply IH; [lia|]. now rewrite El.
Qed.

Lemma individual_train_acc_outcome {series} (jobs : Z)
    (boss : IndividualBOSS series) (y : list label) (S : nat) (low acc : Q) :
  (0 < S)%nat -> length y = S ->
  _individual_train_acc jobs boss y S low = Ok acc ->
  acc = (-1)%Q
  \/ acc = (inject_Z (correct_upto boss y S) / inject_Z (Z.of_nat S))%Q.
Proof.
  intros HS Hy. rewrite individual_train_acc_seq_par.
  destruct (snd (train_acc_loop_seq boss y (Z.of_nat S)
                   (required_correct_of low S) (seq 0 S) 0)) as [e|e] eqn:El;
    [|discriminate].
  change 0 with (correct_upto boss y 0) in El.
  apply seq_loop_outcome in El; [|lia].
  destruct El as [-> | ->]; cbn [finish_train_acc bind].
  - intros [= <-]. now left.
  - destruct (Nat.eqb_spec S 0); [lia|]. intros [= <-]. now right.
Qed.

Lemma correct_upto_le_size {series} (boss : IndividualBOSS series)
    (y : list label) (S : nat) :
  0 <= correct_upto boss y S <= Z.of_nat S.
Proof.
  pose proof (correct_upto_nonneg boss y S).
  pose proof (correct_upto_remaining boss y S 0 ltac:(lia)) as H0.
  cbn [correct_upto] in H0. lia.
Qed.

(** The size bound of the next lemmas matters: over a subsample of
    [2^60] instances the threshold [(2^60 - 1) / 2^60] rounds to 1 and the
    required count is [2^60], one more than the matches of a candidate
    that attains the threshold. *)
Example required_correct_large_subsample :
  required_correct_of (1152921504606846975 # 1152921504606846976)
    (Z.to_nat 1152921504606846976)
  = 1152921504606846976.
Proof.
  unfold required_correct_of. rewrite Z2Nat.id by discriminate.
  vm_compute. reflexivity.
Qed.

Lemma first_wrong_correct (m n : nat) :
  (n <= m)%nat ->
  correct_upto first_wrong_boss (repeat 1 m) n = Z.of_nat (Nat.pred n).
Proof.
  induction n as [|n IH]; intros Hn; [reflexivity|].
  cbn [correct_upto]. rewrite IH by lia. unfold hit.
  unfold label. rewrite (@lookup_repeat Z 1 m n) by lia.
  destruct n as [|n]; [reflexivity|]. cbn -[Z.of_nat]. lia.
Qed.

(** Without the size bound early abandonment is not sound in this model,
    where accuracies are exact rationals: over [2^60] instances, a
    learner with all but one instance right has an accuracy above the
    threshold [(2^60 - 2) / 2^60], yet the float product of line 370
    rounds up to [2^60] and the estimator returns [-1] after the first
    instance. *)
Example early_abandon_large_subsample (S : nat) :
  Z.of_nat S = 1152921504606846976 ->
  let low := (1152921504606846974 # 1152921504606846976)%Q in
  let y : list label := repeat 1 S in
  (low < inject_Z (correct_upto first_wrong_boss y S)
         / inject_Z (Z.of_nat S))%Q
  /\ _individual_train_acc 1 first_wrong_boss y S low = Ok (-1)%Q.
Proof.
  intros HS low y. subst y.
  assert (HR : required_correct_of low S = 1152921504606846976).
  { unfold required_correct_of. rewrite HS. vm_compute. reflexivity. }
  split.
  - rewrite first_wrong_correct by lia.
    replace (Z.of_nat (Nat.pred S)) with 1152921504606846975 by lia.
    rewrite HS. vm_compute. reflexivity.
  - rewrite individual_train_acc_seq_par.
    change 0 with (correct_upto first_wrong_boss (repeat 1 S) 0) at 1.
    rewrite (seq_loop_abandons first_wrong_boss (repeat 1 S) S _ S 0 1).
    + reflexivity.
    + lia.
    + rewrite repeat_length. lia.
    + rewrite HR, (first_wrong_correct S 1) by lia. apply Z.ltb_lt.
      cbn [Nat.pred]. lia.
    + intros j Hj. replace j with 0%nat by lia. rewrite HR.
      apply Z.ltb_ge. cbn [correct_upto]. lia.
Qed.

(** X1. Early abandonment is sound for the estimator
    [_individual_train_acc], in either branch.  With [C] the number of
    leave-one-out matches over the whole subsample of size [S > 0], for
    [S < 2^52] (beyond which the float product of line 370 can exceed the
    exact one by more than 1): a
    candidate with [C >= required_correct] is never abandoned and gets
    [C / S]; so does every candidate whose full accuracy exceeds
    [lowest_acc], and every candidate under a non-positive threshold (the
    warm-up passes 0).  Conversely the sentinel [-1] is returned only when
    [C < required_correct], and then the full accuracy [C / S] is below
    [lowest_acc]. *)
Theorem early_abandon_sound {series} (jobs : Z)
    (boss : IndividualBOSS series) (y : list label) (S : nat)
    (lowest_acc : Q) :
  (0 < S)%nat -> Z.of_nat S < 2 ^ 52 -> length y = S ->
  let full := (inject_Z (correct_upto boss y S) / inject_Z (Z.of_nat S))%Q in
  (required_correct_of lowest_acc S <= correct_upto boss y S ->
   _individual_train_acc jobs boss y S lowest_acc = Ok full)
  /\ ((lowest_acc < full)%Q ->
      _individual_train_acc jobs boss y S lowest_acc = Ok full)
  /\ ((lowest_acc <= 0)%Q ->
      _individual_train_acc jobs boss y S lowest_acc = Ok full)
  /\ (_individual_train_acc jobs boss y S lowest_acc = Ok (-1)%Q ->
      correct_upto boss y S < required_correct_of lowest_acc S
      /\ (full < lowest_acc)%Q).
Proof.
  intros HS Hbig Hy full.
  pose proof (correct_upto_le_size boss y S) as Hc.
  split; [|split; [|split]].
  - now apply individual_train_acc_completes.
  - intros Hlt. apply individual_train_acc_completes; try assumption.
    apply required_correct_below; try assumption.
    apply Qlt_le_weak. exact Hlt.
  - intros Hle. apply individual_train_acc_completes; try assumption.
    pose proof (required_correct_nonpos lowest_acc S Hle). lia.
  - intros Hres.
    assert (Hlt : correct_upto boss y S < required_correct_of lowest_acc S).
    { destruct (Z_lt_le_dec (correct_upto boss y S)
                  (required_correct_of lowest_acc S)) as [Hlt|Hge];
        [assumption|].
      rewrite (individual_train_acc_completes jobs boss y S lowest_acc HS Hy
                 Hge) in Hres.
      assert (Hq : (inject_Z (correct_upto boss y S)
                    / inject_Z (Z.of_nat S))%Q = (-1)%Q) by congruence.
      pose proof (Qdiv_count_range (correct_upto boss y S) S) as Hr.
      specialize (Hr ltac:(lia) HS). rewrite Hq in Hr. lra. }
    split; [assumption|].
    destruct (Qlt_le_dec full lowest_acc) as [Hok|Hbad]; [assumption|].
    exfalso.
    pose proof (required_correct_below lowest_acc S _ HS Hbig Hc Hbad). lia.
Qed.

Lemma early_abandon_sound_witness :
  (0 < 5)%nat /\ Z.of_nat 5 < 2 ^ 52 /\ length toy_y = 5%nat
  /\ (3 # 5 < inject_Z (correct_upto (toy_boss 4) toy_y 5)
              / inject_Z (Z.of_nat 5))%Q
  /\ _individual_train_acc 1 (toy_boss 4) toy_y 5 (3 # 5)
     = Ok (inject_Z (correct_upto (toy_boss 4) toy_y 5)
           / inject_Z (Z.of_nat 5))%Q.
Proof.
  split; [lia|]. split; [reflexivity|]. split; [reflexivity|].
  split; [reflexivity|].
  destruct (early_abandon_sound 1 (toy_boss 4) toy_y 5 (3 # 5))
    as (_ & H & _); [lia | reflexivity | reflexivity | apply H; reflexivity].
Defined.

(** X2. Early abandonment does not change what the ensemble keeps.  Once
    the ensemble is full, the retention step applied to whatever
    [_individual_train_acc] returned under the threshold [low] gives the
    same ensemble and bookkeeping as the retention step applied to the
    full leave-one-out accuracy [C / S]: an abandoned candidate (sentinel
    [-1]) would have been rejected on its full accuracy as well.  The
    subsample has fewer than [2^52] instances. *)
Theorem abandon_preserves_selection {series} (jobs max_size num : Z)
    (boss : IndividualBOSS series) (y : list label) (S : nat)
    (cs : list (IndividualBOSS series)) (ws : list Q) (low : Q) (idx : Z)
    (acc : Q) :
  (0 < S)%nat -> Z.of_nat S < 2 ^ 52 -> length y = S -> max_size <= num ->
  _individual_train_acc jobs boss y S low = Ok acc ->
  let full := (inject_Z (correct_upto boss y S) / inject_Z (Z.of_nat S))%Q in
  retain max_size num (with_accuracy boss acc) (weight_of acc) cs ws low idx
  = retain max_size num (with_accuracy boss full) (weight_of full) cs ws
      low idx.
Proof.
  intros HS Hbig Hy Hfull Hacc full.
  destruct (individual_train_acc_outcome jobs boss y S low acc HS Hy Hacc)
    as [-> | ->]; [|reflexivity].
  pose proof (correct_upto_le_size boss y S) as Hc.
  assert (Hlow : (full < low)%Q).
  { destruct (Qlt_le_dec full low) as [Hok|Hbad]; [assumption|]. exfalso.
    pose proof (required_correct_below low S _ HS Hbig Hc Hbad) as Hge.
    rewrite (individual_train_acc_completes jobs boss y S low HS Hy Hge)
      in Hacc.
    assert (Hq : (inject_Z (correct_upto boss y S)
                  / inject_Z (Z.of_nat S))%Q = (-1)%Q) by congruence.
    pose proof (Qdiv_count_range (correct_upto boss y S) S) as Hr.
    specialize (Hr ltac:(lia) HS). rewrite Hq in Hr. lra. }
  assert (H0 : (0 <= full)%Q).
  { pose proof (Qdiv_count_range (correct_upto boss y S) S) as Hr.
    specialize (Hr ltac:(lia) HS). fold full in Hr. lra. }
  rewrite !retain_rejects; try assumption; try reflexivity.
  - cbn. lra.
  - cbn. lra.
Qed.

Lemma abandon_preserves_selection_witness :
  (0 < 5)%nat /\ Z.of_nat 5 < 2 ^ 52 /\ length toy_y = 5%nat /\ 1 <= 1
  /\ _individual_train_acc 1 (toy_boss 1) toy_y 5 (4 # 5) = Ok (-1)%Q
  /\ retain 1 1 (with_accuracy (toy_boss 1) (-1)) (weight_of (-1))
       [toy_member 4] [256 # 625] (4 # 5) 0
     = retain 1 1
         (with_accuracy (toy_boss 1)
            (inject_Z (correct_upto (toy_boss 1) toy_y 5)
             / inject_Z (Z.of_nat 5)))
         (weight_of (inject_Z (correct_upto (toy_boss 1) toy_y 5)
                     / inject_Z (Z.of_nat 5)))
         [toy_member 4] [256 # 625] (4 # 5) 0.
Proof.
  split; [lia|]. split; [reflexivity|]. split; [reflexivity|].
  split; [lia|]. split; [reflexivity|].
  apply (abandon_preserves_selection 1 1 1 (toy_boss 1) toy_y 5
           [toy_member 4] [256 # 625] (4 # 5) 0 (-1));
    [lia | reflexivity | reflexivity | lia | reflexivity].
Defined.

(** ** The parameter grid *)

Lemma py_range_In (start stop step w : Z) :
  0 < step ->
  In w (py_range start stop step)
  <-> start <= w < stop /\ (w - start) mod step = 0.
Proof.
  intros Hstep. unfold py_range.
  destruct (Z.leb_spec stop start) as [Hle|Hlt].
  - split; [intros []|lia].
  - rewrite in_map_iff. split.
    + intros (k & <- & Hk). apply in_seq in Hk.
      assert (Hq : Z.of_nat k < (stop - start + step - 1) / step) by lia.
      pose proof (Z.mul_div_le (stop - start + step - 1) step Hstep).
      split; [nia|].
      replace (start + Z.of_nat k * step - start) with (Z.of_nat k * step)
        by lia.
      apply Z.mod_mul. lia.
    + intros (Hw & Hmod).
      apply Z.mod_divide in Hmod as [q Hq]; [|lia].
      assert (0 <= q) by nia.
      exists (Z.to_nat q). split; [lia|].
      apply in_seq. split; [lia|]. cbn [Nat.add].
      assert (q < (stop - start + step - 1) / step); [|lia].
      pose proof (Z.mod_pos_bound (stop - start + step - 1) step Hstep).
      pose proof (Z.div_mod (stop - start + step - 1) step ltac:(lia)).
      nia.
Qed.

Lemma py_range_NoDup (start stop step : Z) :
  0 < step -> NoDup (py_range start stop step).
Proof.
  intros Hstep. unfold py_range. destruct (stop <=? start); [constructor|].
  change (map ?f ?l) with (f <$> l).
  apply NoDup_fmap_2_strong; [|apply NoDup_seq].
  intros i j _ _ Heq. nia.
Qed.

Lemma flat_map_NoDup {A B : Type} (f : A -> list B) (l : list A) :
  NoDup l ->
  (forall a, In a l -> NoDup (f a)) ->
  (forall a a' b, In a l -> In a' l -> In b (f a) -> In b (f a') -> a = a') ->
  NoDup (flat_map f l).
Proof.
  induction l as [|a l IH]; intros Hnd Hf Hdisj; [constructor|].
  apply NoDup_cons in Hnd as [Ha Hnd]. cbn [flat_map].
  apply NoDup_app. split; [|split].
  - apply Hf. now left.
  - intros b Hb Hb'. apply list_elem_of_In in Hb, Hb'.
    apply in_flat_map in Hb' as (a' & Ha' & Hb').
    assert (a = a') as <-.
    { eapply Hdisj; [now left | now right | exact Hb | exact Hb']. }
    apply Ha. now apply list_elem_of_In.
  - apply IH; [assumption | |].
    + intros a' Ha'. apply Hf. now right.
    + intros a1 a2 b H1 H2. apply Hdisj; now right.
Qed.

Lemma unique_parameters_In {series} (self : ContractableBOSS series)
    (max_window win_inc : Z) (w l : Z) (b : bool) :
  In (w, l, b) (_unique_parameters self max_window win_inc)
  <-> In b (norm_options self) /\ In l (word_lengths self)
      /\ In w (py_range (min_window self) (max_window + 1) win_inc).
Proof.
  unfold _unique_parameters. rewrite in_flat_map. split.
  - intros (b' & Hb & H). apply in_flat_map in H as (w' & Hw & H).
    apply in_map_iff in H as (l' & [= -> -> ->] & Hl). auto.
  - intros (Hb & Hl & Hw). exists b. split; [assumption|].
    apply in_flat_map. exists w. split; [assumption|].
    apply in_map_iff. exists l. auto.
Qed.

Lemma unique_parameters_NoDup {series} (self : ContractableBOSS series)
    (max_window win_inc : Z) :
  0 < win_inc ->
  NoDup (norm_options self) -> NoDup (word_lengths self) ->
  NoDup (_unique_parameters self max_window win_inc).
Proof.
  intros Hinc Hn Hw. unfold _unique_parameters.
  apply flat_map_NoDup; [assumption| |].
  - intros b _. apply flat_map_NoDup; [now apply py_range_NoDup| |].
    + intros w _. change (map ?f ?l) with (f <$> l).
      apply NoDup_fmap_2_strong; [|assumption].
      intros l1 l2 _ _ [= ->]. reflexivity.
    + intros w1 w2 p _ _ H1 H2.
      apply in_map_iff in H1 as (l1 & <- & _).
      apply in_map_iff in H2 as (l2 & [= -> _] & _). reflexivity.
  - intros b1 b2 p _ _ H1 H2.
    apply in_flat_map in H1 as (w1 & _ & H1).
    apply in_flat_map in H2 as (w2 & _ & H2).
    apply in_map_iff in H1 as (l1 & <- & _).
    apply in_map_iff in H2 as (l2 & [= _ _ ->] & _). reflexivity.
Qed.

Lemma win_inc_of_pos (series_length : nat) (max_window min_window : Z) :
  0 < win_inc_of series_length max_window min_window.
Proof.
  unfold win_inc_of. cbv zeta.
  destruct (_ <? 1) eqn:E; [lia | apply Z.ltb_ge in E; lia].
Qed.

Lemma flat_map_length_const {A B : Type} (f : A -> list B) (l : list A)
    (n : nat) :
  (forall a, length (f a) = n) -> length (flat_map f l) = (length l * n)%nat.
Proof.
  intros Hf. induction l as [|a l IH]; [reflexivity|].
  cbn [flat_map]. rewrite length_app, Hf, IH. cbn [length]. lia.
Qed.

(** X3. The parameter grid that [_fit] searches.  A triple
    [(win_size, word_len, normalise)] is a candidate exactly when
    [normalise] is one of the normalisation options, [word_len] one of the
    word lengths, and [win_size] lies between [min_window] and [max_window]
    at a whole number of (positive) window increments above [min_window].
    The grid has one entry per combination, and no entry twice when the
    two option lists have no duplicates. *)
Theorem parameter_grid_spec {series} (self : ContractableBOSS series)
    (X : ndarray3 series) :
  let max_window := max_window_of (shape2 X) (max_win_len_prop self) in
  let win_inc := win_inc_of (shape2 X) max_window (min_window self) in
  1 <= win_inc
  /\ (forall w l b,
        In (w, l, b) (parameter_grid self X)
        <-> In b (norm_options self) /\ In l (word_lengths self)
            /\ min_window self <= w <= max_window
            /\ (w - min_window self) mod win_inc = 0)
  /\ length (parameter_grid self X)
     = (length (norm_options self)
        * (length (py_range (min_window self) (max_window + 1) win_inc)
           * length (word_lengths self)))%nat
  /\ (NoDup (norm_options self) -> NoDup (word_lengths self) ->
      NoDup (parameter_grid self X)).
Proof.
  intros max_window win_inc.
  pose proof (win_inc_of_pos (shape2 X) max_window (min_window self)) as Hinc.
  fold win_inc in Hinc.
  split; [lia|]. split; [|split].
  - intros w l b. unfold parameter_grid. fold max_window win_inc.
    rewrite unique_parameters_In, py_range_In by assumption.
    split; intros (Hb & Hl & Hw & Hm); repeat split; try assumption; lia.
  - unfold parameter_grid, _unique_parameters. fold max_window win_inc.
    apply flat_map_length_const. intros b.
    apply flat_map_length_const. intros w. apply length_map.
  - intros Hn Hw. now apply unique_parameters_NoDup.
Qed.

Lemma parameter_grid_spec_witness :
  NoDup (norm_options toy_config) /\ NoDup (word_lengths toy_config)
  /\ In (10, 16, true) (parameter_grid toy_config toy_X)
  /\ length (parameter_grid toy_config toy_X) = 80%nat
  /\ NoDup (parameter_grid toy_config toy_X).
Proof.
  assert (Hn : NoDup (norm_options toy_config)).
  { apply (bool_decide_unpack _). vm_compute. exact I. }
  assert (Hw : NoDup (word_lengths toy_config)).
  { apply (bool_decide_unpack _). vm_compute. exact I. }
  destruct (parameter_grid_spec toy_config toy_X) as (_ & Hin & Hlen & Hnd).
  split; [exact Hn|]. split; [exact Hw|]. split; [|split].
  - apply (proj2 (Hin 10 16 true)).
    split; [left; reflexivity|]. split; [left; reflexivity|].
    split; [vm_compute; split; discriminate|]. vm_compute; reflexivity.
  - rewrite Hlen. vm_compute; reflexivity.
  - exact (Hnd Hn Hw).
Defined.

(** ** What the search loop does with the candidates *)

Lemma retain_shape {series} (max_size num : Z) (boss : IndividualBOSS series)
    (w : Q) (cs cs' : list (IndividualBOSS series)) (ws ws' : list Q)
    (low low' : Q) (idx idx' : Z) :
  retain max_size num boss w cs ws low idx = Ok (cs', ws', low', idx') ->
  length cs'
  = (if num <? max_size then Datatypes.S (length cs) else length cs)
  /\ (forall b, In b cs' -> In b cs \/ b = boss).
Proof.
  unfold retain. destruct (num <? max_size).
  - destruct (Qlt_bool (accuracy boss) low); intros [= <- <- <- <-];
      (split; [rewrite length_app; cbn; lia|]);
      intros b Hb; apply in_app_or in Hb as [Hb|[<-|[]]]; auto.
  - destruct (Qlt_bool low (accuracy boss)).
    + unfold py_setitem.
      destruct (py_index ws idx); [|discriminate].
      destruct (py_index cs idx) as [k|]; [|discriminate].
      cbn [bind]. destruct (_worst_ensemble_acc _).
      intros [= <- <- <- <-]. split; [apply length_insert|].
      intros b Hb. apply list_elem_of_In, list_elem_of_lookup_1 in Hb
        as [j Hj].
      apply list_lookup_insert_Some in Hj as [(_ & <- & _) | (_ & Hj)];
        [now right|left].
      apply list_elem_of_In. eapply list_elem_of_lookup_2. exact Hj.
    + intros [= <- <- <- <-]. auto.
Qed.

Lemma py_pop_Permutation {A : Type} (l : list A) (i : Z) (x : A)
    (l' : list A) :
  py_pop l i = Ok (x, l') -> x :: l' ≡ₚ l.
Proof.
  unfold py_pop. destruct (py_index l i) as [k|]; [|discriminate].
  destruct (l !! k) as [x'|] eqn:E; [|discriminate].
  intros [= <- <-]. symmetry. now apply delete_Permutation.
Qed.

Lemma np_take_valid {A : Type} (a : list A) (idx : list nat) (r : list A) :
  np_take a idx = Ok r ->
  length r = length idx /\ Forall (fun i => (i < length a)%nat) idx.
Proof.
  unfold np_take. destruct (mapM _ idx) as [r'|] eqn:E; [|discriminate].
  intros [= <-]. apply mapM_Some in E. split.
  - symmetry. eapply Forall2_length. exact E.
  - eapply Forall2_Forall_l; [exact E|].
    apply Forall_forall. intros i _ v Hv. eapply lookup_lt_Some. exact Hv.
Qed.

Section SearchTrace.

Context {series : Type}.
Variable fit_boss :
  Z -> Z -> bool -> Z -> Z -> list series -> list label ->
  (nat -> label) * (series -> label).
Context {RandomState : Type}.
Variable check_random_state : Z -> RandomState.
Variable randint : RandomState -> Z -> Z -> Z * RandomState.
Variable choice : RandomState -> nat -> nat -> list nat * RandomState.
Variable clock : Z -> Q.

Lemma search_step_trace (self : ContractableBOSS series)
    (X : ndarray3 series) (y : list label) (subsample_size : nat)
    (st : search_state series RandomState) (tr : list parameters)
    (r : result (search_state series RandomState)) :
  search_step fit_boss randint choice clock self X y subsample_size st
  = (tr, r) ->
  exists rest,
    tr ++ rest ≡ₚ possible_parameters st
    /\ forall st', r = Ok st' ->
         possible_parameters st' = rest
         /\ forall b, In b (st_classifiers st') ->
              In b (st_classifiers st)
              \/ trained_in X y tr b.
Proof.
  unfold search_step.
  destruct (randint _ _ _) as [k rng1].
  destruct (py_pop _ _) as [[params remaining]|] eqn:Epop.
  2:{ intros [= <- <-]. exists (possible_parameters st).
      split; [reflexivity|discriminate]. }
  destruct (choice _ _ _) as [sub rng2].
  destruct (np_take (instances X) sub) as [Xs|] eqn:EX.
  2:{ intros [= <- <-]. exists (possible_parameters st).
      split; [reflexivity|discriminate]. }
  destruct (np_take y sub) as [ys|] eqn:Ey.
  2:{ intros [= <- <-]. exists (possible_parameters st).
      split; [reflexivity|discriminate]. }
  destruct params as [[win_size word_len] normalise].
  destruct (fit_boss _ _ _ _ _ _ _) as [tp pr].
  intros [= <- <-]. exists remaining.
  split; [now apply py_pop_Permutation in Epop|].
  intros st'.
  destruct (_individual_train_acc _ _ _ _ _) as [acc|]; [|discriminate].
  cbn [bind].
  match goal with
  | |- context [retain ?m ?n ?b ?w ?cs ?ws ?lo ?ix] =>
      destruct (retain m n b w cs ws lo ix) as [[[[cs' ws'] low'] idx']|]
        eqn:Eret; [|discriminate]
  end.
  cbn [bind]. intros [= <-]. cbn [possible_parameters st_classifiers].
  split; [reflexivity|].
  intros b Hb. apply retain_shape in Eret as [_ Hmem].
  destruct (Hmem b Hb) as [Hold | ->]; [now left|right].
  split; [now left|]. cbn [subsample with_accuracy].
  apply np_take_valid in EX as [_ HX]. apply np_take_valid in Ey as [_ Hy].
  apply Forall_forall. intros i Hi.
  split; [exact (proj1 (Forall_forall _ _) HX i Hi)
         | exact (proj1 (Forall_forall _ _) Hy i Hi)].
Qed.

Lemma search_loop_trace (self : ContractableBOSS series) (time_limit : Q)
    (X : ndarray3 series) (y : list label) (subsample_size : nat)
    (fuel : nat) :
  forall (st : search_state series RandomState) (tr : list parameters)
         (r : result (search_state series RandomState)),
    search_loop fit_boss randint choice clock fuel self time_limit X y
      subsample_size st = (tr, r) ->
    (exists rest, tr ++ rest ≡ₚ possible_parameters st)
    /\ forall st', r = Ok st' ->
         forall b, In b (st_classifiers st') ->
           In b (st_classifiers st) \/ trained_in X y tr b.
Proof.
  induction fuel as [|fuel IH]; intros st tr r Hloop.
  - cbn in Hloop. destruct (continue self time_limit st);
      injection Hloop as <- <-;
      (split; [exists (possible_parameters st); reflexivity|]);
      intros st' [= <-] b Hb; now left.
  - cbn [search_loop] in Hloop.
    destruct (continue self time_limit st).
    2:{ injection Hloop as <- <-.
        split; [exists (possible_parameters st); reflexivity|].
        intros st' [= <-] b Hb; now left. }
    destruct (search_step _ _ _ _ _ _ _ _ _) as [tr1 r1] eqn:Estep.
    apply search_step_trace in Estep as (rest1 & Hperm1 & Hok1).
    destruct r1 as [st1|e].
    + destruct (Hok1 st1 eq_refl) as [Hposs Hmem1].
      destruct (search_loop _ _ _ _ _ _ _ _ _ _ st1) as [tr2 r2] eqn:Erec.
      injection Hloop as <- <-.
      apply IH in Erec as [(rest2 & Hperm2) Hmem2]. split.
      * exists rest2. rewrite <- Hperm1, <- Hposs, <- Hperm2.
        now rewrite app_assoc.
      * intros st' Hr b Hb.
        destruct (Hmem2 st' Hr b Hb) as [Hin1 | [Hp Hs]].
        -- destruct (Hmem1 b Hin1) as [Hold | [Hp Hs]]; [now left|right].
           split; [apply in_or_app; now left | assumption].
        -- right. split; [apply in_or_app; now right | assumption].
    + injection Hloop as <- <-. split; [now exists rest1|discriminate].
Qed.

Lemma search_loop_size (self : ContractableBOSS series) (time_limit : Q)
    (X : ndarray3 series) (y : list label) (subsample_size : nat)
    (fuel : nat) :
  forall (st st' : search_state series RandomState) (tr : list parameters),
    0 <= num_classifiers st ->
    Z.of_nat (length (st_classifiers st))
    = Z.min (num_classifiers st) (Z.max 0 (max_ensemble_size self)) ->
    search_loop fit_boss randint choice clock fuel self time_limit X y
      subsample_size st = (tr, Ok st') ->
    Z.of_nat (length (st_classifiers st'))
    = Z.min (num_classifiers st') (Z.max 0 (max_ensemble_size self))
    /\ num_classifiers st' = num_classifiers st + Z.of_nat (length tr).
Proof.
  induction fuel as [|fuel IH]; intros st st' tr Hnum Hlen Hloop.
  - cbn in Hloop. destruct (continue self time_limit st);
      injection Hloop as <- <-; cbn; split; [assumption|lia|assumption|lia].
  - cbn [search_loop] in Hloop.
    destruct (continue self time_limit st).
    2:{ injection Hloop as <- <-. cbn. split; [assumption|lia]. }
    destruct (search_step _ _ _ _ _ _ _ _ _) as [tr1 [st1|e]] eqn:Estep;
      [|discriminate].
    destruct (search_loop _ _ _ _ _ _ _ _ _ _ st1) as [tr2 r] eqn:Erec.
    injection Hloop as <- ->.
    apply search_step_ok in Estep as (Htr1 & _ & Hnum1 & _ & boss & _ & Hret).
    apply retain_shape in Hret as [Hl _].
    apply IH in Erec as [Hsize Hn].
    + split; [assumption|]. rewrite Hn, Hnum1, length_app. lia.
    + lia.
    + rewrite Hl, Hnum1.
      destruct (Z.ltb_spec (num_classifiers st) (max_ensemble_size self));
        lia.
Qed.

Lemma fit_size (self fitted : ContractableBOSS series)
    (X : ndarray3 series) (y : list label) (tr : list parameters) :
  _fit fit_boss check_random_state randint choice clock self X y
  = (tr, Ok fitted) ->
  Z.of_nat (length (classifiers fitted))
  = Z.min (Z.of_nat (length tr)) (Z.max 0 (max_ensemble_size self)).
Proof.
  unfold _fit.
  destruct (Qeq_bool (max_window_searches_of (shape2 X)) 0);
    [intros H; discriminate|].
  destruct (max_window_of _ _ + 1 <? min_window self);
    [intros H; discriminate|].
  match goal with
  | |- context [search_loop ?f ?ri ?ch ?cl ?fu ?s1 ?tl ?X ?y ?ss ?s0] =>
      destruct (search_loop f ri ch cl fu s1 tl X y ss s0) as [tr' [st'|e]]
        eqn:Eloop; [|intros H; discriminate]
  end.
  intros H. injection H as <- <-. cbn [classifiers].
  apply search_loop_size in Eloop as [Hsize Hnum]; [|cbn; lia|cbn; lia].
  cbn [num_classifiers max_ensemble_size] in Hsize, Hnum.
  rewrite Hnum in Hsize. lia.
Qed.

Lemma fit_tried_in_grid (self : ContractableBOSS series)
    (X : ndarray3 series) (y : list label) (tr : list parameters)
    (r : result (ContractableBOSS series)) :
  _fit fit_boss check_random_state randint choice clock self X y = (tr, r) ->
  exists rest, tr ++ rest ≡ₚ parameter_grid self X.
Proof.
  unfold _fit.
  destruct (Qeq_bool (max_window_searches_of (shape2 X)) 0).
  { intros [= <- <-]. now exists (parameter_grid self X). }
  destruct (max_window_of _ _ + 1 <? min_window self).
  { intros [= <- <-]. now exists (parameter_grid self X). }
  match goal with
  | |- context [search_loop ?f ?ri ?ch ?cl ?fu ?s1 ?tl ?X ?y ?ss ?s0] =>
      destruct (search_loop f ri ch cl fu s1 tl X y ss s0) as [tr' r']
        eqn:Eloop
  end.
  apply search_loop_trace in Eloop as [Hp _].
  cbn [possible_parameters] in Hp.
  destruct r'; intros [= <- <-]; exact Hp.
Qed.

Lemma fit_members_trace (self fitted : ContractableBOSS series)
    (X : ndarray3 series) (y : list label) (tr : list parameters) :
  _fit fit_boss check_random_state randint choice clock self X y
  = (tr, Ok fitted) ->
  forall b, In b (classifiers fitted) -> trained_in X y tr b.
Proof.
  unfold _fit.
  destruct (Qeq_bool (max_window_searches_of (shape2 X)) 0);
    [intros H; discriminate|].
  destruct (max_window_of _ _ + 1 <? min_window self);
    [intros H; discriminate|].
  match goal with
  | |- context [search_loop ?f ?ri ?ch ?cl ?fu ?s1 ?tl ?X ?y ?ss ?s0] =>
      destruct (search_loop f ri ch cl fu s1 tl X y ss s0) as [tr' r']
        eqn:Eloop
  end.
  apply search_loop_trace in Eloop as [_ Hmem].
  destruct r' as [st'|]; [|intros H; discriminate].
  intros [= <- <-]. cbn [classifiers]. intros b Hb.
  destruct (Hmem st' eq_refl b Hb) as [[] | H]. exact H.
Qed.

End SearchTrace.

(** X4. The size of the ensemble after a fit that returns: the number of
    retained members is the number of candidates tried, capped at
    [max_ensemble_size] (at 0 for a negative cap); there are as many
    weights as members, [n_estimators] is that number, and it never
    exceeds the size of the parameter grid. *)
Theorem fit_ensemble_size {series RandomState : Type}
    (fit_boss : Z -> Z -> bool -> Z -> Z -> list series -> list label ->
                (nat -> label) * (series -> label))
    (check_random_state : Z -> RandomState)
    (randint : RandomState -> Z -> Z -> Z * RandomState)
    (choice : RandomState -> nat -> nat -> list nat * RandomState)
    (clock : Z -> Q)
    (self fitted : ContractableBOSS series)
    (X : ndarray3 series) (y : list label) (tr : list parameters) :
  _fit fit_boss check_random_state randint choice clock self X y
  = (tr, Ok fitted) ->
  Z.of_nat (n_estimators fitted)
  = Z.min (Z.of_nat (length tr)) (Z.max 0 (max_ensemble_size self))
  /\ length (classifiers fitted) = n_estimators fitted
  /\ length (weights fitted) = n_estimators fitted
  /\ (n_estimators fitted <= length (parameter_grid self X))%nat.
Proof.
  intros Hfit.
  pose proof (fit_ok _ _ _ _ _ _ _ _ _ _ Hfit)
    as (_ & _ & (low & idx & Hinv & _) & _ & Hn & _).
  pose proof (fit_stopping_rule _ _ _ _ _ _ _ _ _ _ Hfit) as (_ & Hgrid & _).
  pose proof (fit_size _ _ _ _ _ _ _ _ _ _ Hfit) as Hsize.
  apply Forall2_length in Hinv. rewrite Hn.
  split; [exact Hsize|]. split; [reflexivity|]. split; [lia|]. lia.
Qed.

Lemma fit_ensemble_size_witness :
  exists tr fitted,
    toy_fit fast_clock toy_config = (tr, Ok fitted)
    /\ Z.of_nat (n_estimators fitted)
       = Z.min (Z.of_nat (length tr)) (Z.max 0 (max_ensemble_size toy_config))
    /\ length (classifiers fitted) = n_estimators fitted
    /\ length (weights fitted) = n_estimators fitted
    /\ (n_estimators fitted <= length (parameter_grid toy_config toy_X))%nat.
Proof.
  do 2 eexists. split; [vm_compute; reflexivity|].
  eapply (fit_ensemble_size toy_fit_boss toy_check_random_state toy_randint
            toy_choice fast_clock toy_config _ toy_X toy_labels).
  vm_compute; reflexivity.
Defined.

(** X5. Sampling without replacement.  Whatever the outcome of [_fit],
    the candidates on which base learners were fitted, together with some
    remainder, are a rearrangement of the parameter grid: every grid entry
    is tried at most once.  When the two option lists have no duplicates,
    no parameter triple is tried twice. *)
Theorem fit_candidates_without_replacement {series RandomState : Type}
    (fit_boss : Z -> Z -> bool -> Z -> Z -> list series -> list label ->
                (nat -> label) * (series -> label))
    (check_random_state : Z -> RandomState)
    (randint : RandomState -> Z -> Z -> Z * RandomState)
    (choice : RandomState -> nat -> nat -> list nat * RandomState)
    (clock : Z -> Q)
    (self : ContractableBOSS series)
    (X : ndarray3 series) (y : list label) (tr : list parameters)
    (r : result (ContractableBOSS series)) :
  _fit fit_boss check_random_state randint choice clock self X y = (tr, r) ->
  (exists rest, tr ++ rest ≡ₚ parameter_grid self X)
  /\ (forall p, In p tr -> In p (parameter_grid self X))
  /\ (NoDup (norm_options self) -> NoDup (word_lengths self) -> NoDup tr).
Proof.
  intros Hfit.
  pose proof (fit_tried_in_grid _ _ _ _ _ _ _ _ _ _ Hfit) as Hperm.
  split; [exact Hperm|]. destruct Hperm as [rest Hperm]. split.
  - intros p Hp. apply list_elem_of_In. rewrite <- Hperm.
    apply elem_of_app. left. now apply list_elem_of_In.
  - intros Hn Hw.
    assert (Hnd : NoDup (parameter_grid self X)).
    { apply unique_parameters_NoDup; [apply win_inc_of_pos | |]; assumption. }
    rewrite <- Hperm in Hnd. now apply NoDup_app in Hnd as [Hnd _].
Qed.

Lemma fit_candidates_without_replacement_witness :
  exists tr r,
    toy_fit fast_clock toy_config = (tr, r)
    /\ (exists rest, tr ++ rest ≡ₚ parameter_grid toy_config toy_X)
    /\ (forall p, In p tr -> In p (parameter_grid toy_config toy_X))
    /\ (NoDup (norm_options toy_config) -> NoDup (word_lengths toy_config) ->
        NoDup tr).
Proof.
  do 2 eexists. split; [vm_compute; reflexivity|].
  eapply (fit_candidates_without_replacement toy_fit_boss
            toy_check_random_state toy_randint toy_choice fast_clock
            toy_config toy_X toy_labels).
  vm_compute; reflexivity.
Defined.

(** X6. Where the retained members come from.  After a fit that returns,
    every retained member carries the parameter triple of a candidate that
    was tried in this fit, so a triple of the grid, with its window between
    [min_window] and [max_window]; and every index of its subsample
    addresses a training instance and a training label. *)
Theorem fit_members_trained {series RandomState : Type}
    (fit_boss : Z -> Z -> bool -> Z -> Z -> list series -> list label ->
                (nat -> label) * (series -> label))
    (check_random_state : Z -> RandomState)
    (randint : RandomState -> Z -> Z -> Z * RandomState)
    (choice : RandomState -> nat -> nat -> list nat * RandomState)
    (clock : Z -> Q)
    (self fitted : ContractableBOSS series)
    (X : ndarray3 series) (y : list label) (tr : list parameters) :
  _fit fit_boss check_random_state randint choice clock self X y
  = (tr, Ok fitted) ->
  forall b, In b (classifiers fitted) ->
    In (window_size b, word_length b, norm b) tr
    /\ In (norm b) (norm_options self)
    /\ In (word_length b) (word_lengths self)
    /\ min_window self <= window_size b
       <= max_window_of (shape2 X) (max_win_len_prop self)
    /\ Forall (fun i => (i < length (instances X))%nat /\ (i < length y)%nat)
         (subsample b).
Proof.
  intros Hfit b Hb.
  destruct (fit_members_trace _ _ _ _ _ _ _ _ _ _ Hfit b Hb) as [Hp Hs].
  split; [exact Hp|].
  destruct (fit_tried_in_grid _ _ _ _ _ _ _ _ _ _ Hfit) as [rest Hperm].
  assert (Hin : In (window_size b, word_length b, norm b)
                  (parameter_grid self X)).
  { apply list_elem_of_In. rewrite <- Hperm. apply elem_of_app. left.
    now apply list_elem_of_In. }
  unfold parameter_grid in Hin.
  apply unique_parameters_In in Hin as (Hn & Hw & Hrange).
  apply py_range_In in Hrange as [Hrange _]; [|apply win_inc_of_pos].
  repeat split; try assumption; lia.
Qed.

Lemma fit_members_trained_witness :
  exists tr fitted b,
    toy_fit fast_clock toy_config = (tr, Ok fitted)
    /\ In b (classifiers fitted)
    /\ In (window_size b, word_length b, norm b) tr
    /\ In (norm b) (norm_options toy_config)
    /\ In (word_length b) (word_lengths toy_config)
    /\ min_window toy_config <= window_size b
       <= max_window_of (shape2 toy_X) (max_win_len_prop toy_config)
    /\ Forall (fun i => (i < length (instances toy_X))%nat
                        /\ (i < length toy_labels)%nat)
         (subsample b).
Proof.
  do 3 eexists. split; [vm_compute; reflexivity|].
  split; [left; reflexivity|].
  eapply (fit_members_trained toy_fit_boss toy_check_random_state
            toy_randint toy_choice fast_clock toy_config _ toy_X toy_labels);
    [vm_compute; reflexivity | left; reflexivity].
Defined.

(** ** How many candidates a fit tries *)

(** X7. The count contract.  Without a positive time limit, on a clock
    that never runs backwards, a fit that returns has tried exactly
    [n_parameter_samples] candidates, or the whole grid when the grid is
    smaller (and none for a target that is not positive). *)
Theorem fit_candidate_count {series RandomState : Type}
    (fit_boss : Z -> Z -> bool -> Z -> Z -> list series -> list label ->
                (nat -> label) * (series -> label))
    (check_random_state : Z -> RandomState)
    (randint : RandomState -> Z -> Z -> Z * RandomState)
    (choice : RandomState -> nat -> nat -> list nat * RandomState)
    (clock : Z -> Q)
    (self fitted : ContractableBOSS series)
    (X : ndarray3 series) (y : list label) (tr : list parameters) :
  (time_limit_in_minutes self <= 0)%Q ->
  (forall k, 0 < k -> (0 <= clock k)%Q) ->
  _fit fit_boss check_random_state randint choice clock self X y
  = (tr, Ok fitted) ->
  Z.of_nat (length tr)
  = Z.min (Z.max 0 (n_parameter_samples self))
      (Z.of_nat (length (parameter_grid self X))).
Proof.
  intros Hlimit Hclock Hfit.
  pose proof (fit_stopping_rule _ _ _ _ _ _ _ _ _ _ Hfit) as Hrule.
  cbv zeta in Hrule.
  assert (Hnot : Qlt_bool 0 (time_limit_in_minutes self * 60) = false).
  { apply Qlt_bool_false_iff. lra. }
  rewrite Hnot in Hrule. destruct Hrule as (_ & Hgrid & Hexit & Hpass).
  assert (Helapsed : forall k, 0 <= k -> (0 <= elapsed clock k)%Q).
  { intros k Hk. unfold elapsed. destruct (Z.eqb_spec k 0); [lra|].
    apply Hclock. lia. }
  assert (Hupper : Z.of_nat (length tr) <= Z.max 0 (n_parameter_samples self)).
  { destruct (length tr) as [|n] eqn:E; [lia|].
    destruct (Hpass (Z.of_nat n) ltac:(lia)) as [Ht | Hn]; [|lia].
    specialize (Helapsed (Z.of_nat n) ltac:(lia)). lra. }
  destruct Hexit as [[_ Htarget] | Hall]; lia.
Qed.

Lemma fit_candidate_count_witness :
  exists tr fitted,
    (time_limit_in_minutes toy_config <= 0)%Q
    /\ (forall k, 0 < k -> (0 <= fast_clock k)%Q)
    /\ toy_fit fast_clock toy_config = (tr, Ok fitted)
    /\ Z.of_nat (length tr)
       = Z.min (Z.max 0 (n_parameter_samples toy_config))
           (Z.of_nat (length (parameter_grid toy_config toy_X))).
Proof.
  assert (Hclock : forall k, 0 < k -> (0 <= fast_clock k)%Q).
  { intros k Hk. unfold fast_clock.
    replace 0%Q with (inject_Z 0) by reflexivity. rewrite <- Zle_Qle. lia. }
  do 2 eexists. split; [vm_compute; discriminate|].
  split; [exact Hclock|]. split; [vm_compute; reflexivity|].
  eapply (fit_candidate_count toy_fit_boss toy_check_random_state toy_randint
            toy_choice fast_clock toy_config _ toy_X toy_labels);
    [vm_compute; discriminate | exact Hclock | vm_compute; reflexivity].
Defined.

(** X8. A time-boxed fit makes progress.  With a positive time limit and
    a non-empty grid, a fit that returns has tried at least one candidate,
    however small the budget: the budget is first checked against a
    training time of zero.  With room for one member the ensemble is then
    not empty. *)
Theorem fit_time_boxed_progress {series RandomState : Type}
    (fit_boss : Z -> Z -> bool -> Z -> Z -> list series -> list label ->
                (nat -> label) * (series -> label))
    (check_random_state : Z -> RandomState)
    (randint : RandomState -> Z -> Z -> Z * RandomState)
    (choice : RandomState -> nat -> nat -> list nat * RandomState)
    (clock : Z -> Q)
    (self fitted : ContractableBOSS series)
    (X : ndarray3 series) (y : list label) (tr : list parameters) :
  (0 < time_limit_in_minutes self)%Q ->
  parameter_grid self X <> [] ->
  _fit fit_boss check_random_state randint choice clock self X y
  = (tr, Ok fitted) ->
  (1 <= length tr)%nat
  /\ (1 <= max_ensemble_size self -> (1 <= n_estimators fitted)%nat).
Proof.
  intros Hlimit Hgrid Hfit.
  pose proof (fit_stopping_rule _ _ _ _ _ _ _ _ _ _ Hfit) as Hrule.
  cbv zeta in Hrule. destruct Hrule as (_ & _ & Hexit & _).
  pose proof (fit_size _ _ _ _ _ _ _ _ _ _ Hfit) as Hsize.
  pose proof (fit_ok _ _ _ _ _ _ _ _ _ _ Hfit)
    as (_ & _ & _ & _ & Hn & _).
  assert (Htried : (1 <= length tr)%nat).
  { destruct tr as [|p tr]; [|cbn; lia]. exfalso.
    destruct Hexit as [[Ht _] | Hall].
    - change (elapsed clock (Z.of_nat (@length parameters []))) with 0%Q in Ht.
      lra.
    - destruct (parameter_grid self X); [congruence|discriminate]. }
  split; [exact Htried|]. intros Hmax. lia.
Qed.

Lemma fit_time_boxed_progress_witness :
  exists tr fitted,
    (0 < time_limit_in_minutes toy_timed_config)%Q
    /\ parameter_grid toy_timed_config toy_X <> []
    /\ toy_fit slow_clock toy_timed_config = (tr, Ok fitted)
    /\ (1 <= length tr)%nat
    /\ (1 <= max_ensemble_size toy_timed_config ->
        (1 <= n_estimators fitted)%nat).
Proof.
  do 2 eexists. split; [reflexivity|].
  split; [vm_compute; discriminate|].
  split; [vm_compute; reflexivity|].
  eapply (fit_time_boxed_progress toy_fit_boss toy_check_random_state
            toy_randint toy_choice slow_clock toy_timed_config _ toy_X
            toy_labels);
    [reflexivity | vm_compute; discriminate | vm_compute; reflexivity].
Defined.

(** ** Accuracies and weights of the retained members *)

Lemma np_sum_nonneg (ws : list Q) :
  Forall (fun w => (0 < w)%Q) ws -> (0 <= np_sum ws)%Q.
Proof.
  induction 1 as [|w ws Hw _ IH]; [cbn; lra|]. rewrite np_sum_cons. lra.
Qed.

Lemma np_sum_pos (ws : list Q) :
  Forall (fun w => (0 < w)%Q) ws -> ws <> [] -> (0 < np_sum ws)%Q.
Proof.
  intros Hpos Hne. destruct Hpos as [|w ws Hw Hws]; [congruence|].
  rewrite np_sum_cons. pose proof (np_sum_nonneg ws Hws). lra.
Qed.

Lemma weight_of_le_1 (acc : Q) : (acc <= 1)%Q -> (weight_of acc <= 1)%Q.
Proof.
  intros Hacc. unfold weight_of.
  destruct (Qlt_bool 0 acc) eqn:E.
  - apply Qlt_bool_iff in E.
    assert (H2 : (acc * acc <= 1)%Q) by nra.
    assert (H20 : (0 <= acc * acc)%Q) by nra.
    assert (E4 : (acc ^ 4 == (acc * acc) * (acc * acc))%Q) by (simpl; ring).
    rewrite E4. nra.
  - unfold weight_floor. reflexivity || (unfold Qle; cbn; lia).
Qed.

(** X9. What a fit that returns keeps.  Every retained member has an
    estimated accuracy between 0 and 1: the sentinel [-1] of an abandoned
    candidate never enters the ensemble.  Every weight is positive and at
    most 1.  The stored weight sum is positive exactly when the ensemble
    has a member, and zero for the empty ensemble. *)
Theorem fitted_accuracies_and_weights {series RandomState : Type}
    (fit_boss : Z -> Z -> bool -> Z -> Z -> list series -> list label ->
                (nat -> label) * (series -> label))
    (check_random_state : Z -> RandomState)
    (randint : RandomState -> Z -> Z -> Z * RandomState)
    (choice : RandomState -> nat -> nat -> list nat * RandomState)
    (clock : Z -> Q)
    (self fitted : ContractableBOSS series)
    (X : ndarray3 series) (y : list label) (tr : list parameters) :
  _fit fit_boss check_random_state randint choice clock self X y
  = (tr, Ok fitted) ->
  (forall b, In b (classifiers fitted) -> (0 <= accuracy b <= 1)%Q)
  /\ (forall w, In w (weights fitted) -> (0 < w <= 1)%Q)
  /\ (classifiers fitted <> [] -> (0 < weight_sum fitted)%Q)
  /\ (classifiers fitted = [] -> weight_sum fitted = 0%Q).
Proof.
  intros Hfit.
  pose proof (fit_ok _ _ _ _ _ _ _ _ _ _ Hfit)
    as (_ & _ & (low & idx & Hinv & Hacc & _) & Hsum & _).
  pose proof (weights_positive _ _ Hinv) as Hpos.
  split; [|split; [|split]].
  - intros b Hb. apply list_elem_of_In, list_elem_of_lookup_1 in Hb as [j Hj].
    eapply Hacc. exact Hj.
  - intros w Hw. apply list_elem_of_In, list_elem_of_lookup_1 in Hw as [j Hj].
    destruct (Forall2_lookup_r _ _ _ _ _ Hinv Hj) as (b & Hb & ->).
    split; [apply weight_of_pos|]. apply weight_of_le_1.
    apply (Hacc j b Hb).
  - intros Hne. rewrite Hsum. apply np_sum_pos; [assumption|].
    intros Hw. apply Forall2_length in Hinv. rewrite Hw in Hinv.
    destruct (classifiers fitted); [congruence|discriminate].
  - intros Hnil. rewrite Hsum. apply Forall2_length in Hinv.
    rewrite Hnil in Hinv. destruct (weights fitted); [reflexivity|].
    discriminate.
Qed.

Lemma fitted_accuracies_and_weights_witness :
  exists tr fitted,
    toy_fit fast_clock toy_config = (tr, Ok fitted)
    /\ (forall b, In b (classifiers fitted) -> (0 <= accuracy b <= 1)%Q)
    /\ (forall w, In w (weights fitted) -> (0 < w <= 1)%Q)
    /\ (classifiers fitted <> [] -> (0 < weight_sum fitted)%Q)
    /\ (classifiers fitted = [] -> weight_sum fitted = 0%Q).
Proof.
  do 2 eexists. split; [vm_compute; reflexivity|].
  eapply (fitted_accuracies_and_weights toy_fit_boss toy_check_random_state
            toy_randint toy_choice fast_clock toy_config _ toy_X toy_labels).
  vm_compute; reflexivity.
Defined.

(** ** Degenerate training data *)

(** X10. A training array whose series have length 0 makes [_fit] raise
    [ZeroDivisionError] before any learner is fitted: the window increment
    divides by [series_length / 4], and that division comes before the
    check of [min_window], so the [ValueError] of the configuration check
    is never reached for such data. *)
Theorem fit_empty_series {series RandomState : Type}
    (fit_boss : Z -> Z -> bool -> Z -> Z -> list series -> list label ->
                (nat -> label) * (series -> label))
    (check_random_state : Z -> RandomState)
    (randint : RandomState -> Z -> Z -> Z * RandomState)
    (choice : RandomState -> nat -> nat -> list nat * RandomState)
    (clock : Z -> Q)
    (self : ContractableBOSS series) (X : ndarray3 series)
    (y : list label) :
  shape2 X = 0%nat ->
  _fit fit_boss check_random_state randint choice clock self X y
  = ([], Raise ZeroDivisionError)
  /\ max_window_of (shape2 X) (max_win_len_prop self) = 0.
Proof.
  intros H0. unfold _fit, max_window_of. rewrite H0. cbn [Z.of_nat].
  split; [reflexivity|].
  unfold py_int. cbn. apply Z.quot_0_l. discriminate.
Qed.

Lemma fit_empty_series_witness :
  shape2 toy_X_empty_series = 0%nat
  /\ _fit toy_fit_boss toy_check_random_state toy_randint toy_choice
       fast_clock (init nat 250 50 1 10 0 1 0) toy_X_empty_series toy_labels
     = ([], Raise ZeroDivisionError)
  /\ max_window_of (shape2 toy_X_empty_series)
       (max_win_len_prop (init nat 250 50 1 10 0 1 0)) = 0.
Proof.
  split; [reflexivity|].
  apply (fit_empty_series toy_fit_boss toy_check_random_state toy_randint
           toy_choice fast_clock (init nat 250 50 1 10 0 1 0)
           toy_X_empty_series toy_labels).
  reflexivity.
Defined.

Lemma individual_train_acc_no_instances {series} (jobs : Z)
    (boss : IndividualBOSS series) (y : list label) (low : Q) :
  _individual_train_acc jobs boss y 0 low = Raise ZeroDivisionError.
Proof.
  unfold _individual_train_acc, _individual_train_acc_traced.
  destruct (1 <? jobs); reflexivity.
Qed.

Lemma subsample_size_of_small (n : nat) :
  (n <= 1)%nat -> subsample_size_of n = 0%nat.
Proof. intros H. destruct n as [|[|n]]; [reflexivity | reflexivity | lia]. Qed.

Section NoSubsample.

Context {series : Type}.
Variable fit_boss :
  Z -> Z -> bool -> Z -> Z -> list series -> list label ->
  (nat -> label) * (series -> label).
Context {RandomState : Type}.
Variable check_random_state : Z -> RandomState.
Variable randint : RandomState -> Z -> Z -> Z * RandomState.
Variable choice : RandomState -> nat -> nat -> list nat * RandomState.
Variable clock : Z -> Q.

Lemma py_pop_raises {A : Type} (l : list A) (i : Z) (e : exn) :
  py_pop l i = Raise e -> e = IndexError.
Proof.
  unfold py_pop. destruct (py_index l i) as [k|]; [|congruence].
  destruct (l !! k); congruence.
Qed.

Lemma np_take_raises {A : Type} (a : list A) (idx : list nat) (e : exn) :
  np_take a idx = Raise e -> e = IndexError.
Proof. unfold np_take. destruct (mapM _ idx); cbn; congruence. Qed.

Lemma search_step_no_subsample (self : ContractableBOSS series)
    (X : ndarray3 series) (y : list label)
    (st : search_state series RandomState) (tr : list parameters)
    (r : result (search_state series RandomState)) :
  search_step fit_boss randint choice clock self X y 0 st = (tr, r) ->
  tr = [] /\ r = Raise IndexError
  \/ (exists p, tr = [p]) /\ r = Raise ZeroDivisionError.
Proof.
  unfold search_step.
  destruct (randint _ _ _) as [k rng1].
  destruct (py_pop _ _) as [[params remaining]|e] eqn:Epop.
  2:{ apply py_pop_raises in Epop as ->. intros [= <- <-]. now left. }
  destruct (choice _ _ _) as [sub rng2].
  destruct (np_take (instances X) sub) as [Xs|e] eqn:EX.
  2:{ apply np_take_raises in EX as ->. intros [= <- <-]. now left. }
  destruct (np_take y sub) as [ys|e] eqn:Ey.
  2:{ apply np_take_raises in Ey as ->. intros [= <- <-]. now left. }
  destruct params as [[win_size word_len] normalise].
  destruct (fit_boss _ _ _ _ _ _ _) as [tp pr].
  rewrite individual_train_acc_no_instances. cbn [bind].
  intros [= <- <-]. right. split; [eexists|]; reflexivity.
Qed.

Lemma search_loop_no_subsample (self : ContractableBOSS series)
    (time_limit : Q) (X : ndarray3 series) (y : list label) (fuel : nat)
    (st : search_state series RandomState) (tr : list parameters)
    (r : result (search_state series RandomState)) :
  search_loop fit_boss randint choice clock fuel self time_limit X y 0 st
  = (tr, r) ->
  tr = [] /\ (r = Ok st \/ r = Raise IndexError)
  \/ (exists p, tr = [p]) /\ r = Raise ZeroDivisionError.
Proof.
  destruct fuel as [|fuel]; cbn [search_loop].
  - destruct (continue self time_limit st); intros [= <- <-]; auto.
  - destruct (continue self time_limit st); [|intros [= <- <-]; auto].
    destruct (search_step _ _ _ _ _ _ _ _ _) as [tr1 r1] eqn:Estep.
    apply search_step_no_subsample in Estep as [[-> ->] | [Hp ->]];
      intros [= <- <-]; auto.
Qed.

Lemma fit_no_subsample (self : ContractableBOSS series)
    (X : ndarray3 series) (y : list label) (tr : list parameters)
    (r : result (ContractableBOSS series)) :
  (length (instances X) <= 1)%nat ->
  _fit fit_boss check_random_state randint choice clock self X y = (tr, r) ->
  tr = []
  /\ ((exists fitted, r = Ok fitted /\ classifiers fitted = []
                      /\ weights fitted = [] /\ n_estimators fitted = 0%nat
                      /\ weight_sum fitted = 0%Q)
      \/ r = Raise IndexError \/ r = Raise ZeroDivisionError
      \/ r = Raise ValueError)
  \/ (exists p, tr = [p]) /\ r = Raise ZeroDivisionError.
Proof.
  intros Hn. unfold _fit. rewrite (subsample_size_of_small _ Hn).
  destruct (Qeq_bool (max_window_searches_of (shape2 X)) 0).
  { intros [= <- <-]. left. auto. }
  destruct (max_window_of _ _ + 1 <? min_window self).
  { intros [= <- <-]. left. auto 6. }
  match goal with
  | |- context [search_loop ?f ?ri ?ch ?cl ?fu ?s1 ?tl ?X ?y ?ss ?s0] =>
      destruct (search_loop f ri ch cl fu s1 tl X y ss s0) as [tr' r']
        eqn:Eloop
  end.
  apply search_loop_no_subsample in Eloop
    as [[-> [-> | ->]] | [Hp ->]]; intros [= <- <-].
  - left. split; [reflexivity|]. left. eexists. cbn. repeat split.
  - left. auto.
  - right. auto.
Qed.

End NoSubsample.

(** X11. Fewer than two training instances cannot train a member.  The
    subsample size [int(n_instances * 0.7)] is then 0, so the accuracy of
    the first candidate divides by zero.  [_fit] on such data fits at most
    one base learner; if it fitted one it raises [ZeroDivisionError]; and
    if it returns, it tried no candidate and the ensemble is empty with
    weight sum 0. *)
Theorem fit_too_few_instances {series RandomState : Type}
    (fit_boss : Z -> Z -> bool -> Z -> Z -> list series -> list label ->
                (nat -> label) * (series -> label))
    (check_random_state : Z -> RandomState)
    (randint : RandomState -> Z -> Z -> Z * RandomState)
    (choice : RandomState -> nat -> nat -> list nat * RandomState)
    (clock : Z -> Q)
    (self : ContractableBOSS series) (X : ndarray3 series)
    (y : list label) (tr : list parameters)
    (r : result (ContractableBOSS series)) :
  (length (instances X) <= 1)%nat ->
  _fit fit_boss check_random_state randint choice clock self X y = (tr, r) ->
  subsample_size_of (length (instances X)) = 0%nat
  /\ (length tr <= 1)%nat
  /\ (tr <> [] -> r = Raise ZeroDivisionError)
  /\ (forall fitted, r = Ok fitted ->
        tr = [] /\ classifiers fitted = [] /\ n_estimators fitted = 0%nat
        /\ weight_sum fitted = 0%Q).
Proof.
  intros Hn Hfit. split; [now apply subsample_size_of_small|].
  destruct (fit_no_subsample _ _ _ _ _ _ _ _ _ _ Hn Hfit)
    as [[-> Hr] | [[p ->] ->]].
  - split; [cbn; lia|]. split; [congruence|].
    intros fitted ->.
    destruct Hr as [(f & [= <-] & Hc & _ & Hne & Hw) | [H | [H | H]]];
      [auto | discriminate..].
  - split; [cbn; lia|]. split; [reflexivity|]. discriminate.
Qed.

Lemma fit_too_few_instances_witness :
  exists tr r,
    (length (instances toy_X_single) <= 1)%nat
    /\ _fit toy_fit_boss toy_check_random_state toy_randint toy_choice
         fast_clock toy_config toy_X_single [1] = (tr, r)
    /\ tr <> []
    /\ r = Raise ZeroDivisionError.
Proof.
  do 2 eexists. split; [cbn; lia|].
  split; [vm_compute; reflexivity|]. split; [discriminate|].
  eapply (fit_too_few_instances toy_fit_boss toy_check_random_state
            toy_randint toy_choice fast_clock toy_config toy_X_single [1]);
    [cbn; lia | vm_compute; reflexivity | discriminate].
Defined.

(** ** Classes and the class dictionary *)

Lemma class_values_NoDup (y : list label) : NoDup (class_values y).
Proof.
  unfold class_values. rewrite merge_sort_Permutation.
  apply NoDup_remove_dups.
Qed.

Lemma class_values_In_iff (y : list label) (l : label) :
  In l (class_values y) <-> In l y.
Proof.
  unfold class_values. rewrite <- !list_elem_of_In.
  rewrite merge_sort_Permutation. apply elem_of_remove_dups.
Qed.

Lemma fill_class_dictionary_lookup (classes : list label) :
  forall (d : gmap Z nat) (index p : nat) (l : label),
    NoDup classes -> classes !! p = Some l ->
    fill_class_dictionary d index classes !! l = Some (index + p)%nat.
Proof.
  induction classes as [|c classes IH]; intros d index p l Hnd Hp;
    [discriminate|].
  apply NoDup_cons in Hnd as [Hc Hnd]. cbn [fill_class_dictionary].
  destruct p as [|p]; cbn in Hp.
  - injection Hp as ->.
    rewrite fill_class_dictionary_other
      by (intros H; apply Hc; now apply list_elem_of_In).
    rewrite lookup_insert_eq. f_equal. lia.
  - rewrite (IH _ _ p l Hnd Hp). f_equal. lia.
Qed.

(** X12. What [_fit] records about the classes.  [classes_] lists the
    distinct training labels in ascending order, [n_classes] is its
    length, and the class dictionary inverts it: the label at position [k]
    of [classes_] is mapped to [k], so [classes_[class_dictionary[l]]] is
    [l] for every training label [l].  The dictionary is not reset by
    [_fit]: a label that does not occur in [y] keeps the entry it had
    before the fit. *)
Theorem fit_class_dictionary {series RandomState : Type}
    (fit_boss : Z -> Z -> bool -> Z -> Z -> list series -> list label ->
                (nat -> label) * (series -> label))
    (check_random_state : Z -> RandomState)
    (randint : RandomState -> Z -> Z -> Z * RandomState)
    (choice : RandomState -> nat -> nat -> list nat * RandomState)
    (clock : Z -> Q)
    (self fitted : ContractableBOSS series)
    (X : ndarray3 series) (y : list label) (tr : list parameters) :
  _fit fit_boss check_random_state randint choice clock self X y
  = (tr, Ok fitted) ->
  n_classes fitted = length (classes_ fitted)
  /\ Sorted Z.le (classes_ fitted)
  /\ NoDup (classes_ fitted)
  /\ (forall l, In l (classes_ fitted) <-> In l y)
  /\ (forall k l, classes_ fitted !! k = Some l ->
        class_dictionary fitted !! l = Some k)
  /\ (forall l, In l y ->
        exists k, class_dictionary fitted !! l = Some k
                  /\ classes_ fitted !! k = Some l)
  /\ (forall l, ~ In l y ->
        class_dictionary fitted !! l = class_dictionary self !! l).
Proof.
  intros Hfit.
  pose proof (fit_ok _ _ _ _ _ _ _ _ _ _ Hfit)
    as (_ & _ & _ & _ & _ & Hn & Hc & Hd & _).
  rewrite Hn, Hc, Hd. split; [now rewrite class_values_length|].
  split; [apply Sorted_merge_sort; apply _|].
  split; [apply class_values_NoDup|].
  split; [apply class_values_In_iff|]. split; [|split].
  - intros k l Hk.
    now rewrite (fill_class_dictionary_lookup _ _ 0 k l
                   (class_values_NoDup y) Hk).
  - intros l Hl. apply class_values_In_iff in Hl.
    apply list_elem_of_In, list_elem_of_lookup_1 in Hl as [k Hk].
    exists k. split; [|exact Hk].
    now rewrite (fill_class_dictionary_lookup _ _ 0 k l
                   (class_values_NoDup y) Hk).
  - intros l Hl. apply fill_class_dictionary_other.
    now rewrite class_values_In_iff.
Qed.

Lemma fit_class_dictionary_witness :
  exists tr fitted,
    toy_fit fast_clock toy_config = (tr, Ok fitted)
    /\ n_classes fitted = length (classes_ fitted)
    /\ Sorted Z.le (classes_ fitted)
    /\ NoDup (classes_ fitted)
    /\ (forall l, In l (classes_ fitted) <-> In l toy_labels)
    /\ (forall k l, classes_ fitted !! k = Some l ->
          class_dictionary fitted !! l = Some k)
    /\ (forall l, In l toy_labels ->
          exists k, class_dictionary fitted !! l = Some k
                    /\ classes_ fitted !! k = Some l)
    /\ (forall l, ~ In l toy_labels ->
          class_dictionary fitted !! l = class_dictionary toy_config !! l).
Proof.
  do 2 eexists. split; [vm_compute; reflexivity|].
  eapply (fit_class_dictionary toy_fit_boss toy_check_random_state
            toy_randint toy_choice fast_clock toy_config _ toy_X toy_labels).
  vm_compute; reflexivity.
Defined.

(** ** The retention threshold *)

(** Once the ensemble is full, the retention step never lowers the
    threshold and never changes the size of the ensemble: after a
    candidate has been offered, the recorded lowest accuracy is at least
    what it was before, every member has an accuracy of at least the old
    threshold, and there are as many members and weights as before. *)
Lemma retain_full_monotone {series} (max_size num : Z)
    (boss : IndividualBOSS series) (cs cs' : list (IndividualBOSS series))
    (ws ws' : list Q) (low low' : Q) (idx idx' : Z) :
  max_size <= num ->
  length ws = length cs ->
  tracked cs low idx ->
  (accuracy boss <= 1)%Q ->
  retain max_size num boss (weight_of (accuracy boss)) cs ws low idx
  = Ok (cs', ws', low', idx') ->
  (low <= low')%Q
  /\ length cs' = length cs /\ length ws' = length ws
  /\ (forall b, In b cs' -> (low <= accuracy b)%Q)
  /\ (forall b, In b cs' -> (low' <= accuracy b)%Q).
Proof.
  intros Hfull Hlen Htr Hacc Hret.
  pose proof Htr as [Hall Hlow].
  assert (Hlow1 : (low <= 1)%Q) by (destruct Hlow as [[H _] | H]; lra).
  assert (Hold : forall b, In b cs -> (low <= accuracy b)%Q).
  { intros b Hb. apply list_elem_of_In, list_elem_of_lookup_1 in Hb as [j Hj].
    eapply Hall. exact Hj. }
  destruct (Qlt_le_dec low (accuracy boss)) as [Hgt | Hle].
  - destruct (retain_replaces max_size num boss cs ws low idx Hfull Hlen Htr
                Hacc Hgt)
      as (k & l' & i' & _ & Hmin & Heq & _ & Hnew).
    rewrite Heq in Hret.
    assert (Hcs : cs' = <[k := boss]> cs) by congruence.
    assert (Hws : ws' = <[k := weight_of (accuracy boss)]> ws) by congruence.
    assert (Hl : low' = l') by congruence.
    subst cs' ws' l'.
    assert (Hmem : forall b, In b (<[k := boss]> cs) ->
                     (low <= accuracy b)%Q).
    { intros b Hb.
      apply list_elem_of_In, list_elem_of_lookup_1 in Hb as [j Hj].
      apply list_lookup_insert_Some in Hj as [(_ & <- & _) | (_ & Hj)];
        [lra|]. eapply Hall. exact Hj. }
    split; [|split; [|split; [|split]]].
    + destruct Hnew as [[_ (k' & _ & (b' & Hb' & Hq) & _)] | [-> _]];
        [|exact Hlow1].
      rewrite <- Hq. apply Hmem. apply list_elem_of_In.
      eapply list_elem_of_lookup_2. exact Hb'.
    + apply length_insert.
    + apply length_insert.
    + exact Hmem.
    + intros b Hb.
      apply list_elem_of_In, list_elem_of_lookup_1 in Hb as [j Hj].
      destruct Hnew as [[_ (k' & _ & _ & Hleast & _)] | (-> & _ & Hone)].
      * eapply Hleast. exact Hj.
      * eapply Hone. exact Hj.
  - rewrite (retain_rejects max_size num boss cs ws low idx _ Hfull Hle)
      in Hret.
    assert (Hcs : cs' = cs) by congruence.
    assert (Hws : ws' = ws) by congruence.
    assert (Hl : low' = low) by congruence.
    subst. split; [lra|]. auto.
Qed.

(** ** Prediction *)

Lemma fold_np_maximum_fin (qs : list Q) :
  forall q0,
    exists m,
      fold_left np_maximum (map Fin qs) (Fin q0) = Fin m
      /\ In m (q0 :: qs)
      /\ forall q, In q (q0 :: qs) -> (q <= m)%Q.
Proof.
  induction qs as [|q qs IH]; intros q0.
  - exists q0. split; [reflexivity|]. split; [now left|].
    intros q [<- | []]. lra.
  - cbn [map fold_left np_maximum].
    destruct (Qle_bool q0 q) eqn:E.
    + apply Qle_bool_iff in E.
      destruct (IH q) as (m & Hm & Hin & Hmax).
      exists m. split; [exact Hm|]. split; [now right|].
      intros q' [<- | Hq'].
      * specialize (Hmax q (or_introl eq_refl)). lra.
      * now apply Hmax.
    + assert (Hlt : (q < q0)%Q).
      { apply Qnot_le_lt. intros H. apply Qle_bool_iff in H. congruence. }
      destruct (IH q0) as (m & Hm & Hin & Hmax).
      exists m. split; [exact Hm|]. split.
      * destruct Hin as [<- | Hin]; [now left | right; now right].
      * intros q' [<- | [<- | Hq']].
        -- apply Hmax. now left.
        -- specialize (Hmax q0 (or_introl eq_refl)). lra.
        -- apply Hmax. now right.
Qed.

Lemma flatnonzero_from_In (mask : list bool) :
  forall s k,
    In k (flatnonzero_from s mask)
    <-> exists j, k = (s + j)%nat /\ mask !! j = Some true.
Proof.
  induction mask as [|b mask IH]; intros s k.
  - cbn. split; [intros []|intros (j & _ & H); discriminate].
  - cbn [flatnonzero_from]. split.
    + intros H. destruct b.
      * destruct H as [<- | H].
        -- exists 0%nat. split; [lia|reflexivity].
        -- apply IH in H as (j & -> & Hj). exists (S j). split; [lia|exact Hj].
      * apply IH in H as (j & -> & Hj). exists (S j). split; [lia|exact Hj].
    + intros (j & -> & Hj). destruct j as [|j]; cbn in Hj.
      * injection Hj as ->. left. lia.
      * assert (Hin : In (s + S j)%nat (flatnonzero_from (S s) mask)).
        { apply IH. exists j. split; [lia|exact Hj]. }
        destruct b; [now right | exact Hin].
Qed.

Lemma flatnonzero_nan (prob : list npfloat) :
  flatnonzero (map (fun p => np_eqb p NaN) prob) = [].
Proof.
  unfold flatnonzero. generalize 0%nat.
  induction prob as [|p prob IH]; intros s; [reflexivity|].
  cbn [map flatnonzero_from]. destruct p; cbn; apply IH.
Qed.

Lemma fold_np_maximum_nan (l : list npfloat) :
  fold_left np_maximum l NaN = NaN.
Proof.
  induction l as [|p l IH]; [reflexivity|].
  cbn [fold_left]. destruct p; exact IH.
Qed.

Lemma map_Fin_inj (qs qs' : list Q) : map Fin qs = map Fin qs' -> qs = qs'.
Proof.
  revert qs'. induction qs as [|q qs IH]; intros [|q' qs'] H;
    try discriminate; [reflexivity|].
  injection H as Hq H. f_equal; [congruence | now apply IH].
Qed.

Lemma predict_proba_empty {series} (self : ContractableBOSS series)
    (Xt : ndarray3 series) :
  classifiers self = [] -> weight_sum self = 0%Q ->
  _predict_proba self Xt
  = Ok (repeat (repeat NaN (n_classes self)) (length (instances Xt))).
Proof.
  intros Hc Hw. unfold _predict_proba. rewrite Hc, Hw. cbn [proba_outer bind].
  now rewrite map_map_repeat.
Qed.

Section PredictFacts.

Context {series RandomState : Type}.
Variable choice_of : RandomState -> list nat -> result nat * RandomState.

Lemma predict_rows_finite (self : ContractableBOSS series) :
  (forall r a, a <> [] -> exists x, fst (choice_of r a) = Ok x /\ In x a) ->
  forall (probs : list (list npfloat)) (r : RandomState),
    Forall (finite_row self) probs ->
    exists labels,
      predict_rows choice_of self r probs = Ok labels
      /\ Forall2 (fun prob l =>
                    exists qs k q,
                      prob = map Fin qs /\ qs !! k = Some q
                      /\ classes_ self !! k = Some l
                      /\ forall q', In q' qs -> (q' <= q)%Q)
           probs labels.
Proof.
  intros Hchoice. induction probs as [|prob probs IH]; intros r Hfin.
  - exists []. split; [reflexivity|constructor].
  - apply Forall_cons in Hfin as [(qs & -> & Hne & Hlen) Hfin].
    destruct qs as [|q0 qs]; [congruence|].
    cbn [predict_rows np_max map bind].
    destruct (fold_np_maximum_fin qs q0) as (m & Hm & Hin & Hmax).
    rewrite Hm.
    set (mask := np_eqb (Fin q0) (Fin m)
                 :: map (fun p => np_eqb p (Fin m)) (map Fin qs)).
    assert (Hmask : forall j, mask !! j = Some true ->
              exists q, (q0 :: qs) !! j = Some q /\ (q == m)%Q).
    { intros j Hj. unfold mask in Hj.
      change (np_eqb (Fin q0) (Fin m)
              :: map (fun p => np_eqb p (Fin m)) (map Fin qs))
        with (map (fun p => np_eqb p (Fin m)) (map Fin (q0 :: qs))) in Hj.
      rewrite map_map, lookup_map in Hj.
      destruct ((q0 :: qs) !! j) as [q|]; [|discriminate].
      cbn in Hj. injection Hj as Hj. exists q. split; [reflexivity|].
      now apply Qeq_bool_eq. }
    assert (Hnonempty : flatnonzero mask <> []).
    { apply list_elem_of_In, list_elem_of_lookup_1 in Hin as [j Hj].
      assert (Hin' : In j (flatnonzero mask)).
      { apply flatnonzero_from_In. exists j. split; [reflexivity|].
        unfold mask.
        change (np_eqb (Fin q0) (Fin m)
                :: map (fun p => np_eqb p (Fin m)) (map Fin qs))
          with (map (fun p => np_eqb p (Fin m)) (map Fin (q0 :: qs))).
        rewrite map_map, lookup_map, Hj. cbn. f_equal.
        apply Qeq_bool_iff. reflexivity. }
      intros E. rewrite E in Hin'. destruct Hin'. }
    destruct (Hchoice r (flatnonzero mask) Hnonempty) as (x & Hx & Hxin).
    destruct (choice_of r (flatnonzero mask)) as [pick r'].
    cbn [fst] in Hx. subst pick. cbn [bind].
    apply flatnonzero_from_In in Hxin as (j & -> & Hj). cbn [Nat.add].
    destruct (Hmask j Hj) as (q & Hq & Hqm).
    assert (Hjlt : (j < length (classes_ self))%nat).
    { rewrite <- Hlen. eapply lookup_lt_Some. exact Hq. }
    destruct (lookup_lt_is_Some_2 _ _ Hjlt) as [c Hc].
    rewrite Hc. cbn [of_option bind].
    destruct (IH r' Hfin) as (labels & Hrows & Hall).
    rewrite Hrows. cbn [bind].
    exists (c :: labels). split; [reflexivity|]. constructor; [|exact Hall].
    exists (q0 :: qs), j, q. split; [reflexivity|]. split; [exact Hq|].
    split; [exact Hc|]. intros q' Hq'. rewrite Hqm. now apply Hmax.
Qed.

Lemma predict_rows_nan (self : ContractableBOSS series) :
  (forall r, fst (choice_of r []) = Raise ValueError) ->
  forall (n m : nat) (r : RandomState),
    predict_rows choice_of self r (repeat (repeat NaN n) (S m))
    = Raise ValueError.
Proof.
  intros Hchoice n m r. cbn [repeat predict_rows].
  destruct n as [|n]; [reflexivity|].
  cbn [repeat np_max]. rewrite fold_np_maximum_nan. cbn [bind].
  change (NaN :: repeat NaN n) with (repeat NaN (S n)).
  rewrite flatnonzero_nan.
  specialize (Hchoice r). destruct (choice_of r []) as [pick r'].
  cbn [fst] in Hchoice. now subst pick.
Qed.

End PredictFacts.

Lemma bucket_from_nonneg {series} (self : ContractableBOSS series)
    (x : series) (k : nat) (clfs : list (IndividualBOSS series)) :
  forall (ws : list Q) (a : Q),
    Forall (fun w => (0 < w)%Q) ws -> (0 <= a)%Q ->
    (0 <= bucket_from self x k clfs ws a)%Q.
Proof.
  induction clfs as [|clf clfs IH]; intros ws a Hws Ha; [exact Ha|].
  destruct ws as [|w ws]; [exact Ha|].
  apply Forall_cons in Hws as [Hw Hws]. cbn [bucket_from].
  destruct (decide _); apply IH; try assumption; lra.
Qed.

Lemma Qdiv_le_pos (a b d : Q) :
  (0 < d)%Q -> (a / d <= b / d)%Q -> (a <= b)%Q.
Proof.
  intros Hd H. apply (Qmult_le_r _ _ d Hd) in H.
  assert (Ea : (a / d * d == a)%Q) by (field; lra).
  assert (Eb : (b / d * d == b)%Q) by (field; lra).
  now rewrite Ea, Eb in H.
Qed.

Section FittedPrediction.

Context {series RandomState : Type}.
Variable fit_boss :
  Z -> Z -> bool -> Z -> Z -> list series -> list label ->
  (nat -> label) * (series -> label).
Variable check_random_state : Z -> RandomState.
Variable randint : RandomState -> Z -> Z -> Z * RandomState.
Variable choice : RandomState -> nat -> nat -> list nat * RandomState.
Variable clock : Z -> Q.

(** What a fit that retained a member provides for prediction on test
    series whose votes are training labels. *)
Lemma fitted_proba (self fitted : ContractableBOSS series)
    (X Xtest : ndarray3 series) (y : list label) (tr : list parameters) :
  _fit fit_boss check_random_state randint choice clock self X y
  = (tr, Ok fitted) ->
  classifiers fitted <> [] ->
  (forall clf x, In clf (classifiers fitted) -> In x (instances Xtest) ->
                 In (predict1 clf x) y) ->
  (0 < weight_sum fitted)%Q
  /\ n_classes fitted = length (classes_ fitted)
  /\ (instances Xtest <> [] -> (0 < n_classes fitted)%nat)
  /\ Forall (fun w => (0 < w)%Q) (weights fitted)
  /\ (forall x, In x (instances Xtest) ->
        (np_sum (map (fun k => class_bucket fitted x k)
                   (seq 0 (n_classes fitted)))
         == weight_sum fitted)%Q)
  /\ exists rows,
       _predict_proba fitted Xtest = Ok rows
       /\ length rows = length (instances Xtest)
       /\ forall i x, instances Xtest !! i = Some x ->
            rows !! i
            = Some (map (fun k =>
                           Fin (class_bucket fitted x k / weight_sum fitted))
                      (seq 0 (n_classes fitted))).
Proof.
  intros Hfit Hne Hknown.
  apply fit_ok in Hfit
    as (_ & _ & (low & idx & Hinv & _) & Hsum & _ & Hn & Hc & Hdict & _).
  pose proof (Forall2_length _ _ _ Hinv) as Hlen.
  pose proof (weights_positive _ _ Hinv) as Hpos.
  assert (Hw : (0 < weight_sum fitted)%Q).
  { rewrite Hsum. apply np_sum_pos; [assumption|].
    intros E. rewrite E in Hlen.
    destruct (classifiers fitted); [congruence|discriminate]. }
  assert (Hvote : forall clf x,
            In clf (classifiers fitted) -> In x (instances Xtest) ->
            exists k, class_dictionary fitted !! predict1 clf x = Some k
                      /\ (k < n_classes fitted)%nat).
  { intros clf x Hcl Hx. rewrite Hdict, Hn.
    apply trained_label_in_range. now apply Hknown. }
  split; [exact Hw|].
  split; [now rewrite Hn, Hc, class_values_length|].
  split.
  { intros Hx. rewrite Hn. apply remove_dups_nonempty. intros ->.
    destruct (classifiers fitted) as [|clf ?]; [congruence|].
    destruct (instances Xtest) as [|x ?]; [congruence|].
    exact (Hknown clf x (or_introl eq_refl) (or_introl eq_refl)). }
  split; [exact Hpos|]. split.
  { intros x Hx. unfold class_bucket. rewrite bucket_sum.
    - now rewrite Hsum.
    - now symmetry.
    - apply Forall_forall. intros clf Hcl. apply Hvote; [|assumption].
      now apply list_elem_of_In. }
  apply predict_proba_spec.
  - now symmetry.
  - apply Forall_forall. intros clf Hcl x Hx.
    apply Hvote; [now apply list_elem_of_In | assumption].
  - lra.
Qed.

End FittedPrediction.

(** X14. [_predict] returns a class of greatest probability.  Assume
    that [rng.choice] on a non-empty array returns one of its elements,
    and that the public [predict_proba] passes the test array on to
    [_predict_proba] (as it does for a non-empty array).  For a fit that retained at least one member and test series on which
    the members predict training labels, [_predict] returns one label per
    test series, and the label of a series is a training label whose class
    carries the greatest accumulated weight among all classes. *)
Theorem predict_returns_argmax {series RandomState : Type}
    (fit_boss : Z -> Z -> bool -> Z -> Z -> list series -> list label ->
                (nat -> label) * (series -> label))
    (check_random_state : Z -> RandomState)
    (randint : RandomState -> Z -> Z -> Z * RandomState)
    (choice : RandomState -> nat -> nat -> list nat * RandomState)
    (choice_of : RandomState -> list nat -> result nat * RandomState)
    (predict_proba : ContractableBOSS series -> ndarray3 series ->
                     result (list (list npfloat)))
    (clock : Z -> Q)
    (self fitted : ContractableBOSS series) (X Xtest : ndarray3 series)
    (y : list label) (tr : list parameters) :
  (forall r a, a <> [] -> exists x, fst (choice_of r a) = Ok x /\ In x a) ->
  predict_proba fitted Xtest = _predict_proba fitted Xtest ->
  _fit fit_boss check_random_state randint choice clock self X y
  = (tr, Ok fitted) ->
  classifiers fitted <> [] ->
  (forall clf x, In clf (classifiers fitted) -> In x (instances Xtest) ->
                 In (predict1 clf x) y) ->
  exists labels,
    _predict check_random_state choice_of predict_proba fitted Xtest
    = Ok labels
    /\ length labels = length (instances Xtest)
    /\ forall i x, instances Xtest !! i = Some x ->
         exists l k,
           labels !! i = Some l
           /\ classes_ fitted !! k = Some l
           /\ In l y
           /\ forall k', (k' < n_classes fitted)%nat ->
                (class_bucket fitted x k' <= class_bucket fitted x k)%Q.
Proof.
  intros Hchoice Hwrap Hfit Hne Hknown.
  pose proof (fit_ok _ _ _ _ _ _ _ _ _ _ Hfit)
    as (_ & _ & _ & _ & _ & _ & Hc & _).
  destruct (fitted_proba _ _ _ _ _ _ _ _ _ _ _ Hfit Hne Hknown)
    as (Hw & Hn & Hpos & _ & _ & rows & Hrows & Hlen & Hrow).
  unfold _predict. rewrite Hwrap, Hrows. cbn [bind].
  destruct (predict_rows_finite choice_of fitted Hchoice rows
              (check_random_state (random_state fitted)))
    as (labels & Hlabels & Hall).
  { apply Forall_lookup. intros i row Hi.
    destruct (lookup_lt_is_Some_2 (instances Xtest) i) as [x Hx].
    { rewrite <- Hlen. eapply lookup_lt_Some. exact Hi. }
    rewrite (Hrow i x Hx) in Hi. injection Hi as <-.
    exists (map (fun k => class_bucket fitted x k / weight_sum fitted)%Q
              (seq 0 (n_classes fitted))).
    split; [now rewrite map_map|]. split.
    - assert (0 < n_classes fitted)%nat.
      { apply Hpos. intros E. rewrite E in Hx. discriminate. }
      destruct (n_classes fitted); [lia|discriminate].
    - now rewrite length_map, length_seq. }
  exists labels. split; [exact Hlabels|].
  pose proof (Forall2_length _ _ _ Hall) as Hlen2.
  split; [lia|].
  intros i x Hx.
  destruct (Forall2_lookup_l _ _ _ i _ Hall (Hrow i x Hx))
    as (l & Hl & qs & k & q & Hqs & Hk & Hcl & Hmax).
  rewrite <- map_map in Hqs. apply map_Fin_inj in Hqs. subst qs.
  exists l, k. split; [exact Hl|]. split; [exact Hcl|]. split.
  { apply class_values_In_iff. rewrite <- Hc. apply list_elem_of_In.
    eapply list_elem_of_lookup_2. exact Hcl. }
  intros k' Hk'.
  assert (Hklt : (k < n_classes fitted)%nat).
  { apply lookup_lt_Some in Hk. now rewrite length_map, length_seq in Hk. }
  rewrite lookup_map_seq in Hk by assumption. injection Hk as <-.
  apply (Qdiv_le_pos _ _ (weight_sum fitted) Hw).
  cbn [Nat.add]. apply Hmax. apply in_map_iff. exists k'.
  split; [reflexivity|]. apply in_seq. lia.
Qed.

Lemma predict_returns_argmax_witness :
  exists tr fitted,
    (forall r a, a <> [] ->
       exists x, fst (toy_choice_of r a) = Ok x /\ In x a)
    /\ toy_predict_proba fitted toy_X = _predict_proba fitted toy_X
    /\ toy_fit fast_clock toy_config = (tr, Ok fitted)
    /\ classifiers fitted <> []
    /\ (forall clf x, In clf (classifiers fitted) ->
                      In x (instances toy_X) ->
                      In (predict1 clf x) toy_labels)
    /\ exists labels,
         _predict toy_check_random_state toy_choice_of toy_predict_proba
           fitted toy_X
         = Ok labels
         /\ length labels = length (instances toy_X)
         /\ forall i x, instances toy_X !! i = Some x ->
              exists l k,
                labels !! i = Some l
                /\ classes_ fitted !! k = Some l
                /\ In l toy_labels
                /\ forall k', (k' < n_classes fitted)%nat ->
                     (class_bucket fitted x k' <= class_bucket fitted x k)%Q.
Proof.
  assert (Hchoice : forall (r : nat) (a : list nat), a <> [] ->
            exists x, fst (toy_choice_of r a) = Ok x /\ In x a).
  { intros r [|x a] Ha; [congruence|]. exists x. split; [reflexivity|].
    now left. }
  assert (Hknown : forall (clf : IndividualBOSS nat) (x : nat),
            predict1 clf x = 1 -> In (predict1 clf x) toy_labels)
    by (intros clf x ->; now left).
  do 2 eexists. split; [exact Hchoice|].
  split; [reflexivity|].
  split; [vm_compute; reflexivity|].
  split; [discriminate|].
  split; [intros clf x [<- | [<- | []]] _; now apply Hknown|].
  eapply (predict_returns_argmax toy_fit_boss toy_check_random_state
            toy_randint toy_choice toy_choice_of toy_predict_proba
            fast_clock toy_config _ toy_X toy_X toy_labels);
    [exact Hchoice
    | reflexivity
    | vm_compute; reflexivity
    | discriminate
    | intros clf x [<- | [<- | []]] _; now apply Hknown].
Defined.

(** X15. [_predict] on an empty ensemble.  Assume that [rng.choice] on
    an empty array raises [ValueError].  When a fit returns with no
    retained member, [_predict] raises [ValueError] on a non-empty test
    set that the public [predict_proba] passes on to [_predict_proba]:
    every probability is [nan], no entry of a row equals the row's
    maximum, and the choice is made from an empty array.  It raises
    [ValueError] as well on a test set that the public [predict_proba]
    rejects with that error, as it does an empty one. *)
Theorem predict_empty_ensemble_raises {series RandomState : Type}
    (fit_boss : Z -> Z -> bool -> Z -> Z -> list series -> list label ->
                (nat -> label) * (series -> label))
    (check_random_state : Z -> RandomState)
    (randint : RandomState -> Z -> Z -> Z * RandomState)
    (choice : RandomState -> nat -> nat -> list nat * RandomState)
    (choice_of : RandomState -> list nat -> result nat * RandomState)
    (predict_proba : ContractableBOSS series -> ndarray3 series ->
                     result (list (list npfloat)))
    (clock : Z -> Q)
    (self fitted : ContractableBOSS series) (X Xtest : ndarray3 series)
    (y : list label) (tr : list parameters) :
  (forall r, fst (choice_of r []) = Raise ValueError) ->
  _fit fit_boss check_random_state randint choice clock self X y
  = (tr, Ok fitted) ->
  classifiers fitted = [] ->
  (instances Xtest <> [] ->
   predict_proba fitted Xtest = _predict_proba fitted Xtest ->
   _predict check_random_state choice_of predict_proba fitted Xtest
   = Raise ValueError)
  /\ (predict_proba fitted Xtest = Raise ValueError ->
      _predict check_random_state choice_of predict_proba fitted Xtest
      = Raise ValueError).
Proof.
  intros Hchoice Hfit Hnil.
  apply fit_ok in Hfit
    as (_ & _ & (low & idx & Hinv & _) & Hsum & _).
  apply Forall2_length in Hinv. rewrite Hnil in Hinv.
  assert (Hw : weight_sum fitted = 0%Q).
  { rewrite Hsum. destruct (weights fitted); [reflexivity|discriminate]. }
  unfold _predict. split.
  - intros Hx Hwrap.
    rewrite Hwrap, (predict_proba_empty fitted Xtest Hnil Hw).
    cbn [bind].
    destruct (instances Xtest) as [|x xs]; [congruence|].
    cbn [length]. now apply predict_rows_nan.
  - intros Hwrap. rewrite Hwrap. reflexivity.
Qed.

Lemma predict_empty_ensemble_raises_witness :
  exists tr fitted,
    (forall r, fst (toy_choice_of r []) = Raise ValueError)
    /\ toy_fit fast_clock (init nat 250 50 1 25 0 1 0) = (tr, Ok fitted)
    /\ classifiers fitted = []
    /\ instances toy_X <> []
    /\ toy_predict_proba fitted toy_X = _predict_proba fitted toy_X
    /\ _predict toy_check_random_state toy_choice_of toy_predict_proba
         fitted toy_X
       = Raise ValueError.
Proof.
  do 2 eexists. split; [reflexivity|].
  split; [vm_compute; reflexivity|]. split; [reflexivity|].
  split; [discriminate|]. split; [reflexivity|].
  refine (proj1 (predict_empty_ensemble_raises toy_fit_boss
                   toy_check_random_state toy_randint toy_choice
                   toy_choice_of toy_predict_proba fast_clock
                   (init nat 250 50 1 25 0 1 0) _ toy_X toy_X toy_labels _
                   _ _ _) _ _);
    [reflexivity | vm_compute; reflexivity | reflexivity | discriminate
    | reflexivity].
Defined.

(** X16. The rows of [_predict_proba] are probability distributions.
    For a fit that retained at least one member and test series on which
    the members predict training labels, every row is finite, has
    non-negative entries and sums to 1. *)
Theorem predict_proba_distributions {series RandomState : Type}
    (fit_boss : Z -> Z -> bool -> Z -> Z -> list series -> list label ->
                (nat -> label) * (series -> label))
    (check_random_state : Z -> RandomState)
    (randint : RandomState -> Z -> Z -> Z * RandomState)
    (choice : RandomState -> nat -> nat -> list nat * RandomState)
    (clock : Z -> Q)
    (self fitted : ContractableBOSS series) (X Xtest : ndarray3 series)
    (y : list label) (tr : list parameters) :
  _fit fit_boss check_random_state randint choice clock self X y
  = (tr, Ok fitted) ->
  classifiers fitted <> [] ->
  (forall clf x, In clf (classifiers fitted) -> In x (instances Xtest) ->
                 In (predict1 clf x) y) ->
  exists rows,
    _predict_proba fitted Xtest = Ok rows
    /\ length rows = length (instances Xtest)
    /\ Forall is_distribution rows.
Proof.
  intros Hfit Hne Hknown.
  destruct (fitted_proba _ _ _ _ _ _ _ _ _ _ _ Hfit Hne Hknown)
    as (Hw & _ & _ & Hpos & Hbuckets & rows & Hrows & Hlen & Hrow).
  exists rows. split; [exact Hrows|]. split; [exact Hlen|].
  apply Forall_lookup. intros i row Hi.
  destruct (lookup_lt_is_Some_2 (instances Xtest) i) as [x Hx].
  { rewrite <- Hlen. eapply lookup_lt_Some. exact Hi. }
  rewrite (Hrow i x Hx) in Hi. injection Hi as <-.
  exists (map (fun k => class_bucket fitted x k / weight_sum fitted)%Q
            (seq 0 (n_classes fitted))).
  split; [now rewrite map_map|]. split.
  - apply Forall_forall. intros q Hq.
    apply list_elem_of_In, in_map_iff in Hq as (k & <- & _).
    apply Qle_shift_div_l; [exact Hw|]. rewrite Qmult_0_l.
    apply bucket_from_nonneg; [exact Hpos|lra].
  - rewrite np_sum_map_div, Hbuckets.
    + field. lra.
    + apply list_elem_of_In. eapply list_elem_of_lookup_2. exact Hx.
Qed.

Lemma predict_proba_distributions_witness :
  exists tr fitted,
    toy_fit fast_clock toy_config = (tr, Ok fitted)
    /\ classifiers fitted <> []
    /\ (forall clf x, In clf (classifiers fitted) ->
                      In x (instances toy_X) ->
                      In (predict1 clf x) toy_labels)
    /\ exists rows,
         _predict_proba fitted toy_X = Ok rows
         /\ length rows = length (instances toy_X)
         /\ Forall is_distribution rows.
Proof.
  assert (Hknown : forall (clf : IndividualBOSS nat) (x : nat),
            predict1 clf x = 1 -> In (predict1 clf x) toy_labels)
    by (intros clf x ->; now left).
  do 2 eexists. split; [vm_compute; reflexivity|].
  split; [discriminate|].
  split; [intros clf x [<- | [<- | []]] _; now apply Hknown|].
  eapply (predict_proba_distributions toy_fit_boss toy_check_random_state
            toy_randint toy_choice fast_clock toy_config _ toy_X toy_X
            toy_labels);
    [vm_compute; reflexivity
    | discriminate
    | intros clf x [<- | [<- | []]] _; now apply Hknown].
Defined.

(** ** Training probabilities are distributions *)

Lemma oob_bucket_from_shift {series} (self : ContractableBOSS series)
    (i k : nat) (clfs : list (IndividualBOSS series)) :
  forall (ws : list Q) (a : Q),
    (oob_bucket_from self i k clfs ws a
     == a + oob_bucket_from self i k clfs ws 0)%Q.
Proof.
  induction clfs as [|clf clfs IH]; intros ws a.
  - cbn. ring.
  - destruct ws as [|w ws]; [cbn; ring|].
    cbn [oob_bucket_from].
    destruct (first_position i (subsample clf)) as [pos|]; [|apply IH].
    destruct (decide _).
    + rewrite (IH ws (a + w)%Q), (IH ws (0 + w)%Q). ring.
    + apply IH.
Qed.

Lemma oob_weight_from_shift {series} (i : nat)
    (clfs : list (IndividualBOSS series)) :
  forall (ws : list Q) (a : Q),
    (oob_weight_from i clfs ws a == a + oob_weight_from i clfs ws 0)%Q.
Proof.
  induction clfs as [|clf clfs IH]; intros ws a.
  - cbn. ring.
  - destruct ws as [|w ws]; [cbn; ring|].
    cbn [oob_weight_from].
    destruct (first_position i (subsample clf)) as [pos|]; [|apply IH].
    rewrite (IH ws (a + w)%Q), (IH ws (0 + w)%Q). ring.
Qed.

Lemma oob_bucket_from_nonneg {series} (self : ContractableBOSS series)
    (i k : nat) (clfs : list (IndividualBOSS series)) :
  forall (ws : list Q) (a : Q),
    Forall (fun w => (0 < w)%Q) ws -> (0 <= a)%Q ->
    (0 <= oob_bucket_from self i k clfs ws a)%Q.
Proof.
  induction clfs as [|clf clfs IH]; intros ws a Hws Ha; [exact Ha|].
  destruct ws as [|w ws]; [exact Ha|].
  apply Forall_cons in Hws as [Hw Hws]. cbn [oob_bucket_from].
  destruct (first_position i (subsample clf)) as [pos|];
    [|now apply IH].
  destruct (decide _); apply IH; try assumption; lra.
Qed.

(** The out-of-bag buckets of an instance share out the weights of the
    members that contain it. *)
Lemma oob_bucket_sum {series} (self : ContractableBOSS series) (i : nat)
    (clfs : list (IndividualBOSS series)) :
  (forall pred, (oob_class self pred < n_classes self)%nat) ->
  forall ws : list Q,
    (np_sum (map (fun k => oob_bucket_from self i k clfs ws 0)
               (seq 0 (n_classes self)))
     == oob_weight_from i clfs ws 0)%Q.
Proof.
  intros Hclass. induction clfs as [|clf clfs IH]; intros ws.
  - cbn [oob_bucket_from oob_weight_from].
    apply np_sum_map_zero. reflexivity.
  - destruct ws as [|w ws].
    { cbn [oob_bucket_from oob_weight_from].
      apply np_sum_map_zero. reflexivity. }
    cbn [oob_bucket_from oob_weight_from].
    destruct (first_position i (subsample clf)) as [pos|]; [|apply IH].
    rewrite (np_sum_map_ext _
               (fun k =>
                  (if decide (oob_class self (_train_predict clf pos) = k)
                   then w else 0)
                  + oob_bucket_from self i k clfs ws 0)%Q).
    + rewrite np_sum_map_plus.
      rewrite (np_sum_indicator _ w (oob_class self (_train_predict clf pos)))
        by (try (split; [lia|apply Hclass]); intros k; split; congruence).
      rewrite IH, (oob_weight_from_shift i clfs ws (0 + w)%Q). ring.
    + intros k _. destruct (decide _).
      * rewrite oob_bucket_from_shift. ring.
      * ring.
Qed.

Lemma np_sum_repeat (u : Q) (n : nat) :
  (np_sum (repeat u n) == inject_Z (Z.of_nat n) * u)%Q.
Proof.
  induction n as [|n IH].
  - cbn. ring.
  - cbn [repeat]. rewrite np_sum_cons, IH.
    rewrite Nat2Z.inj_succ. unfold Z.succ. rewrite inject_Z_plus. ring.
Qed.

Lemma oob_row_distribution {series} (self : ContractableBOSS series)
    (i : nat) :
  Forall (fun w => (0 < w)%Q) (weights self) ->
  dictionary_in_range self ->
  (0 < n_classes self)%nat ->
  is_distribution (oob_row self i).
Proof.
  intros Hpos Hdict Hn. unfold oob_row.
  assert (Hnq : (0 < inject_Z (Z.of_nat (n_classes self)))%Q).
  { replace 0%Q with (inject_Z 0) by reflexivity. rewrite <- Zlt_Qlt. lia. }
  destruct (Qeq_bool (oob_weight self i) 0) eqn:E.
  - exists (repeat (1 * (1 / inject_Z (Z.of_nat (n_classes self))))%Q
              (n_classes self)).
    split; [now rewrite map_repeat|]. split.
    + apply Forall_repeat.
      assert (H : (0 <= 1 / inject_Z (Z.of_nat (n_classes self)))%Q).
      { apply Qle_shift_div_l; [assumption|]. lra. }
      lra.
    + rewrite np_sum_repeat. field. lra.
  - assert (Hw : (0 < oob_weight self i)%Q).
    { pose proof (oob_weight_from_ge i (classifiers self) (weights self) 0
                    Hpos) as Hge.
      fold (oob_weight self i) in Hge.
      destruct (Qlt_le_dec 0 (oob_weight self i)) as [H|H]; [exact H|].
      assert (Hz : (oob_weight self i == 0)%Q) by lra.
      apply Qeq_bool_iff in Hz. congruence. }
    exists (map (fun k => oob_bucket self i k / oob_weight self i)%Q
              (seq 0 (n_classes self))).
    split; [now rewrite map_map|]. split.
    + apply Forall_forall. intros q Hq.
      apply list_elem_of_In, in_map_iff in Hq as (k & <- & _).
      apply Qle_shift_div_l; [exact Hw|]. rewrite Qmult_0_l.
      apply oob_bucket_from_nonneg; [exact Hpos|lra].
    + rewrite np_sum_map_div. unfold oob_bucket.
      rewrite oob_bucket_sum.
      * fold (oob_weight self i). field. lra.
      * intros pred. now apply oob_class_lt.
Qed.

(** X17. The rows of [_get_train_probs] are probability distributions.
    For a classifier fitted on a label vector as long as the training
    array, from a fresh object or from one whose earlier class dictionary
    has no index beyond the new class count outside the new labels, and
    with [n_jobs] other than 0 (which line 349 rejects),
    [_get_train_probs] returns one row per training instance, and every
    row is finite, has non-negative entries and sums to 1, whether it is
    the uniform fallback or the accumulation of the out-of-bag votes. *)
Theorem train_probs_distributions {series RandomState : Type}
    (fit_boss : Z -> Z -> bool -> Z -> Z -> list series -> list label ->
                (nat -> label) * (series -> label))
    (check_random_state : Z -> RandomState)
    (randint : RandomState -> Z -> Z -> Z * RandomState)
    (choice : RandomState -> nat -> nat -> list nat * RandomState)
    (clock : Z -> Q)
    (self : ContractableBOSS series) (X : ndarray3 series) (y : list label)
    (tr : list parameters) (fitted : ContractableBOSS series) :
  _fit fit_boss check_random_state randint choice clock self X y
  = (tr, Ok fitted) ->
  length y = length (instances X) ->
  (forall l k, class_dictionary self !! l = Some k ->
               In l y \/ (k < length (remove_dups y))%nat) ->
  n_jobs self <> 0 ->
  exists rows,
    _get_train_probs fitted X = Ok rows
    /\ length rows = length (instances X)
    /\ Forall is_distribution rows.
Proof.
  intros Hfit Hy Hprior Hjobs.
  pose proof (fit_n_jobs fit_boss check_random_state randint choice clock
                self fitted X y tr Hfit) as Ejobs.
  apply fit_ok in Hfit
    as (_ & _ & (low & idx & Hinv & _) & _ & _ & Hn & _ & Hdict & _).
  pose proof (Forall2_length _ _ _ Hinv) as Hlen. symmetry in Hlen.
  pose proof (weights_positive _ _ Hinv) as Hpos.
  assert (Hrange : dictionary_in_range fitted)
    by (eapply fitted_dictionary_in_range; eassumption).
  destruct (instances X) as [|x0 xs] eqn:EX.
  { exists []. split; [|split; [reflexivity|constructor]].
    unfold _get_train_probs. now rewrite EX. }
  assert (Hcls : (0 < n_classes fitted)%nat).
  { rewrite Hn. apply remove_dups_nonempty. intros ->. cbn in Hy. lia. }
  exists (map (oob_row fitted) (seq 0 (length (x0 :: xs)))).
  split; [|split].
  - unfold _get_train_probs. rewrite EX. apply train_probs_rows_ok.
    intros i _. apply train_probs_row_eq; [congruence|assumption..].
  - now rewrite length_map, length_seq.
  - apply Forall_forall. intros row Hrow.
    apply list_elem_of_In, in_map_iff in Hrow as (i & <- & _).
    now apply oob_row_distribution.
Qed.

Lemma train_probs_distributions_witness :
  exists tr fitted,
    toy_fit fast_clock toy_config = (tr, Ok fitted)
    /\ length toy_labels = length (instances toy_X)
    /\ n_jobs toy_config <> 0
    /\ exists rows,
         _get_train_probs fitted toy_X = Ok rows
         /\ length rows = length (instances toy_X)
         /\ Forall is_distribution rows.
Proof.
  do 2 eexists.
  split; [vm_compute; reflexivity|].
  split; [reflexivity|].
  split; [discriminate|].
  eapply (train_probs_distributions toy_fit_boss toy_check_random_state
            toy_randint toy_choice fast_clock toy_config toy_X
            toy_labels);
    [vm_compute; reflexivity | reflexivity | | discriminate].
  intros l k H. cbv [toy_config init class_dictionary] in H.
  rewrite lookup_empty in H. discriminate.
Defined.

(** ** Unknown labels at prediction time *)

Lemma add_at2_ok (sums : list (list Q)) (i k : nat) (w : Q) (n : nat) :
  (i < length sums)%nat ->
  Forall (fun r => length r = n) sums ->
  (k < n)%nat ->
  exists sums',
    add_at2 sums i k w = Ok sums'
    /\ length sums' = length sums
    /\ Forall (fun r => length r = n) sums'.
Proof.
  intros Hi Hrows Hk. unfold add_at2.
  destruct (lookup_lt_is_Some_2 sums i Hi) as [row Hrow]. rewrite Hrow.
  assert (Hlen : length row = n).
  { eapply (proj1 (Forall_lookup _ _) Hrows). exact Hrow. }
  destruct (lookup_lt_is_Some_2 row k ltac:(lia)) as [x Hx]. rewrite Hx.
  eexists. split; [reflexivity|]. split; [apply length_insert|].
  apply Forall_insert; [assumption|]. now rewrite length_insert.
Qed.

Section ProbaErrors.

Context {series : Type}.
Variable self : ContractableBOSS series.
Variable X : list series.

Hypothesis Hdict : dictionary_in_range self.

Lemma proba_inner_cases (clf : IndividualBOSS series) (n : nat) (w : Q)
    (len : nat) :
  weights self !! n = Some w ->
  forall (i0 : nat) (sums : list (list Q)),
    (i0 + len = length X)%nat ->
    length sums = length X ->
    Forall (fun r => length r = n_classes self) sums ->
    (proba_inner self (map (predict1 clf) X) n (seq i0 len) sums
     = Raise KeyError
     /\ exists x, In x X /\ class_dictionary self !! predict1 clf x = None)
    \/ (exists sums',
          proba_inner self (map (predict1 clf) X) n (seq i0 len) sums
          = Ok sums'
          /\ length sums' = length X
          /\ Forall (fun r => length r = n_classes self) sums'
          /\ forall j x, (i0 <= j)%nat -> X !! j = Some x ->
               class_dictionary self !! predict1 clf x <> None).
Proof.
  intros Hw. induction len as [|len IH]; intros i0 sums Hi Hlen Hrows.
  - right. exists sums. split; [reflexivity|]. split; [assumption|].
    split; [assumption|]. intros j x Hj Hx.
    apply lookup_lt_Some in Hx. lia.
  - cbn [seq proba_inner].
    destruct (lookup_lt_is_Some_2 X i0 ltac:(lia)) as [x0 Hx0].
    rewrite lookup_map, Hx0. cbn [fmap option_fmap option_map of_option bind].
    destruct (class_dictionary self !! predict1 clf x0) as [k|] eqn:Ek.
    + cbn [of_option bind]. rewrite Hw. cbn [of_option bind].
      destruct (add_at2_ok sums i0 k w (n_classes self))
        as (sums' & Hadd & Hlen' & Hrows');
        [lia | assumption | now apply (Hdict _ _ Ek) |].
      rewrite Hadd. cbn [bind].
      destruct (IH (Datatypes.S i0) sums') as [Hbad | Hgood];
        [lia | lia | assumption | now left |].
      destruct Hgood as (sums'' & Heq & Hl & Hr & Hknown).
      right. exists sums''. split; [exact Heq|]. split; [exact Hl|].
      split; [exact Hr|]. intros j x Hj Hx.
      destruct (decide (j = i0)) as [->|Hne].
      * rewrite Hx0 in Hx. injection Hx as <-. now rewrite Ek.
      * apply (Hknown j x); [lia|exact Hx].
    + left. split; [reflexivity|]. exists x0. split; [|exact Ek].
      apply list_elem_of_In. eapply list_elem_of_lookup_2. exact Hx0.
Qed.

Lemma proba_outer_cases (clfs : list (IndividualBOSS series)) :
  forall (n : nat) (ws : list Q) (sums : list (list Q)),
    drop n (weights self) = ws ->
    length ws = length clfs ->
    length sums = length X ->
    Forall (fun r => length r = n_classes self) sums ->
    (proba_outer self X n clfs sums = Raise KeyError
     /\ exists clf x,
          In clf clfs /\ In x X
          /\ class_dictionary self !! predict1 clf x = None)
    \/ (exists sums',
          proba_outer self X n clfs sums = Ok sums'
          /\ forall clf x, In clf clfs -> In x X ->
               class_dictionary self !! predict1 clf x <> None).
Proof.
  induction clfs as [|clf clfs IH]; intros n ws sums Hws Hlen Hsums Hrows.
  - right. exists sums. split; [reflexivity|]. intros clf x [].
  - destruct ws as [|w ws]; [discriminate|].
    apply drop_cons_inv in Hws as [Hw Hws']. cbn [proba_outer].
    destruct (proba_inner_cases clf n w (length X) Hw 0 sums)
      as [[Heq (x & Hx & Hnone)] | (sums' & Heq & Hl & Hr & Hknown)];
      [lia | assumption | assumption | |].
    + left. rewrite Heq. split; [reflexivity|].
      exists clf, x. split; [now left|]. split; assumption.
    + rewrite Heq. cbn [bind].
      destruct (IH (Datatypes.S n) ws sums')
        as [[Heq' (clf' & x & Hc & Hx & Hnone)] | (sums'' & Heq' & Hk')];
        [assumption | cbn in Hlen; lia | assumption | assumption | |].
      * left. split; [exact Heq'|]. exists clf', x.
        split; [now right|]. split; assumption.
      * right. exists sums''. split; [exact Heq'|].
        intros clf' x [<- | Hc] Hx.
        -- apply list_elem_of_In, list_elem_of_lookup_1 in Hx as [j Hj].
           apply (Hknown j x); [lia|exact Hj].
        -- now apply Hk'.
Qed.

End ProbaErrors.

(** X19. Unknown labels at prediction time.  For a classifier fitted
    from a fresh object, [_predict_proba] raises [KeyError] exactly when
    some retained member predicts, for some test series, a label that does
    not occur in the training labels; it raises nothing else. *)
Theorem predict_proba_key_error {series RandomState : Type}
    (fit_boss : Z -> Z -> bool -> Z -> Z -> list series -> list label ->
                (nat -> label) * (series -> label))
    (check_random_state : Z -> RandomState)
    (randint : RandomState -> Z -> Z -> Z * RandomState)
    (choice : RandomState -> nat -> nat -> list nat * RandomState)
    (clock : Z -> Q)
    (n max_size : Z) (prop : Q) (min_win : Z) (minutes : Q)
    (jobs seed : Z) (X Xtest : ndarray3 series) (y : list label)
    (tr : list parameters) (fitted : ContractableBOSS series) :
  _fit fit_boss check_random_state randint choice clock
    (init series n max_size prop min_win minutes jobs seed) X y
  = (tr, Ok fitted) ->
  (_predict_proba fitted Xtest = Raise KeyError
   <-> exists clf x,
         In clf (classifiers fitted) /\ In x (instances Xtest)
         /\ ~ In (predict1 clf x) y)
  /\ (forall e, _predict_proba fitted Xtest = Raise e -> e = KeyError).
Proof.
  intros Hfit.
  apply fit_ok in Hfit
    as (_ & _ & (low & idx & Hinv & _) & _ & _ & Hn & _ & Hdict & _).
  cbn [class_dictionary init] in Hdict.
  pose proof (Forall2_length _ _ _ Hinv) as Hlen. symmetry in Hlen.
  assert (Hrange : dictionary_in_range fitted).
  { intros l k Hk. rewrite Hdict in Hk. rewrite Hn, <- class_values_length.
    apply (fill_class_dictionary_lt (class_values y) ∅ 0%nat) in Hk;
      [lia|].
    intros l' k' H'. rewrite lookup_empty in H'. discriminate. }
  assert (Hunknown : forall l,
            class_dictionary fitted !! l = None <-> ~ In l y).
  { intros l. rewrite Hdict. split.
    - intros Hnone Hin.
      destruct (trained_label_in_range ∅ y l Hin) as (k & Hk & _).
      congruence.
    - intros Hnot. rewrite fill_class_dictionary_other.
      + apply lookup_empty.
      + now rewrite class_values_In_iff. }
  unfold _predict_proba.
  destruct (proba_outer_cases fitted (instances Xtest) Hrange
              (classifiers fitted) 0 (weights fitted)
              (repeat (repeat 0%Q (n_classes fitted))
                 (length (instances Xtest))))
    as [[Heq (clf & x & Hc & Hx & Hnone)] | (sums' & Heq & Hknown)];
    [apply drop_0 | assumption | apply repeat_length
    | apply Forall_repeat, repeat_length | |];
    rewrite Heq; cbn [bind].
  - split; [|congruence]. split; [|reflexivity].
    intros _. exists clf, x. split; [assumption|]. split; [assumption|].
    now apply Hunknown.
  - split; [|discriminate]. split; [discriminate|].
    intros (clf & x & Hc & Hx & Hnot). exfalso.
    apply (Hknown clf x Hc Hx). now apply Hunknown.
Qed.

Lemma predict_proba_key_error_witness :
  exists tr fitted,
    _fit toy_fit_boss toy_check_random_state toy_randint toy_choice
      fast_clock (init nat 3 2 1 10 0 1 0) toy_X toy_labels_zero
    = (tr, Ok fitted)
    /\ (_predict_proba fitted toy_X = Raise KeyError
        <-> exists clf x,
              In clf (classifiers fitted) /\ In x (instances toy_X)
              /\ ~ In (predict1 clf x) toy_labels_zero)
    /\ (forall e, _predict_proba fitted toy_X = Raise e -> e = KeyError).
Proof.
  do 2 eexists. split; [vm_compute; reflexivity|].
  eapply (predict_proba_key_error toy_fit_boss toy_check_random_state
            toy_randint toy_choice fast_clock 3 2 1 10 0 1 0 toy_X toy_X
            toy_labels_zero).
  vm_compute; reflexivity.
Defined.


(** ** Refitting *)

Section Refit.

Context {series : Type}.
Variable fit_boss :
  Z -> Z -> bool -> Z -> Z -> list series -> list label ->
  (nat -> label) * (series -> label).
Context {RandomState : Type}.
Variable check_random_state : Z -> RandomState.
Variable randint : RandomState -> Z -> Z -> Z * RandomState.
Variable choice : RandomState -> nat -> nat -> list nat * RandomState.
Variable clock : Z -> Q.

(** The loop reads five attributes of [self]. *)
Lemma search_loop_reads (a b : ContractableBOSS series) (time_limit : Q)
    (X : ndarray3 series) (y : list label) (subsample_size : nat)
    (fuel : nat) :
  n_parameter_samples a = n_parameter_samples b ->
  max_ensemble_size a = max_ensemble_size b ->
  n_jobs a = n_jobs b ->
  random_state a = random_state b ->
  alphabet_size a = alphabet_size b ->
  forall st : search_state series RandomState,
    search_loop fit_boss randint choice clock fuel a time_limit X y
      subsample_size st
    = search_loop fit_boss randint choice clock fuel b time_limit X y
        subsample_size st.
Proof.
  intros Hn Hm Hj Hr Ha.
  assert (Hstep : forall st,
            search_step fit_boss randint choice clock a X y subsample_size st
            = search_step fit_boss randint choice clock b X y subsample_size
                st).
  { intros st. unfold search_step. now rewrite Hm, Hj, Hr, Ha. }
  assert (Hcont : forall st : search_state series RandomState,
            continue a time_limit st = continue b time_limit st).
  { intros st. unfold continue. now rewrite Hn. }
  induction fuel as [|fuel IH]; intros st; cbn [search_loop];
    rewrite Hcont; [reflexivity|].
  rewrite Hstep. destruct (continue b time_limit st); [|reflexivity].
  destruct (search_step _ _ _ _ _ _ _ _ _) as [tr [st1|e]]; [|reflexivity].
  now rewrite IH.
Qed.

Lemma fit_reads (a b : ContractableBOSS series) (X : ndarray3 series)
    (y : list label) :
  (if Qlt_bool 0 (time_limit_in_minutes a * 60) then 0
   else n_parameter_samples a)
  = (if Qlt_bool 0 (time_limit_in_minutes b * 60) then 0
     else n_parameter_samples b) ->
  max_ensemble_size a = max_ensemble_size b ->
  max_win_len_prop a = max_win_len_prop b ->
  time_limit_in_minutes a = time_limit_in_minutes b ->
  n_jobs a = n_jobs b ->
  random_state a = random_state b ->
  fill_class_dictionary (class_dictionary a) 0 (class_values y)
  = fill_class_dictionary (class_dictionary b) 0 (class_values y) ->
  word_lengths a = word_lengths b ->
  norm_options a = norm_options b ->
  min_window a = min_window b ->
  alphabet_size a = alphabet_size b ->
  _fit fit_boss check_random_state randint choice clock a X y
  = _fit fit_boss check_random_state randint choice clock b X y.
Proof.
  intros Hn Hm Hp Ht Hj Hr Hd Hw Ho Hmin Ha.
  unfold _fit, _unique_parameters.
  rewrite Hn, Hm, Hp, Ht, Hj, Hr, Hd, Hw, Ho, Hmin, Ha.
  destruct (Qeq_bool _ 0); [reflexivity|].
  destruct (_ <? min_window b); [reflexivity|].
  match goal with
  | |- match search_loop ?f ?ri ?ch ?cl ?fu ?s1 ?tl ?X ?y ?ss ?s0 with
       | _ => _ end
       = match search_loop _ _ _ _ _ ?s2 _ _ _ _ _ with _ => _ end =>
      rewrite (search_loop_reads s1 s2 tl X y ss fu) by reflexivity
  end.
  reflexivity.
Qed.

Lemma fit_keeps_configuration (self fitted : ContractableBOSS series)
    (X : ndarray3 series) (y : list label) (tr : list parameters) :
  _fit fit_boss check_random_state randint choice clock self X y
  = (tr, Ok fitted) ->
  n_parameter_samples fitted
  = (if Qlt_bool 0 (time_limit_in_minutes self * 60) then 0
     else n_parameter_samples self)
  /\ max_ensemble_size fitted = max_ensemble_size self
  /\ max_win_len_prop fitted = max_win_len_prop self
  /\ time_limit_in_minutes fitted = time_limit_in_minutes self
  /\ n_jobs fitted = n_jobs self
  /\ random_state fitted = random_state self
  /\ class_dictionary fitted
     = fill_class_dictionary (class_dictionary self) 0 (class_values y)
  /\ word_lengths fitted = word_lengths self
  /\ norm_options fitted = norm_options self
  /\ min_window fitted = min_window self
  /\ alphabet_size fitted = alphabet_size self.
Proof.
  unfold _fit.
  destruct (Qeq_bool (max_window_searches_of (shape2 X)) 0);
    [intros H; discriminate|].
  destruct (max_window_of _ _ + 1 <? min_window self);
    [intros H; discriminate|].
  match goal with
  | |- context [search_loop ?f ?ri ?ch ?cl ?fu ?s1 ?tl ?X ?y ?ss ?s0] =>
      destruct (search_loop f ri ch cl fu s1 tl X y ss s0) as [tr' [st'|e]]
        eqn:Eloop; [|intros H; discriminate]
  end.
  intros H. injection H as <- <-. cbn. repeat split.
Qed.

End Refit.

Lemma fill_class_dictionary_idempotent (d : gmap Z nat)
    (classes : list label) :
  NoDup classes ->
  fill_class_dictionary (fill_class_dictionary d 0 classes) 0 classes
  = fill_class_dictionary d 0 classes.
Proof.
  intros Hnd. apply map_eq. intros l.
  destruct (decide (l ∈ classes)) as [Hin|Hnot].
  - apply list_elem_of_lookup_1 in Hin as [p Hp].
    now rewrite !(fill_class_dictionary_lookup classes _ 0 p l Hnd Hp).
  - rewrite !fill_class_dictionary_other;
      [reflexivity | now rewrite <- list_elem_of_In..].
Qed.

(** X20. [_fit] starts from scratch.  Two objects with the same
    configuration give the same result on the same data, whatever
    ensemble, weights, weight sum, class list or sizes they held before:
    of the state of an earlier fit only the class dictionary is read. *)
Theorem fit_ignores_previous_ensemble {series RandomState : Type}
    (fit_boss : Z -> Z -> bool -> Z -> Z -> list series -> list label ->
                (nat -> label) * (series -> label))
    (check_random_state : Z -> RandomState)
    (randint : RandomState -> Z -> Z -> Z * RandomState)
    (choice : RandomState -> nat -> nat -> list nat * RandomState)
    (clock : Z -> Q)
    (a b : ContractableBOSS series) (X : ndarray3 series) (y : list label) :
  same_configuration a b ->
  _fit fit_boss check_random_state randint choice clock a X y
  = _fit fit_boss check_random_state randint choice clock b X y.
Proof.
  intros (Hn & Hm & Hp & Ht & Hj & Hr & Hd & Hw & Ho & Hmin & Ha).
  apply fit_reads; try assumption.
  - now rewrite Hn, Ht.
  - now rewrite Hd.
Qed.

Lemma fit_ignores_previous_ensemble_witness :
  same_configuration toy_stale_config toy_config
  /\ toy_fit fast_clock toy_stale_config = toy_fit fast_clock toy_config.
Proof.
  assert (H : same_configuration toy_stale_config toy_config).
  { unfold same_configuration. cbn. repeat split. }
  split; [exact H|].
  apply (fit_ignores_previous_ensemble toy_fit_boss toy_check_random_state
           toy_randint toy_choice fast_clock toy_stale_config toy_config
           toy_X toy_labels H).
Defined.

(** X21. Refitting reproduces the fit.  When [_fit] has returned, calling
    [_fit] again on the fitted object with the same data, the same
    generator and the same clock readings tries the same candidates and
    returns the same fitted object. *)
Theorem fit_refit_reproduces {series RandomState : Type}
    (fit_boss : Z -> Z -> bool -> Z -> Z -> list series -> list label ->
                (nat -> label) * (series -> label))
    (check_random_state : Z -> RandomState)
    (randint : RandomState -> Z -> Z -> Z * RandomState)
    (choice : RandomState -> nat -> nat -> list nat * RandomState)
    (clock : Z -> Q)
    (self fitted : ContractableBOSS series) (X : ndarray3 series)
    (y : list label) (tr : list parameters) :
  _fit fit_boss check_random_state randint choice clock self X y
  = (tr, Ok fitted) ->
  _fit fit_boss check_random_state randint choice clock fitted X y
  = (tr, Ok fitted).
Proof.
  intros Hfit.
  destruct (fit_keeps_configuration _ _ _ _ _ _ _ _ _ _ Hfit)
    as (Hn & Hm & Hp & Ht & Hj & Hr & Hd & Hw & Ho & Hmin & Ha).
  rewrite <- Hfit. apply fit_reads; try assumption.
  - rewrite Hn, Ht.
    now destruct (Qlt_bool 0 (time_limit_in_minutes self * 60)).
  - rewrite Hd. apply fill_class_dictionary_idempotent.
    apply class_values_NoDup.
Qed.

Lemma fit_refit_reproduces_witness :
  exists tr fitted,
    toy_fit fast_clock toy_config = (tr, Ok fitted)
    /\ toy_fit fast_clock fitted = (tr, Ok fitted).
Proof.
  do 2 eexists. split; [vm_compute; reflexivity|].
  eapply (fit_refit_reproduces toy_fit_boss toy_check_random_state
            toy_randint toy_choice fast_clock toy_config _ toy_X toy_labels).
  vm_compute; reflexivity.
Defined.

(** ** The search after the warm-up, and the warm-up *)

Section SearchPhases.

Context {series : Type}.
Variable fit_boss :
  Z -> Z -> bool -> Z -> Z -> list series -> list label ->
  (nat -> label) * (series -> label).
Context {RandomState : Type}.
Variable check_random_state : Z -> RandomState.
Variable randint : RandomState -> Z -> Z -> Z * RandomState.
Variable choice : RandomState -> nat -> nat -> list nat * RandomState.
Variable clock : Z -> Q.

Lemma search_step_full_monotone (self : ContractableBOSS series)
    (X : ndarray3 series) (y : list label) (subsample_size : nat)
    (st st' : search_state series RandomState) (tr : list parameters) :
  state_inv self st ->
  max_ensemble_size self <= num_classifiers st ->
  search_step fit_boss randint choice clock self X y subsample_size st
  = (tr, Ok st') ->
  (lowest_acc st <= lowest_acc st')%Q
  /\ length (st_classifiers st') = length (st_classifiers st)
  /\ (forall b, In b (st_classifiers st') ->
        (lowest_acc st' <= accuracy b)%Q).
Proof.
  intros Hinv Hfull Hstep.
  apply search_step_ok in Hstep as (_ & _ & _ & _ & boss & Hacc & Hret).
  destruct Hinv as (Hw & _ & Htr & _).
  apply retain_full_monotone in Hret
    as (Hlow & Hlen & _ & _ & Hmem).
  - auto.
  - assumption.
  - symmetry. eapply Forall2_length. exact Hw.
  - assumption.
  - destruct Hacc as [[_ H] | [_ H]]; lra.
Qed.

Lemma search_step_warm_up (self : ContractableBOSS series)
    (X : ndarray3 series) (y : list label) (subsample_size : nat)
    (st st' : search_state series RandomState) (tr : list parameters) :
  num_classifiers st < max_ensemble_size self ->
  search_step fit_boss randint choice clock self X y subsample_size st
  = (tr, Ok st') ->
  exists b,
    st_classifiers st' = st_classifiers st ++ [b]
    /\ tr = [parameters_of b].
Proof.
  intros Hwarm. unfold search_step.
  destruct (randint _ _ _) as [k rng1].
  destruct (py_pop _ _) as [[params remaining]|]; [|intros H; discriminate].
  destruct (choice _ _ _) as [sub rng2].
  destruct (np_take (instances X) sub) as [Xs|]; [|intros H; discriminate].
  destruct (np_take y sub) as [ys|]; [|intros H; discriminate].
  destruct params as [[win_size word_len] normalise].
  destruct (fit_boss _ _ _ _ _ _ _) as [tp pr].
  destruct (_individual_train_acc _ _ _ _ _) as [acc|];
    [|intros H; discriminate].
  cbn [bind]. unfold retain.
  destruct (Z.ltb_spec (num_classifiers st) (max_ensemble_size self));
    [|lia].
  destruct (Qlt_bool _ (lowest_acc st)); cbn [bind];
    intros [= <- <-]; cbn [st_classifiers]; eexists;
    (split; [reflexivity|]); reflexivity.
Qed.

Lemma search_loop_warm_up (self : ContractableBOSS series) (time_limit : Q)
    (X : ndarray3 series) (y : list label) (subsample_size : nat)
    (fuel : nat) :
  forall (st st' : search_state series RandomState) (tr : list parameters),
    search_loop fit_boss randint choice clock fuel self time_limit X y
      subsample_size st = (tr, Ok st') ->
    num_classifiers st' = num_classifiers st + Z.of_nat (length tr)
    /\ (num_classifiers st' <= max_ensemble_size self ->
        map parameters_of (st_classifiers st')
        = map parameters_of (st_classifiers st) ++ tr).
Proof.
  induction fuel as [|fuel IH]; intros st st' tr Hloop.
  - cbn in Hloop. destruct (continue self time_limit st);
      injection Hloop as <- <-; cbn; rewrite app_nil_r; (split; [lia|auto]).
  - cbn [search_loop] in Hloop.
    destruct (continue self time_limit st).
    2:{ injection Hloop as <- <-. cbn. rewrite app_nil_r. split; [lia|auto]. }
    destruct (search_step _ _ _ _ _ _ _ _ _) as [tr1 [st1|e]] eqn:Estep;
      [|discriminate].
    destruct (search_loop _ _ _ _ _ _ _ _ _ _ st1) as [tr2 r] eqn:Erec.
    injection Hloop as <- ->.
    pose proof (search_step_ok _ _ _ _ _ _ _ _ _ _ _ Estep)
      as (Hlen1 & _ & Hnum1 & _).
    apply IH in Erec as [Hnum Hmap].
    split; [rewrite Hnum, Hnum1, length_app; lia|].
    intros Hmax.
    apply search_step_warm_up in Estep as (b & Hcs & ->); [|lia].
    rewrite (Hmap Hmax), Hcs, map_app. cbn [map]. now rewrite <- app_assoc.
Qed.

Lemma search_loop_full_monotone (self : ContractableBOSS series)
    (time_limit : Q) (X : ndarray3 series) (y : list label)
    (subsample_size : nat) (fuel : nat) :
  forall (st st' : search_state series RandomState) (tr : list parameters),
    state_inv self st ->
    max_ensemble_size self <= num_classifiers st ->
    (forall b, In b (st_classifiers st) -> (lowest_acc st <= accuracy b)%Q) ->
    search_loop fit_boss randint choice clock fuel self time_limit X y
      subsample_size st = (tr, Ok st') ->
    (lowest_acc st <= lowest_acc st')%Q
    /\ length (st_classifiers st') = length (st_classifiers st)
    /\ (forall b, In b (st_classifiers st') ->
          (lowest_acc st' <= accuracy b)%Q).
Proof.
  induction fuel as [|fuel IH]; intros st st' tr Hinv Hfull Hmem Hloop.
  - cbn in Hloop. destruct (continue self time_limit st);
      injection Hloop as <- <-; (split; [lra|]); auto.
  - cbn [search_loop] in Hloop.
    destruct (continue self time_limit st).
    2:{ injection Hloop as <- <-. split; [lra|]. auto. }
    destruct (search_step _ _ _ _ _ _ _ _ _) as [tr1 [st1|e]] eqn:Estep;
      [|discriminate].
    destruct (search_loop _ _ _ _ _ _ _ _ _ _ st1) as [tr2 r] eqn:Erec.
    injection Hloop as <- ->.
    assert (Hinv1 : state_inv self st1)
      by (eapply search_step_inv; eassumption).
    pose proof (search_step_ok _ _ _ _ _ _ _ _ _ _ _ Estep)
      as (_ & _ & Hnum1 & _).
    destruct (search_step_full_monotone _ _ _ _ _ _ _ Hinv Hfull Estep)
      as (Hlow1 & Hlen1 & Hmem1).
    apply IH in Erec as (Hlow & Hlen & Hmem'); [|assumption|lia|assumption].
    split; [lra|]. split; [lia|exact Hmem'].
Qed.

Lemma fit_warm_up (self fitted : ContractableBOSS series)
    (X : ndarray3 series) (y : list label) (tr : list parameters) :
  _fit fit_boss check_random_state randint choice clock self X y
  = (tr, Ok fitted) ->
  Z.of_nat (length tr) <= max_ensemble_size self ->
  map parameters_of (classifiers fitted) = tr.
Proof.
  unfold _fit.
  destruct (Qeq_bool (max_window_searches_of (shape2 X)) 0);
    [intros H; discriminate|].
  destruct (max_window_of _ _ + 1 <? min_window self);
    [intros H; discriminate|].
  match goal with
  | |- context [search_loop ?f ?ri ?ch ?cl ?fu ?s1 ?tl ?X ?y ?ss ?s0] =>
      destruct (search_loop f ri ch cl fu s1 tl X y ss s0) as [tr' [st'|e]]
        eqn:Eloop; [|intros H; discriminate]
  end.
  intros H. injection H as <- <-. cbn [classifiers]. intros Hmax.
  apply search_loop_warm_up in Eloop as [Hnum Hmap].
  cbn [num_classifiers st_classifiers max_ensemble_size map] in Hnum, Hmap.
  apply Hmap. lia.
Qed.

End SearchPhases.

(** X13. After the warm-up the ensemble only improves.  From any state
    of the search in which the ensemble is full and the bookkeeping tracks
    its least accuracy, however many further candidates the loop tries:
    the threshold [lowest_acc] at the end is at least what it was, the
    ensemble has the same number of members, and every member at the end
    has an accuracy of at least the final threshold, hence of at least the
    threshold the search started from. *)
Theorem search_threshold_monotone {series RandomState : Type}
    (fit_boss : Z -> Z -> bool -> Z -> Z -> list series -> list label ->
                (nat -> label) * (series -> label))
    (randint : RandomState -> Z -> Z -> Z * RandomState)
    (choice : RandomState -> nat -> nat -> list nat * RandomState)
    (clock : Z -> Q)
    (self : ContractableBOSS series) (time_limit : Q)
    (X : ndarray3 series) (y : list label) (subsample_size fuel : nat)
    (st st' : search_state series RandomState) (tr : list parameters) :
  state_inv self st ->
  max_ensemble_size self <= num_classifiers st ->
  search_loop fit_boss randint choice clock fuel self time_limit X y
    subsample_size st = (tr, Ok st') ->
  (lowest_acc st <= lowest_acc st')%Q
  /\ length (st_classifiers st') = length (st_classifiers st)
  /\ (forall b, In b (st_classifiers st') ->
        (lowest_acc st' <= accuracy b)%Q
        /\ (lowest_acc st <= accuracy b)%Q).
Proof.
  intros Hinv Hfull Hloop.
  assert (Hmem : forall b, In b (st_classifiers st) ->
                   (lowest_acc st <= accuracy b)%Q).
  { destruct Hinv as (_ & _ & [Hall _] & _). intros b Hb.
    apply list_elem_of_In, list_elem_of_lookup_1 in Hb as [j Hj].
    eapply Hall. exact Hj. }
  destruct (search_loop_full_monotone _ _ _ _ _ _ _ _ _ _ _ _ _ Hinv Hfull
              Hmem Hloop) as (Hlow & Hlen & Hmem').
  split; [exact Hlow|]. split; [exact Hlen|].
  intros b Hb. specialize (Hmem' b Hb). split; [exact Hmem'|lra].
Qed.

Lemma search_threshold_monotone_witness :
  exists tr st',
    state_inv toy_single_config toy_full_state
    /\ max_ensemble_size toy_single_config <= num_classifiers toy_full_state
    /\ search_loop toy_fit_boss toy_randint toy_choice fast_clock 80
         toy_single_config 0 toy_X toy_labels 5 toy_full_state
       = (tr, Ok st')
    /\ (lowest_acc toy_full_state <= lowest_acc st')%Q
    /\ length (st_classifiers st') = length (st_classifiers toy_full_state)
    /\ (forall b, In b (st_classifiers st') ->
          (lowest_acc st' <= accuracy b)%Q
          /\ (lowest_acc toy_full_state <= accuracy b)%Q).
Proof.
  assert (Hinv : state_inv toy_single_config toy_full_state).
  { unfold state_inv, ensemble_inv. cbn.
    split; [repeat constructor|].
    split.
    { intros [|j] b Hj; [|discriminate]. injection Hj as <-.
      split; vm_compute; discriminate. }
    split; [apply tracked_sole_member; reflexivity|].
    split; [vm_compute; discriminate|]. split; [lia|]. intros _. reflexivity. }
  do 2 eexists. split; [exact Hinv|]. split; [cbn; lia|].
  split; [vm_compute; reflexivity|].
  eapply (search_threshold_monotone toy_fit_boss toy_randint toy_choice
            fast_clock toy_single_config 0 toy_X toy_labels 5 80
            toy_full_state);
    [exact Hinv | cbn; lia | vm_compute; reflexivity].
Defined.

(** X22. The warm-up keeps every candidate.  When a fit that returns has
    tried no more candidates than [max_ensemble_size], the ensemble
    consists of exactly the learners fitted on the tried candidates, in
    the order in which they were tried: none is abandoned, rejected or
    replaced. *)
Theorem fit_warm_up_keeps_all {series RandomState : Type}
    (fit_boss : Z -> Z -> bool -> Z -> Z -> list series -> list label ->
                (nat -> label) * (series -> label))
    (check_random_state : Z -> RandomState)
    (randint : RandomState -> Z -> Z -> Z * RandomState)
    (choice : RandomState -> nat -> nat -> list nat * RandomState)
    (clock : Z -> Q)
    (self fitted : ContractableBOSS series) (X : ndarray3 series)
    (y : list label) (tr : list parameters) :
  _fit fit_boss check_random_state randint choice clock self X y
  = (tr, Ok fitted) ->
  Z.of_nat (length tr) <= max_ensemble_size self ->
  map parameters_of (classifiers fitted) = tr
  /\ n_estimators fitted = length tr
  /\ (forall b, In b (classifiers fitted) -> (0 <= accuracy b <= 1)%Q).
Proof.
  intros Hfit Hmax.
  pose proof (fit_warm_up _ _ _ _ _ _ _ _ _ _ Hfit Hmax) as Hmap.
  pose proof (fit_ok _ _ _ _ _ _ _ _ _ _ Hfit)
    as (_ & _ & (low & idx & _ & Hacc & _) & _ & Hn & _).
  split; [exact Hmap|]. split.
  - rewrite Hn, <- Hmap. now rewrite length_map.
  - intros b Hb. apply list_elem_of_In, list_elem_of_lookup_1 in Hb as [j Hj].
    eapply Hacc. exact Hj.
Qed.

Lemma fit_warm_up_keeps_all_witness :
  exists tr fitted,
    toy_fit fast_clock (init nat 2 5 1 10 0 1 0) = (tr, Ok fitted)
    /\ Z.of_nat (length tr) <= max_ensemble_size (init nat 2 5 1 10 0 1 0)
    /\ map parameters_of (classifiers fitted) = tr
    /\ n_estimators fitted = length tr
    /\ (forall b, In b (classifiers fitted) -> (0 <= accuracy b <= 1)%Q).
Proof.
  do 2 eexists. split; [vm_compute; reflexivity|].
  split; [vm_compute; discriminate|].
  eapply (fit_warm_up_keeps_all toy_fit_boss toy_check_random_state
            toy_randint toy_choice fast_clock (init nat 2 5 1 10 0 1 0) _
            toy_X toy_labels);
    [vm_compute; reflexivity | vm_compute; discriminate].
Defined.
